(** * Viral-moment detection and the clip / ingestion job pipelines

    A shallow embedding of [lib/viralDetector], [lib/videoProcessor],
    [lib/transcription], [app/api/process/route], [app/api/ingest/route],
    the routes that report on jobs and serve clips, and the selection and
    request logic of the web client.

    Modelling conventions.
    - A JavaScript [number] is an exact rational ([Q]); the comparisons and
      the arithmetic of the source are the ones of [Q].  The numbers of a
      run are taken to be numbers proper; the one place where the scorer
      itself divides by a length that may be zero is written out.
    - A JavaScript [string] is a [string] of bytes; [toLowerCase] acts on the
      ASCII letters, [trim] on the ASCII white space.
    - [uuidv4()] and [Math.random()] draw from supplies indexed by the number
      of draws made so far; the external tools (ranking service, transcoder,
      downloader, transcriber) are oracles returning a value or an error.
    - The file system is a finite map from paths to contents, the job stores
      are finite maps from job identifiers to snapshots.
    - A background job runs to its end in one step; the snapshots a polling
      client may see in between are the successive writes to the store.
    - Of the ingest route both branches are embedded, the one for a remote
      URL and the one for an uploaded file, each from the parsed request on. *)

From Stdlib Require Import QArith Qround ZArith List String Ascii Bool Lia.
From Stdlib Require Import DecimalString Sorted Permutation.
From stdpp Require Import gmap strings list fin_maps sorting.

Open Scope string_scope.
Open Scope list_scope.

(** ** Numbers *)

Definition Qlt_bool (x y : Q) : bool := negb (Qle_bool y x).

(** [Math.min(x, y)] *)
Definition Math_min (x y : Q) : Q := if Qlt_bool y x then y else x.

(** ** Strings *)

Module Str.

Definition toLowerChar (c : ascii) : ascii :=
  let n := nat_of_ascii c in
  if ((65 <=? n) && (n <=? 90))%nat then ascii_of_nat (n + 32) else c.

Fixpoint toLowerCase (s : string) : string :=
  match s with
  | EmptyString => EmptyString
  | String c s' => String (toLowerChar c) (toLowerCase s')
  end.

(** [s.includes(pat)] *)
Fixpoint includes (s pat : string) : bool :=
  if String.prefix pat s then true
  else match s with
       | EmptyString => false
       | String _ s' => includes s' pat
       end.

(** [(s.match(/c/g) || []).length] for a single literal character [c] *)
Fixpoint countChar (c : ascii) (s : string) : nat :=
  match s with
  | EmptyString => 0
  | String d s' => (if Ascii.eqb c d then 1 else 0) + countChar c s'
  end.

Definition isTerminator (c : ascii) : bool :=
  Ascii.eqb c "." || Ascii.eqb c "!" || Ascii.eqb c "?".

(** [s.split(/[.!?]+/)]: the pieces between maximal runs of terminators,
    the empty pieces at both ends included. *)
Fixpoint splitGo (s cur : string) (inRun : bool) : list string :=
  match s with
  | EmptyString => [cur]
  | String c s' =>
      if isTerminator c
      then (if inRun then splitGo s' cur true else cur :: splitGo s' "" true)
      else splitGo s' (cur +:+ String c "") false
  end.

Definition splitSentences (s : string) : list string := splitGo s "" false.

Definition isSpace (c : ascii) : bool :=
  let n := nat_of_ascii c in ((9 <=? n) && (n <=? 13) || (n =? 32))%nat.

Fixpoint trimStart (s : string) : string :=
  match s with
  | EmptyString => EmptyString
  | String c s' => if isSpace c then trimStart s' else s
  end.

Definition trim (s : string) : string :=
  String.rev (trimStart (String.rev (trimStart s))).

(** [l.join(sep)] *)
Fixpoint join (sep : string) (l : list string) : string :=
  match l with
  | [] => ""
  | [x] => x
  | x :: l' => x +:+ sep +:+ join sep l'
  end.

(** [s.replace(pat, by)] with a string pattern: the first occurrence only. *)
Fixpoint replaceFirst (s pat by_ : string) : string :=
  if String.prefix pat s
  then by_ +:+ String.substring (String.length pat)
                                (String.length s - String.length pat) s
  else match s with
       | EmptyString => EmptyString
       | String c s' => String c (replaceFirst s' pat by_)
       end.

End Str.

(** ** Data model ([types]) *)

Record TranscriptSegment := mkSegment {
  seg_text : string;
  seg_start : Q;
  seg_end : Q;
  seg_confidence : option Q
}.

Record ViralMoment := mkMoment {
  m_id : string;
  m_start : Q;
  m_end : Q;
  m_score : Q;
  m_reason : string;
  m_text : string;
  m_emotions : list string;
  m_keywords : list string
}.

(** ** The detector ([lib/viralDetector]) *)

Definition VIRAL_KEYWORDS : list string :=
  [ "shocking"; "crazy"; "insane"; "unbelievable"; "secret"; "revealed"; "truth";
    "amazing"; "incredible"; "must see"; "warning"; "exposed"; "never"; "always";
    "everyone"; "nobody"; "mistake"; "hack"; "trick"; "best"; "worst"; "first time";
    "story"; "happened"; "realized"; "discovered"; "finally"; "actually" ].

Definition EMOTION_KEYWORDS : list (string * list string) :=
  [ ("excitement", ["excited"; "amazing"; "incredible"; "wow"; "awesome"; "fantastic"]);
    ("surprise", ["shocking"; "surprised"; "unexpected"; "suddenly"; "wait"; "what"]);
    ("urgency", ["now"; "must"; "need"; "quick"; "important"; "immediately"]);
    ("curiosity", ["why"; "how"; "what if"; "imagine"; "think about"; "ever wondered"]);
    ("controversy", ["wrong"; "lie"; "truth"; "exposed"; "hidden"; "secret"]) ].

Definition matches (lowerText : string) (kws : list string) : list string :=
  List.filter (fun kw => Str.includes lowerText kw) kws.

Definition Qnat (n : nat) : Q := inject_Z (Z.of_nat n).

(** [segments.reduce((sum, s) => sum + s.text.length, 0)] *)
Definition totalTextLength (segments : list TranscriptSegment) : nat :=
  fold_left (fun sum s => (sum + String.length (seg_text s))%nat) segments 0%nat.

(** [avgSegmentLength < 50]; on an empty list the average is 0/0, which is
    not a number and compares false. *)
Definition isPunchy (segments : list TranscriptSegment) : bool :=
  match segments with
  | [] => false
  | _ => Qlt_bool (Qnat (totalTextLength segments) / Qnat (length segments))%Q 50%Q
  end.

Definition sentences (text : string) : list string :=
  List.filter (fun s => (0 <? String.length (Str.trim s))%nat) (Str.splitSentences text).

Definition rawViralScore (text : string) (segments : list TranscriptSegment) : Q :=
  let score := 0%Q in
  let lowerText := Str.toLowerCase text in
  let keywordMatches := length (matches lowerText VIRAL_KEYWORDS) in
  let score := (score + Qnat keywordMatches * 0.1)%Q in
  let emotionCount :=
    fold_left (fun count kws => (count + length (matches lowerText kws))%nat)
              (map snd EMOTION_KEYWORDS) 0%nat in
  let score := (score + Qnat emotionCount * 0.08)%Q in
  let questionMarks := Str.countChar "?" text in
  let score := (score + Qnat questionMarks * 0.15)%Q in
  let exclamations := Str.countChar "!" text in
  let score := (score + Qnat exclamations * 0.1)%Q in
  let score := if isPunchy segments then (score + 0.2)%Q else score in
  let n := length (sentences text) in
  let score := if ((3 <=? n) && (n <=? 8))%nat then (score + 0.15)%Q else score in
  score.

Definition calculateViralScore (text : string) (segments : list TranscriptSegment) : Q :=
  Math_min (rawViralScore text segments) 1%Q.

Definition detectEmotions (text : string) : list string :=
  let lowerText := Str.toLowerCase text in
  map fst (List.filter (fun e => existsb (fun kw => Str.includes lowerText kw) (snd e))
                       EMOTION_KEYWORDS).

Definition extractKeywords (text : string) : list string :=
  matches (Str.toLowerCase text) VIRAL_KEYWORDS.

Definition generateReason (text : string) (score : Q) : string :=
  let reasons :=
    ((if Str.includes text "?" then ["Engaging question"] else []) ++
     (if Str.includes text "!" then ["High energy"] else []) ++
     (if (0 <? length (extractKeywords text))%nat then ["Viral keywords"] else []) ++
     (if (2 <? length (detectEmotions text))%nat then ["Emotional appeal"] else []))%list in
  let joined := Str.join ", " reasons in
  if String.eqb joined "" then "Interesting content" else joined.

(** [segments.slice(i, j)] for indices within the array *)
Definition slice {A} (l : list A) (i j : nat) : list A := take (j - i) (drop i l).

Definition windowText (windowSegments : list TranscriptSegment) : string :=
  Str.join " " (map seg_text windowSegments).

Section Scan.
(** The identifier supply: [uuidv4 k] is the k-th identifier drawn. *)
Variable uuidv4 : nat -> string.
Variable segments : list TranscriptSegment.
Variables minDuration maxDuration : Q.

(** The body of the inner loop once both duration tests have passed:
    [moments] is the array being filled. *)
Definition pushIfViral (moments : list ViralMoment) (i j : nat)
           (startTime endTime : Q) : list ViralMoment :=
  let windowSegments := slice segments i (j + 1) in
  let text := windowText windowSegments in
  let score := calculateViralScore text windowSegments in
  if Qlt_bool 0.5%Q score
  then (moments ++ [ {| m_id := uuidv4 (length moments);
                       m_start := startTime; m_end := endTime;
                       m_score := score; m_text := text;
                       m_reason := generateReason text score;
                       m_emotions := detectEmotions text;
                       m_keywords := extractKeywords text |} ])%list
  else moments.

(** [for (let j = ...; j < segments.length; j++)], run over the segments
    [rest] that remain from index [j] on. *)
Fixpoint innerLoop (moments : list ViralMoment) (i : nat) (startTime : Q)
         (j : nat) (rest : list TranscriptSegment) : list ViralMoment :=
  match rest with
  | [] => moments
  | sj :: rest' =>
      let endTime := seg_end sj in
      let duration := (endTime - startTime)%Q in
      if Qlt_bool duration minDuration
      then innerLoop moments i startTime (S j) rest'            (* continue *)
      else if Qlt_bool maxDuration duration
      then moments                                              (* break *)
      else innerLoop (pushIfViral moments i j startTime endTime)
                     i startTime (S j) rest'
  end.

(** [for (let i = 0; i < segments.length; i++)] over the segments from
    index [i] on; the inner loop starts at [j = i + 1]. *)
Fixpoint outerLoop (moments : list ViralMoment) (i : nat)
         (rest : list TranscriptSegment) : list ViralMoment :=
  match rest with
  | [] => moments
  | si :: rest' =>
      outerLoop (innerLoop moments i (seg_start si) (S i) rest') (S i) rest'
  end.

(** The sliding-window part of [detectViralMoments] (the Moment Scorer). *)
Definition scoreMoments : list ViralMoment := outerLoop [] 0 segments.
End Scan.

(** [moments.sort((a, b) => b.score - a.score)]: the sort of the language is
    stable, so the result is the stable arrangement by descending score.
    [insertByScore m l] puts [m], which preceded every element of [l], in
    front of the first element it does not rank below. *)
Fixpoint insertByScore (m : ViralMoment) (l : list ViralMoment) : list ViralMoment :=
  match l with
  | [] => [m]
  | x :: l' =>
      if Qlt_bool (m_score m) (m_score x)
      then x :: insertByScore m l'
      else m :: x :: l'
  end.

Definition sortByScore (l : list ViralMoment) : list ViralMoment :=
  foldr insertByScore [] l.

(** One element of the [clips] array of the ranking service's answer. *)
Record Ranking := mkRanking {
  clipNumber : Z;
  viralScore : Q;
  reason : option string
}.

(** What the [try] block of [refineWithAI] meets. *)
Inductive RankOutcome :=
| ServiceFails (e : string)      (* the request rejects: unreachable, timeout *)
| MalformedResponse (e : string) (* [JSON.parse] or a property access throws *)
| Parsed (clips : option (list Ranking)). (* [result.clips], [None] when absent *)

(** [ranking.reason || moment.reason] *)
Definition reasonOr (r : option string) (fallback : string) : string :=
  match r with
  | Some s => if String.eqb s "" then fallback else s
  | None => fallback
  end.

(** [r.clipNumber === index + 1] *)
Definition addresses (index : nat) (r : Ranking) : bool :=
  Z.eqb (clipNumber r) (Z.of_nat index + 1).

Definition applyRankings (rankings : list Ranking) (index : nat) (moment : ViralMoment)
  : ViralMoment :=
  match List.find (addresses index) rankings with
  | Some ranking =>
      {| m_id := m_id moment; m_start := m_start moment; m_end := m_end moment;
         m_score := (viralScore ranking / 10)%Q;
         m_reason := reasonOr (reason ranking) (m_reason moment);
         m_text := m_text moment; m_emotions := m_emotions moment;
         m_keywords := m_keywords moment |}
  | None => moment
  end.

Definition refineWithAI (outcome : RankOutcome) (moments : list ViralMoment)
  : list ViralMoment :=
  match outcome with
  | Parsed clips =>
      let rankings := default [] clips in
      imap (applyRankings rankings) moments
  | ServiceFails _ | MalformedResponse _ => moments     (* catch *)
  end.

(** The ranking service: its answer to the submitted candidates and
    transcript context. *)
Definition RankingService := list ViralMoment -> string -> RankOutcome.

Definition fullTextOf (segments : list TranscriptSegment) : string :=
  Str.join " " (map seg_text segments).

(** The candidates handed to the refiner. *)
Definition topMoments (uuidv4 : nat -> string) (segments : list TranscriptSegment)
           (minDuration maxDuration : Q) : list ViralMoment :=
  take 20 (sortByScore (scoreMoments uuidv4 segments minDuration maxDuration)).

Definition detectViralMoments (uuidv4 : nat -> string) (openai : RankingService)
           (segments : list TranscriptSegment) (minDuration maxDuration : Q)
  : list ViralMoment :=
  let fullText := fullTextOf segments in
  let top := topMoments uuidv4 segments minDuration maxDuration in
  let refinedMoments := refineWithAI (openai top (String.substring 0 2000 fullText)) top in
  take 10 (sortByScore refinedMoments).

(** The detector the specification compares with: the heuristic scorer
    alone, ranked and cut to the final size, with no refinement pass. *)
Definition detectHeuristicOnly (uuidv4 : nat -> string)
           (segments : list TranscriptSegment) (minDuration maxDuration : Q)
  : list ViralMoment :=
  take 10 (sortByScore (scoreMoments uuidv4 segments minDuration maxDuration)).

(** ** Subtitles ([lib/videoProcessor]) *)

Definition EMOJI_MAP : list (string * list string) :=
  [ ("excitement", ["🔥"; "⚡"; "💥"; "🚀"; "✨"]);
    ("surprise", ["😱"; "🤯"; "😮"; "👀"; "‼️"]);
    ("urgency", ["⏰"; "🚨"; "❗"; "⚠️"; "🔴"]);
    ("curiosity", ["🤔"; "💭"; "🧐"; "❓"; "🔍"]);
    ("controversy", ["💣"; "🎯"; "⛔"; "🚫"; "🔥"]);
    ("positive", ["😊"; "❤️"; "👍"; "💯"; "🎉"]);
    ("negative", ["😢"; "😤"; "💔"; "👎"; "⚠️"]) ].

Definition lookupAssoc {A} (k : string) (l : list (string * A)) : option A :=
  option_map snd (List.find (fun e => String.eqb (fst e) k) l).

(** [a % b] on numbers: the remainder of the division truncated toward zero. *)
Definition Qtrunc (q : Q) : Z := if Qlt_bool q 0%Q then Qceiling q else Qfloor q.
Definition Qrem (a b : Q) : Q := (a - b * inject_Z (Qtrunc (a / b)))%Q.

(** [String(n)] for an integer *)
Definition stringOfZ (n : Z) : string := NilZero.string_of_int (Z.to_int n).
Definition stringOfNat (n : nat) : string := stringOfZ (Z.of_nat n).

Fixpoint repeatChar (c : ascii) (n : nat) : string :=
  match n with O => "" | S n' => String c (repeatChar c n') end.

Definition padStart (width : nat) (c : ascii) (s : string) : string :=
  repeatChar c (width - String.length s) +:+ s.

Definition formatSRTTime (seconds : Q) : string :=
  let hours := Qfloor (seconds / 3600)%Q in
  let minutes := Qfloor (Qrem seconds 3600 / 60)%Q in
  let secs := Qfloor (Qrem seconds 60) in
  let milliseconds := Qfloor (Qrem seconds 1 * 1000)%Q in
  padStart 2 "0" (stringOfZ hours) +:+ ":" +:+
  padStart 2 "0" (stringOfZ minutes) +:+ ":" +:+
  padStart 2 "0" (stringOfZ secs) +:+ "," +:+
  padStart 3 "0" (stringOfZ milliseconds).

Section Subtitles.
(** [random k] is the k-th number drawn from [Math.random()]. *)
Variable random : nat -> Q.

(** The first emotion with an entry in [EMOJI_MAP] decides, and draws one
    random number; the result is paired with the new number of draws. *)
Fixpoint emojiOfEmotions (emotions : list string) (drawn : nat)
  : option (string * nat) :=
  match emotions with
  | [] => None
  | emotion :: rest =>
      match lookupAssoc emotion EMOJI_MAP with
      | Some emojis =>
          let k := Qfloor (random drawn * Qnat (length emojis))%Q in
          Some (if (k <? 0)%Z then "" else nth (Z.to_nat k) emojis "", S drawn)
      | None => emojiOfEmotions rest drawn
      end
  end.

Definition selectEmoji (text : string) (emotions : list string) (drawn : nat)
  : string * nat :=
  let lowerText := Str.toLowerCase text in
  match emojiOfEmotions emotions drawn with
  | Some r => r
  | None =>
      (if Str.includes lowerText "!" then "‼️"
       else if Str.includes lowerText "?" then "🤔"
       else if Str.includes lowerText "love" || Str.includes lowerText "great" then "❤️"
       else if Str.includes lowerText "bad" || Str.includes lowerText "hate" then "😤"
       else "", drawn)
  end.

Definition relevantSegments (segments : list TranscriptSegment) (moment : ViralMoment)
  : list TranscriptSegment :=
  List.filter (fun s => Qle_bool (m_start moment) (seg_start s)
                        && Qle_bool (seg_end s) (m_end moment)) segments.

(** The text of one cue: trimmed, with an emoji in front when one is
    selected and the coin [Math.random() > 0.5] falls that way. *)
Definition cueText (segment : TranscriptSegment) (moment : ViralMoment)
           (addEmojis : bool) (drawn : nat) : string * nat :=
  let text := Str.trim (seg_text segment) in
  if addEmojis
  then let '(emoji, drawn) := selectEmoji text (m_emotions moment) drawn in
       if String.eqb emoji "" then (text, drawn)
       else if Qlt_bool 0.5%Q (random drawn)
            then (emoji +:+ " " +:+ text, S drawn)
            else (text, S drawn)
  else (text, drawn).

Definition newline : string := String (ascii_of_nat 10) "".

(** One block of the subtitle file: its number, its interval relative to
    the start of the moment, its text. *)
Definition srtBlock (index : nat) (segment : TranscriptSegment) (moment : ViralMoment)
           (text : string) : string :=
  let startTime := formatSRTTime (seg_start segment - m_start moment)%Q in
  let endTime := formatSRTTime (seg_end segment - m_start moment)%Q in
  stringOfNat (index + 1) +:+ newline +:+
  startTime +:+ " --> " +:+ endTime +:+ newline +:+
  text +:+ newline +:+ newline.

(** [relevantSegments.forEach((segment, index) => ...)] *)
Fixpoint srtBlocks (relevant : list TranscriptSegment) (index : nat)
         (moment : ViralMoment) (addEmojis : bool) (srtContent : string)
         (drawn : nat) : string * nat :=
  match relevant with
  | [] => (srtContent, drawn)
  | segment :: rest =>
      let '(text, drawn) := cueText segment moment addEmojis drawn in
      srtBlocks rest (S index) moment addEmojis
                (srtContent +:+ srtBlock index segment moment text) drawn
  end.

Definition generateSRT (segments : list TranscriptSegment) (moment : ViralMoment)
           (addEmojis : bool) (drawn : nat) : string * nat :=
  srtBlocks (relevantSegments segments moment) 0 moment addEmojis "" drawn.
End Subtitles.

(** The subtitle track as the specification describes it: one block per
    cue, numbered from [index + 1] on. *)
Fixpoint cueBlocks (index : nat) (moment : ViralMoment)
         (cues : list (TranscriptSegment * string)) : string :=
  match cues with
  | [] => ""
  | (segment, text) :: rest =>
      srtBlock index segment moment text +:+ cueBlocks (S index) moment rest
  end.

(** ** Values, jobs and the world the routes run in *)

(** A call either returns or throws an error with a message. *)
Inductive result (A : Type) : Type :=
| Ok (a : A)
| Throw (err : string).
Arguments Ok {A} a.
Arguments Throw {A} err.

(** A value received as JSON; the keys of an object are distinct. *)
#[local] Unset Elimination Schemes.
Inductive jsval :=
| JUndefined
| JNull
| JBool (b : bool)
| JNum (q : Q)
| JStr (s : string)
| JArr (items : list jsval)
| JObj (fields : list (string * jsval)).
#[local] Set Elimination Schemes.

Definition truthy (v : jsval) : bool :=
  match v with
  | JUndefined | JNull => false
  | JBool b => b
  | JNum q => negb (Qeq_bool q 0)
  | JStr s => negb (String.eqb s "")
  | JArr _ | JObj _ => true
  end.

(** [v !== false] *)
Definition notFalse (v : jsval) : bool :=
  match v with JBool false => false | _ => true end.

(** [a || b] *)
Definition orElse (a b : jsval) : jsval := if truthy a then a else b.

(** [v.key]: a property read throws on [undefined] and [null], and finds
    nothing on the other values that are not objects. *)
Definition getProp (v : jsval) (key : string) : result jsval :=
  match v with
  | JUndefined => Throw ("Cannot read properties of undefined (reading '" +:+ key +:+ "')")
  | JNull => Throw ("Cannot read properties of null (reading '" +:+ key +:+ "')")
  | JObj fields => Ok (default JUndefined (lookupAssoc key fields))
  | _ => Ok JUndefined
  end.

Inductive Status := processing | completed | failed.

Record ProcessedClip := mkClip {
  c_id : string;
  c_videoPath : option string;
  c_thumbnailPath : option string;
  c_duration : option Q;
  c_error : option string;
  c_moment : ViralMoment;
  c_ready : bool
}.

(** A job snapshot is an object literal: every field may be missing. *)
Record ClipJob := mkClipJob {
  cj_id : option string;
  cj_status : option Status;
  cj_progress : option Z;
  cj_currentStep : option string;
  cj_totalClips : option nat;
  cj_processedClips : option nat;
  cj_result : option (list ProcessedClip);
  cj_error : option string
}.

Record IngestResult := mkIngestResult {
  r_videoPath : string;
  r_segments : list TranscriptSegment;
  r_moments : list ViralMoment;
  r_duration : Q;
  r_source : string
}.

Record IngestJob := mkIngestJob {
  j_id : option string;
  j_status : option Status;
  j_progress : option Z;
  j_currentStep : option string;
  j_result : option IngestResult;
  j_error : option string
}.

(** The calls made into [lib/videoProcessor], with their arguments. *)
Inductive Call :=
| CreateClip (videoPath outputPath : string) (startTime endTime : Q) (format : jsval)
| AddCaptionsToVideo (videoPath outputPath : string) (addEmojis : bool)
| AddZoomPanEffect (videoPath outputPath : string)
| GenerateThumbnail (videoPath outputPath : string).

(** The collaborators outside the program.  The transcoder's operations take
    the contents of their input file and return the contents of the output
    file they write, or fail and write nothing. *)
Record Tools := mkTools {
  uuidv4 : nat -> string;
  random : nat -> Q;
  cwd : string;
  crop : string -> Q -> Q -> string -> result string;
  burnSubtitles : string -> string -> result string;
  zoomPan : string -> Q -> result string;
  thumbnail : string -> Q -> result string;
  fetchTranscript : string -> result (list TranscriptSegment);
  download : string -> result string;
  extractAudio : string -> result string;
  transcribe : string -> result (list TranscriptSegment);
  probeDuration : string -> result Q;
  rank : RankingService
}.

(** Modelled from the spec: [lib/storage], which declares the two job
    registries [jobs] and [clipJobs], is not among the sources; they are
    keyed maps read with [get] and written with [set], a write replacing the
    whole entry.  The world also holds the files, the two supplies and the
    log of calls. *)
Record World := mkWorld {
  fs : gmap string string;            (* path to contents *)
  clipJobs : gmap string ClipJob;
  jobs : gmap string IngestJob;
  uuids : nat;                        (* identifiers drawn so far *)
  randoms : nat;                      (* random numbers drawn so far *)
  calls : list Call                   (* oldest first *)
}.

(** Computations that read and write the world and may throw; what was
    written before a throw stays written. *)
Definition M (A : Type) : Type := World -> result A * World.

Definition ret {A} (a : A) : M A := fun w => (Ok a, w).
Definition throw {A} (err : string) : M A := fun w => (Throw err, w).
Definition bind {A B} (m : M A) (k : A -> M B) : M B :=
  fun w => match m w with
           | (Ok a, w') => k a w'
           | (Throw e, w') => (Throw e, w')
           end.
(** [try { m } catch (error) { handler(error.message) }] *)
Definition tryCatch {A} (m : M A) (handler : string -> M A) : M A :=
  fun w => match m w with
           | (Ok a, w') => (Ok a, w')
           | (Throw e, w') => handler e w'
           end.
Definition lift {A} (r : result A) : M A := fun w => (r, w).

Declare Scope M_scope.
Delimit Scope M_scope with M.
Notation "'let*' x ':=' m 'in' k" := (bind m (fun x => k))
  (at level 10, x name, m at level 100, k at level 200) : M_scope.
Notation "'let*' ' p ':=' m 'in' k" := (bind m (fun x => let 'p := x in k))
  (at level 10, p strict pattern, m at level 100, k at level 200) : M_scope.
Notation "m ';;' k" := (bind m (fun _ => k))
  (at level 100, k at level 200, right associativity) : M_scope.
Open Scope M_scope.

Definition withFs (f : gmap string string -> gmap string string) : M unit :=
  fun w => (Ok tt, mkWorld (f (fs w)) (clipJobs w) (jobs w) (uuids w) (randoms w) (calls w)).
Definition withClipJobs (f : gmap string ClipJob -> gmap string ClipJob) : M unit :=
  fun w => (Ok tt, mkWorld (fs w) (f (clipJobs w)) (jobs w) (uuids w) (randoms w) (calls w)).
Definition withJobs (f : gmap string IngestJob -> gmap string IngestJob) : M unit :=
  fun w => (Ok tt, mkWorld (fs w) (clipJobs w) (f (jobs w)) (uuids w) (randoms w) (calls w)).
Definition record (c : Call) : M unit :=
  fun w => (Ok tt, mkWorld (fs w) (clipJobs w) (jobs w) (uuids w) (randoms w) (calls w ++ [c])).

(** [uuidv4()] *)
Definition freshId (T : Tools) : M string :=
  fun w => (Ok (uuidv4 T (uuids w)),
            mkWorld (fs w) (clipJobs w) (jobs w) (S (uuids w)) (randoms w) (calls w)).

(** *** [fs] *)

Definition noSuchFile (path : string) : string :=
  "ENOENT: no such file or directory '" +:+ path +:+ "'".

Definition readFile (path : string) : M string :=
  fun w => match fs w !! path with
           | Some c => (Ok c, w)
           | None => (Throw (noSuchFile path), w)
           end.
Definition writeFileSync (path content : string) : M unit :=
  withFs (fun f => <[path := content]> f).
Definition unlinkSync (path : string) : M unit :=
  let* _ := readFile path in withFs (fun f => delete path f).
Definition copyFileSync (src dst : string) : M unit :=
  let* c := readFile src in writeFileSync dst c.
Definition renameSync (oldPath newPath : string) : M unit :=
  let* c := readFile oldPath in
  withFs (fun f => <[newPath := c]> (delete oldPath f)).

(** [path.join(dir, name)] for a plain file name *)
Definition pathJoin (dir name : string) : string := dir +:+ "/" +:+ name.

(** *** [lib/videoProcessor] *)

Definition cropFilterOf (format : jsval) : string :=
  match format with
  | JStr "9:16" =>
      "scale=1920:1080:force_original_aspect_ratio=increase,crop=1080:1920,scale=1080:1920"
  | JStr "1:1" =>
      "scale=1080:1080:force_original_aspect_ratio=increase,crop=1080:1080"
  | _ =>
      "scale=1920:1080:force_original_aspect_ratio=decrease,pad=1920:1080:(ow-iw)/2:(oh-ih)/2"
  end.

Definition createClip (T : Tools) (videoPath outputPath : string)
           (startTime endTime : Q) (format : jsval) : M unit :=
  record (CreateClip videoPath outputPath startTime endTime format);;
  let duration := (endTime - startTime)%Q in
  let cropFilter := cropFilterOf format in
  let* input := readFile videoPath in
  let* output := lift (crop T input startTime duration cropFilter) in
  writeFileSync outputPath output.

Definition drawSRT (T : Tools) (segments : list TranscriptSegment)
           (moment : ViralMoment) (addEmojis : bool) : M string :=
  fun w => let '(srt, drawn) := generateSRT (random T) segments moment addEmojis (randoms w) in
           (Ok srt, mkWorld (fs w) (clipJobs w) (jobs w) (uuids w) drawn (calls w)).

Definition addCaptionsToVideo (T : Tools) (videoPath outputPath : string)
           (segments : list TranscriptSegment) (moment : ViralMoment)
           (addEmojis : bool) : M unit :=
  record (AddCaptionsToVideo videoPath outputPath addEmojis);;
  let srtPath := Str.replaceFirst videoPath ".mp4" ".srt" in
  let* srtContent := drawSRT T segments moment addEmojis in
  writeFileSync srtPath srtContent;;
  let* input := readFile videoPath in
  let* subtitles := readFile srtPath in
  let* output := lift (burnSubtitles T input subtitles) in
  writeFileSync outputPath output;;
  unlinkSync srtPath.

Definition addZoomPanEffect (T : Tools) (videoPath outputPath : string)
           (intensity : Q) : M unit :=
  record (AddZoomPanEffect videoPath outputPath);;
  tryCatch
    (let* input := readFile videoPath in
     let* output := lift (zoomPan T input intensity) in
     writeFileSync outputPath output)
    (fun _ => copyFileSync videoPath outputPath).

Definition generateThumbnail (T : Tools) (videoPath outputPath : string)
           (timeOffset : Q) : M unit :=
  record (GenerateThumbnail videoPath outputPath);;
  let* input := readFile videoPath in
  let* output := lift (thumbnail T input timeOffset) in
  writeFileSync outputPath output.

(** ** Clip rendering ([app/api/process/route]) *)

Definition CLIPS_DIR (T : Tools) : string := pathJoin (cwd T) "clips".

Definition emptyClipJob : ClipJob :=
  mkClipJob None None None None None None None None.

(** The snapshot written before clip [i] of [total] starts:
    [{...clipJobs.get(clipJobId), progress, currentStep, processedClips}] *)
Definition progressSnapshot (old : option ClipJob) (i total : nat) : ClipJob :=
  let o := default emptyClipJob old in
  {| cj_id := cj_id o; cj_status := cj_status o;
     cj_progress := Some (Qfloor (Qnat i / Qnat total * 100)%Q);
     cj_currentStep :=
       Some ("Processing clip " +:+ stringOfNat (i + 1) +:+ "/" +:+ stringOfNat total);
     cj_totalClips := cj_totalClips o;
     cj_processedClips := Some i;
     cj_result := cj_result o; cj_error := cj_error o |}.

Definition completedSnapshot (clipJobId : string) (total : nat)
           (clips : list ProcessedClip) : ClipJob :=
  {| cj_id := Some clipJobId; cj_status := Some completed;
     cj_progress := Some 100%Z; cj_currentStep := Some "Complete";
     cj_totalClips := Some total; cj_processedClips := Some total;
     cj_result := Some clips; cj_error := None |}.

Definition failedClipSnapshot (clipJobId err : string) : ClipJob :=
  {| cj_id := Some clipJobId; cj_status := Some failed;
     cj_progress := None; cj_currentStep := None;
     cj_totalClips := None; cj_processedClips := None;
     cj_result := None; cj_error := Some err |}.

Definition readyClip (clipId finalClipPath thumbnailPath : string)
           (moment : ViralMoment) : ProcessedClip :=
  {| c_id := clipId; c_videoPath := Some finalClipPath;
     c_thumbnailPath := Some thumbnailPath;
     c_duration := Some (m_end moment - m_start moment)%Q;
     c_error := None; c_moment := moment; c_ready := true |}.

Definition failedClip (clipId err : string) (moment : ViralMoment) : ProcessedClip :=
  {| c_id := clipId; c_videoPath := None; c_thumbnailPath := None;
     c_duration := None; c_error := Some err; c_moment := moment;
     c_ready := false |}.

Section ProcessClips.
Variable T : Tools.
Variables clipJobId videoPath : string.
Variable segments : list TranscriptSegment.
Variable total : nat.                       (* [moments.length] *)
Variable config : jsval.

(** The options read from the request's configuration. *)
Definition clipOptions : result (jsval * bool * bool * bool) :=
  match getProp config "format", getProp config "addCaptions",
        getProp config "addEmojis", getProp config "addZoomPan" with
  | Ok formatV, Ok addCaptionsV, Ok addEmojisV, Ok addZoomPanV =>
      Ok (orElse formatV (JStr "9:16"), notFalse addCaptionsV,
          notFalse addEmojisV, notFalse addZoomPanV)
  | Throw e, _, _, _ | _, Throw e, _, _ | _, _, Throw e, _ | _, _, _, Throw e =>
      Throw e
  end.

(** The stage chain for one clip. *)
Definition renderWith (clipId : string) (moment : ViralMoment) (format : jsval)
           (addCaptions addEmojis addZoomPan : bool) : M ProcessedClip :=
  (* Step 1: extract base clip *)
  let baseClipPath := pathJoin (CLIPS_DIR T) (clipId +:+ "_base.mp4") in
  createClip T videoPath baseClipPath (m_start moment) (m_end moment) format;;
  (* Step 2: add captions *)
  let* processedPath :=
    (if addCaptions
     then let captionedPath := pathJoin (CLIPS_DIR T) (clipId +:+ "_captioned.mp4") in
          addCaptionsToVideo T baseClipPath captionedPath segments moment addEmojis;;
          unlinkSync baseClipPath;;
          ret captionedPath
     else ret baseClipPath) in
  (* Step 3: add zoom/pan effect *)
  let* finalPath :=
    (if addZoomPan
     then let zoomPath := pathJoin (CLIPS_DIR T) (clipId +:+ "_final.mp4") in
          addZoomPanEffect T processedPath zoomPath 0.05%Q;;
          (if negb (String.eqb processedPath baseClipPath)
           then unlinkSync processedPath else ret tt);;
          ret zoomPath
     else ret processedPath) in
  (* rename to final name *)
  let finalClipPath := pathJoin (CLIPS_DIR T) (clipId +:+ ".mp4") in
  (if negb (String.eqb finalPath finalClipPath)
   then renameSync finalPath finalClipPath else ret tt);;
  (* generate thumbnail *)
  let thumbnailPath := pathJoin (CLIPS_DIR T) (clipId +:+ "_thumb.jpg") in
  generateThumbnail T finalClipPath thumbnailPath 1%Q;;
  ret (readyClip clipId finalClipPath thumbnailPath moment).

(** The body of the [try] block for the moment at index [i]. *)
Definition renderClip (i : nat) (moment : ViralMoment) : M ProcessedClip :=
  withClipJobs (fun cj => <[clipJobId := progressSnapshot (cj !! clipJobId) i total]> cj);;
  let* clipId := freshId T in
  let* '(format, addCaptions, addEmojis, addZoomPan) := lift clipOptions in
  renderWith clipId moment format addCaptions addEmojis addZoomPan.

(** One turn of the loop: the [try] and its [catch]. *)
Definition processOne (i : nat) (moment : ViralMoment) : M ProcessedClip :=
  tryCatch (renderClip i moment)
           (fun err => let* clipId := freshId T in ret (failedClip clipId err moment)).

(** [for (let i = 0; i < moments.length; i++)] over the moments from
    index [i] on, [clips] being the array filled so far. *)
Fixpoint clipLoop (i : nat) (rest : list ViralMoment) (clips : list ProcessedClip)
  : M (list ProcessedClip) :=
  match rest with
  | [] => ret clips
  | moment :: rest' =>
      let* clip := processOne i moment in
      clipLoop (S i) rest' (clips ++ [clip])%list
  end.
End ProcessClips.

Definition processClips (T : Tools) (clipJobId videoPath : string)
           (segments : list TranscriptSegment) (moments : list ViralMoment)
           (config : jsval) : M unit :=
  let* clips := clipLoop T clipJobId videoPath segments (length moments) config
                         0 moments [] in
  withClipJobs (fun cj =>
    <[clipJobId := completedSnapshot clipJobId (length moments) clips]> cj).

Inductive Response :=
| ErrorResponse (status : nat) (error : string)
| ClipProcessingStarted (clipJobId : string)
| ProcessingStarted (jobId : string).

Definition isArray (v : jsval) : bool :=
  match v with JArr _ => true | _ => false end.

(** [momentIds.includes(m.id)] *)
Definition includesId (momentIds : jsval) (id : string) : bool :=
  match momentIds with
  | JArr items =>
      existsb (fun v => match v with JStr s => String.eqb s id | _ => false end) items
  | _ => false
  end.

(** [jobs.get(jobId)]: the keys of the store are strings. *)
Definition getJob (w : World) (jobId : jsval) : option IngestJob :=
  match jobId with JStr s => jobs w !! s | _ => None end.

Definition statusIs (s : Status) (o : option Status) : bool :=
  match o, s with
  | Some processing, processing | Some completed, completed | Some failed, failed => true
  | _, _ => false
  end.

(** [POST] of the process route, from the parsed request body on. *)
Definition POST_process (T : Tools) (body : jsval) : M Response :=
  tryCatch
    (let* jobId := lift (getProp body "jobId") in
     let* momentIds := lift (getProp body "momentIds") in
     let* config := lift (getProp body "config") in
     if negb (truthy jobId) || negb (truthy momentIds) || negb (isArray momentIds)
     then ret (ErrorResponse 400 "jobId and momentIds array are required")
     else
       let* ingestJob := (fun w => (Ok (getJob w jobId), w)) in
       match ingestJob with
       | None => ret (ErrorResponse 400 "Invalid or incomplete job")
       | Some job =>
           if negb (statusIs completed (j_status job))
           then ret (ErrorResponse 400 "Invalid or incomplete job")
           else
             match j_result job with
             | None => throw "Cannot destructure property 'videoPath' of 'ingestJob.result' as it is undefined."
             | Some r =>
                 let selectedMoments :=
                   List.filter (fun m => includesId momentIds (m_id m)) (r_moments r) in
                 if (length selectedMoments =? 0)%nat
                 then ret (ErrorResponse 400 "No valid moments selected")
                 else
                   let* clipJobId := freshId T in
                   withClipJobs (fun cj =>
                     <[clipJobId :=
                         {| cj_id := Some clipJobId; cj_status := Some processing;
                            cj_progress := Some 0%Z;
                            cj_currentStep := Some "Preparing clips";
                            cj_totalClips := Some (length selectedMoments);
                            cj_processedClips := Some 0%nat;
                            cj_result := None; cj_error := None |}]> cj);;
                   tryCatch
                     (processClips T clipJobId (r_videoPath r) (r_segments r)
                                   selectedMoments (orElse config (JObj [])))
                     (fun err => withClipJobs (fun cj =>
                        <[clipJobId := failedClipSnapshot clipJobId err]> cj));;
                   ret (ClipProcessingStarted clipJobId)
             end
       end)
    (fun err => ret (ErrorResponse 500 err)).

(** ** Ingestion ([app/api/ingest/route]) *)

Definition UPLOADS_DIR (T : Tools) : string := pathJoin (cwd T) "uploads".
Definition TEMP_DIR (T : Tools) : string := pathJoin (cwd T) "temp".

Definition emptyJob : IngestJob := mkIngestJob None None None None None None.

(** [{...jobs.get(jobId), progress, currentStep}] *)
Definition stepSnapshot (old : option IngestJob) (progress : Z) (step : string)
  : IngestJob :=
  let o := default emptyJob old in
  {| j_id := j_id o; j_status := j_status o;
     j_progress := Some progress; j_currentStep := Some step;
     j_result := j_result o; j_error := j_error o |}.

Definition failedSnapshot (jobId err : string) : IngestJob :=
  {| j_id := Some jobId; j_status := Some failed;
     j_progress := None; j_currentStep := None;
     j_result := None; j_error := Some err |}.

Definition completedJob (jobId : string) (r : IngestResult) : IngestJob :=
  {| j_id := Some jobId; j_status := Some completed;
     j_progress := Some 100%Z; j_currentStep := Some "Complete";
     j_result := Some r; j_error := None |}.

Definition updateJob (jobId : string) (progress : Z) (step : string) : M unit :=
  withJobs (fun js => <[jobId := stepSnapshot (js !! jobId) progress step]> js).

(** *** The collaborators, as the route calls them *)

Definition getYouTubeTranscript (T : Tools) (videoId : string)
  : M (list TranscriptSegment) :=
  tryCatch (lift (fetchTranscript T videoId))
           (fun _ => throw "Failed to fetch YouTube transcript").

Definition downloadYouTubeVideo (T : Tools) (url outputPath : string) : M unit :=
  let* bytes := lift (download T url) in
  writeFileSync outputPath bytes.

Definition extractAudioFromVideo (T : Tools) (videoPath outputPath : string) : M unit :=
  let* input := readFile videoPath in
  let* output := lift (extractAudio T input) in
  writeFileSync outputPath output.

Definition transcribeVideo (T : Tools) (audioPath : string)
  : M (list TranscriptSegment) :=
  tryCatch (let* audio := readFile audioPath in lift (transcribe T audio))
           (fun e => throw ("Failed to transcribe: " +:+ e)).

Definition getVideoDuration (T : Tools) (videoPath : string) : M Q :=
  let* input := readFile videoPath in
  lift (probeDuration T input).

(** [detectViralMoments(segments)] with the default bounds; the identifiers
    of the candidates continue the world's supply. *)
Definition detectMoments (T : Tools) (segments : list TranscriptSegment)
  : M (list ViralMoment) :=
  fun w =>
    let ids := fun k => uuidv4 T (uuids w + k) in
    (Ok (detectViralMoments ids (rank T) segments 10%Q 60%Q),
     mkWorld (fs w) (clipJobs w) (jobs w)
             (uuids w + length (scoreMoments ids segments 10%Q 60%Q))
             (randoms w) (calls w)).

Definition processYouTubeVideo (T : Tools) (jobId url videoId videoPath : string)
  : M unit :=
  (* try to get the transcript first (faster) *)
  updateJob jobId 10 "Fetching transcript";;
  let* fast := tryCatch (let* s := getYouTubeTranscript T videoId in ret (Some s))
                        (fun _ => ret None) in
  let* segments :=
    match fast with
    | None =>                                          (* needsDownload *)
        updateJob jobId 20 "Downloading video";;
        downloadYouTubeVideo T url videoPath;;
        updateJob jobId 40 "Transcribing audio";;
        let audioPath := pathJoin (TEMP_DIR T) (jobId +:+ ".wav") in
        extractAudioFromVideo T videoPath audioPath;;
        let* segments := transcribeVideo T audioPath in
        unlinkSync audioPath;;
        ret segments
    | Some segments =>                                 (* still download *)
        updateJob jobId 30 "Downloading video";;
        downloadYouTubeVideo T url videoPath;;
        ret segments
    end in
  updateJob jobId 60 "Detecting viral moments";;
  let* moments := detectMoments T segments in
  let* duration := getVideoDuration T videoPath in
  withJobs (fun js =>
    <[jobId := completedJob jobId
                 (mkIngestResult videoPath segments moments duration "youtube")]> js).

(** [processYouTubeVideo(...).catch(err => jobs.set(jobId, failed))] *)
Definition runYouTubeJob (T : Tools) (jobId url videoId videoPath : string) : M unit :=
  tryCatch (processYouTubeVideo T jobId url videoId videoPath)
           (fun err => withJobs (fun js => <[jobId := failedSnapshot jobId err]> js)).

(** *** [extractYouTubeId] *)

Definition idChar (c : ascii) : bool :=
  negb (Ascii.eqb c "&" || Ascii.eqb c (ascii_of_nat 10)
        || Ascii.eqb c "?" || Ascii.eqb c "#").

Fixpoint takeIdChars (s : string) : string :=
  match s with
  | EmptyString => EmptyString
  | String c s' => if idChar c then String c (takeIdChars s') else EmptyString
  end.

Definition dropString (n : nat) (s : string) : string :=
  String.substring n (String.length s - n) s.

(** The alternatives of the pattern tried in order at one position. *)
Fixpoint matchHere (alternatives : list string) (s : string) : option string :=
  match alternatives with
  | [] => None
  | p :: rest =>
      if String.prefix p s
      then let captured := takeIdChars (dropString (String.length p) s) in
           if String.eqb captured "" then matchHere rest s else Some captured
      else matchHere rest s
  end.

Definition urlPrefixes : list string :=
  ["youtube.com/watch?v="; "youtu.be/"; "youtube.com/embed/"].

Fixpoint extractYouTubeId (url : string) : option string :=
  match matchHere urlPrefixes url with
  | Some id => Some id
  | None => match url with
            | EmptyString => None
            | String _ url' => extractYouTubeId url'
            end
  end.

(** [POST] of the ingest route for a JSON body (a remote URL), from the
    parsed body on. *)
Definition POST_ingest (T : Tools) (body : jsval) : M Response :=
  tryCatch
    (let* jobId := freshId T in
     let* url := lift (getProp body "url") in
     if negb (truthy url) then ret (ErrorResponse 400 "URL is required")
     else
       match url with
       | JStr u =>
           match extractYouTubeId u with
           | None => ret (ErrorResponse 400 "Invalid YouTube URL")
           | Some videoId =>
               let videoPath := pathJoin (UPLOADS_DIR T) (jobId +:+ ".mp4") in
               withJobs (fun js =>
                 <[jobId := {| j_id := Some jobId; j_status := Some processing;
                               j_progress := Some 0%Z;
                               j_currentStep := Some "Downloading video";
                               j_result := None; j_error := None |}]> js);;
               runYouTubeJob T jobId u videoId videoPath;;
               ret (ProcessingStarted jobId)
           end
       | _ => throw "url.match is not a function"
       end)
    (fun err => ret (ErrorResponse 500 err)).

(** [GET] of the status route. *)
Definition GET_status (jobId : string) (w : World) : option IngestJob :=
  jobs w !! jobId.

(** ** The specification's view of the scorer

    These definitions follow the words of the specification, not the loops
    of the source: the contiguous windows [(i, j)] of at least two segments,
    those whose time span lies within the bounds and whose score exceeds one
    half, and the candidate built from a window. *)

Definition windowScore (segments : list TranscriptSegment) (i j : nat) : Q :=
  let windowSegments := slice segments i (j + 1) in
  calculateViralScore (windowText windowSegments) windowSegments.

Definition qualifies (segments : list TranscriptSegment) (minDuration maxDuration : Q)
           (ij : nat * nat) : bool :=
  match segments !! ij.1, segments !! ij.2 with
  | Some si, Some sj =>
      let span := (seg_end sj - seg_start si)%Q in
      Qle_bool minDuration span && Qle_bool span maxDuration
      && Qlt_bool 0.5%Q (windowScore segments ij.1 ij.2)
  | _, _ => false
  end.

(** The pairs [i < j < n], by [i] and then by [j]. *)
Definition windowPairs (n : nat) : list (nat * nat) :=
  flat_map (fun i => map (pair i) (seq (S i) (n - S i))) (seq 0 n).

Definition specWindows (segments : list TranscriptSegment) (minDuration maxDuration : Q)
  : list (nat * nat) :=
  List.filter (qualifies segments minDuration maxDuration) (windowPairs (length segments)).

Definition momentOfWindow (segments : list TranscriptSegment) (id : string)
           (ij : nat * nat) : ViralMoment :=
  let windowSegments := slice segments ij.1 (ij.2 + 1) in
  let text := windowText windowSegments in
  let score := calculateViralScore text windowSegments in
  {| m_id := id;
     m_start := from_option seg_start 0%Q (segments !! ij.1);
     m_end := from_option seg_end 0%Q (segments !! ij.2);
     m_score := score; m_text := text;
     m_reason := generateReason text score;
     m_emotions := detectEmotions text;
     m_keywords := extractKeywords text |}.

(** The candidates of a list of windows, identified from [base] on. *)
Fixpoint momentsOfWindows (uuidv4 : nat -> string) (segments : list TranscriptSegment)
         (base : nat) (windows : list (nat * nat)) : list ViralMoment :=
  match windows with
  | [] => []
  | ij :: rest =>
      momentOfWindow segments (uuidv4 base) ij
      :: momentsOfWindows uuidv4 segments (S base) rest
  end.

(** Ordered and non-overlapping: every segment ends no earlier than it
    starts, and starts no earlier than its predecessor ends. *)
Fixpoint orderedFrom (previousEnd : Q) (segments : list TranscriptSegment) : bool :=
  match segments with
  | [] => true
  | s :: rest =>
      Qle_bool previousEnd (seg_start s) && Qle_bool (seg_start s) (seg_end s)
      && orderedFrom (seg_end s) rest
  end.

Definition ordered (segments : list TranscriptSegment) : bool :=
  match segments with
  | [] => true
  | s :: rest => Qle_bool (seg_start s) (seg_end s) && orderedFrom (seg_end s) rest
  end.

(** A candidate whose duration lies within the bounds. *)
Definition withinBounds (minDuration maxDuration : Q) (m : ViralMoment) : Prop :=
  (minDuration <= m_end m - m_start m)%Q /\ (m_end m - m_start m <= maxDuration)%Q.

(** Descending by score, and the moments of a list that carry a given score. *)
Definition descending (l : list ViralMoment) : Prop :=
  StronglySorted (fun a b => (m_score b <= m_score a)%Q) l.

Definition withScore (v : Q) (l : list ViralMoment) : list ViralMoment :=
  List.filter (fun m => Qeq_bool (m_score m) v) l.

(** The ranking service has failed when the [catch] of the refiner runs. *)
Definition rankingFailed (outcome : RankOutcome) : bool :=
  match outcome with
  | Parsed _ => false
  | ServiceFails _ | MalformedResponse _ => true
  end.

(** A computation that throws from every world. *)
Definition throws {A} (m : M A) : Prop :=
  forall w, exists e w', m w = (Throw e, w').

(** A computation that returns from every world. *)
Definition returns {A} (m : M A) : Prop :=
  forall w, exists a w', m w = (Ok a, w').

(** A computation that always returns the value [a]. *)
Definition returnsValue {A} (a : A) (m : M A) : Prop :=
  forall w, exists w', m w = (Ok a, w').

(** A computation whose returned values all satisfy [P]. *)
Definition returnsOnly {A} (P : A -> Prop) (m : M A) : Prop :=
  forall w a w', m w = (Ok a, w') -> P a.

(** The failures of the transcoder that a clip does not survive: the crop
    of this moment, the subtitle burn-in when captions are not disabled,
    the thumbnail. *)
Definition cropFails (T : Tools) (moment : ViralMoment) : Prop :=
  forall input filter, exists e,
    crop T input (m_start moment) (m_end moment - m_start moment)%Q filter = Throw e.

Definition captionFails (T : Tools) (config : jsval) : Prop :=
  getProp config "addCaptions" <> Ok (JBool false)
  /\ forall input subtitles, exists e, burnSubtitles T input subtitles = Throw e.

Definition thumbnailFails (T : Tools) : Prop :=
  forall input offset, exists e, thumbnail T input offset = Throw e.

Definition stageFails (T : Tools) (config : jsval) (moment : ViralMoment) : Prop :=
  cropFails T moment \/ captionFails T config \/ thumbnailFails T.

(** The shape of an element of the result sequence: a ready clip carries
    its paths and no error, a clip that is not ready carries an error
    message and no paths; both carry their moment. *)
Definition clipShape (moment : ViralMoment) (c : ProcessedClip) : Prop :=
  c_moment c = moment
  /\ if c_ready c
     then c_error c = None /\ is_Some (c_videoPath c) /\ is_Some (c_thumbnailPath c)
     else is_Some (c_error c) /\ c_videoPath c = None /\ c_thumbnailPath c = None.

(** The failures of the collaborators that ingestion of a remote URL does
    not survive: the download; audio extraction or transcription once the
    fast transcript was missing; the duration probe. *)
Definition ingestStageFails (T : Tools) (url videoId : string) : Prop :=
  (exists e, download T url = Throw e)
  \/ ((exists e, fetchTranscript T videoId = Throw e)
      /\ ((forall input, exists e, extractAudio T input = Throw e)
          \/ (forall audio, exists e, transcribe T audio = Throw e)))
  \/ (forall input, exists e, probeDuration T input = Throw e).

(** The files of one clip, and what the stage chain is expected to leave in
    them when every stage but the pan/zoom succeeds. *)
Definition clipFile (T : Tools) (clipId suffix : string) : string :=
  pathJoin (CLIPS_DIR T) (clipId +:+ suffix).

(** The video the pan/zoom stage receives: the captioned clip, or the base
    clip when captions are disabled. *)
Definition preEffectVideo (T : Tools) (segments : list TranscriptSegment)
           (moment : ViralMoment) (addCaptions addEmojis : bool) (drawn : nat)
           (base : string) : result string :=
  if addCaptions
  then burnSubtitles T base (fst (generateSRT (random T) segments moment addEmojis drawn))
  else Ok base.

(** The video after the pan/zoom stage: the transformed video, or the
    pre-effect video itself when the transform fails or is disabled. *)
Definition afterZoom (T : Tools) (addZoomPan : bool) (pre : string) : string :=
  if addZoomPan
  then match zoomPan T pre 0.05%Q with Ok zoomed => zoomed | Throw _ => pre end
  else pre.

Definition stageCalls (T : Tools) (videoPath clipId : string) (moment : ViralMoment)
           (format : jsval) (addCaptions addEmojis addZoomPan : bool) : list Call :=
  [CreateClip videoPath (clipFile T clipId "_base.mp4")
              (m_start moment) (m_end moment) format]
  ++ (if addCaptions
      then [AddCaptionsToVideo (clipFile T clipId "_base.mp4")
                               (clipFile T clipId "_captioned.mp4") addEmojis]
      else [])
  ++ (if addZoomPan
      then [AddZoomPanEffect
              (clipFile T clipId (if addCaptions then "_captioned.mp4" else "_base.mp4"))
              (clipFile T clipId "_final.mp4")]
      else [])
  ++ [GenerateThumbnail (clipFile T clipId ".mp4") (clipFile T clipId "_thumb.jpg")].

(** ** Sample inputs *)

Definition sampleIds (k : nat) : string := "id" +:+ stringOfNat k.

Definition sampleSegments : list TranscriptSegment :=
  [ mkSegment "why?" 0 10 None;
    mkSegment "wow!" 10 20 None;
    mkSegment "secret!" 20 30 None ].

(** One segment of thirty seconds with a high score of its own. *)
Definition loneSegment : list TranscriptSegment :=
  [ mkSegment "Why? What? How? This secret is shocking!" 0 30 None ].

(** Segments in the order of their starts, the second overlapping the
    third and outlasting it. *)
Definition overlappingSegments : list TranscriptSegment :=
  [ mkSegment "why? wow!" 0 5 None;
    mkSegment "secret!" 1 100 None;
    mkSegment "shocking truth!" 2 30 None ].

(** Two instantaneous segments at the same time. *)
Definition instantSegments : list TranscriptSegment :=
  [ mkSegment "why?" 5 5 None; mkSegment "wow! secret!" 5 5 None ].

(** A ranking service that reports seven for each of three candidates. *)
Definition allSevens : RankingService :=
  fun _ _ => Parsed (Some [mkRanking 1 7 None; mkRanking 2 7 None; mkRanking 3 7 None]).

Definition unreachable : RankingService := fun _ _ => ServiceFails "ECONNREFUSED".

Definition sampleMoment : ViralMoment :=
  mkMoment "m1" 10 30 0.66 "High energy, Viral keywords" "wow! secret!"
           ["excitement"; "controversy"] ["secret"].

Definition earlierMoment : ViralMoment :=
  mkMoment "m0" 0 20 0.61 "Engaging question, High energy" "why? wow!"
           ["excitement"; "curiosity"] [].

Definition sampleTools (zoom : string -> Q -> result string)
           (cropTool : string -> Q -> Q -> string -> result string) : Tools :=
  {| uuidv4 := sampleIds;
     random := fun _ => 0.9%Q;
     cwd := "/app";
     crop := cropTool;
     burnSubtitles := fun v srt => Ok ("captioned(" +:+ v +:+ ")");
     zoomPan := zoom;
     thumbnail := fun v _ => Ok ("thumb(" +:+ v +:+ ")");
     fetchTranscript := fun _ => Throw "no captions";
     download := fun _ => Ok "VIDEO";
     extractAudio := fun v => Ok ("audio(" +:+ v +:+ ")");
     transcribe := fun _ => Ok sampleSegments;
     probeDuration := fun _ => Ok 30%Q;
     rank := unreachable |}.

(** The sample tools with a duration probe that fails. *)
Definition probeFailsTools : Tools :=
  let T := sampleTools (fun v _ => Ok v) (fun v _ _ _ => Ok v) in
  {| uuidv4 := uuidv4 T; random := random T; cwd := cwd T; crop := crop T;
     burnSubtitles := burnSubtitles T; zoomPan := zoomPan T;
     thumbnail := thumbnail T; fetchTranscript := fetchTranscript T;
     download := download T; extractAudio := extractAudio T;
     transcribe := transcribe T;
     probeDuration := fun _ => Throw "ffprobe failed";
     rank := rank T |}.

Definition cropOk : string -> Q -> Q -> string -> result string :=
  fun v _ _ _ => Ok ("crop(" +:+ v +:+ ")").
Definition zoomOk : string -> Q -> result string :=
  fun v _ => Ok ("zoom(" +:+ v +:+ ")").
Definition zoomFails : string -> Q -> result string :=
  fun _ _ => Throw "zoompan: filter failed".
(** A crop that fails on the clips starting at second 10. *)
Definition cropFailsAt10 : string -> Q -> Q -> string -> result string :=
  fun v startTime _ _ =>
    if Qeq_bool startTime 10 then Throw "crop failed" else Ok ("crop(" +:+ v +:+ ")").

Definition emptyWorld : World := mkWorld ∅ ∅ ∅ 0 0 [].

(** A world holding an uploaded source video. *)
Definition sourceWorld : World :=
  mkWorld {[ "/app/uploads/job.mp4" := "VIDEO" ]} ∅ ∅ 0 0 [].

(** ** Download and clip status ([app/api/download/[clipId]/route],
       [app/api/clips/[jobId]/route]) *)

Inductive DownloadResponse :=
| DownloadError (status : nat) (error : string)
| DownloadVideo (body : string) (headers : list (string * string)).

Definition doubleQuote : string := String (ascii_of_nat 34) "".

(** [GET] of the download route, for a clip identifier that is a plain name. *)
Definition GET_download (T : Tools) (clipId : string) (w : World) : DownloadResponse :=
  let clipPath := pathJoin (CLIPS_DIR T) (clipId +:+ ".mp4") in
  match fs w !! clipPath with
  | None => DownloadError 404 "Clip not found"
  | Some videoBuffer =>
      DownloadVideo videoBuffer
        [ ("Content-Type", "video/mp4");
          ("Content-Disposition",
           "attachment; filename=" +:+ doubleQuote +:+ clipId +:+ ".mp4" +:+ doubleQuote);
          ("Content-Length", stringOfNat (String.length videoBuffer)) ]
  end.

(** [GET] of the clip status route. *)
Definition GET_clips (jobId : string) (w : World) : option ClipJob :=
  clipJobs w !! jobId.

(** ** Uploaded files ([app/api/ingest/route]) *)

Section Upload.
Variable T : Tools.
(** [ffmpeg -i video -ar 16000 -ac 1 audio], run on an audio upload. *)
Variable resample : string -> result string.

Definition resampleAudio (videoPath audioPath : string) : M unit :=
  let* input := readFile videoPath in
  let* output := lift (resample input) in
  writeFileSync audioPath output.

Definition processUploadedFile (jobId videoPath source : string) : M unit :=
  updateJob jobId 20 "Extracting audio";;
  let audioPath := pathJoin (TEMP_DIR T) (jobId +:+ ".wav") in
  (if String.eqb source "audio"
   then resampleAudio videoPath audioPath
   else extractAudioFromVideo T videoPath audioPath);;
  updateJob jobId 40 "Transcribing audio";;
  let* segments := transcribeVideo T audioPath in
  unlinkSync audioPath;;
  updateJob jobId 70 "Detecting viral moments";;
  let* moments := detectMoments T segments in
  let* duration :=
    (if String.eqb source "upload" then getVideoDuration T videoPath else ret 0%Q) in
  withJobs (fun js =>
    <[jobId := completedJob jobId
                 (mkIngestResult videoPath segments moments duration source)]> js).

(** [processUploadedFile(...).catch(err => jobs.set(jobId, failed))] *)
Definition runUploadJob (jobId videoPath source : string) : M unit :=
  tryCatch (processUploadedFile jobId videoPath source)
           (fun err => withJobs (fun js => <[jobId := failedSnapshot jobId err]> js)).

Definition audioExtensions : list string := [".mp3"; ".wav"; ".m4a"; ".aac"].

(** [POST] of the ingest route for a multipart body, from the parsed form
    on: [file] is the form's file (name and bytes) and [extname] is
    [path.extname]. *)
Definition POST_upload (file : option (string * string)) (extname : string -> string)
  : M Response :=
  tryCatch
    (let* jobId := freshId T in
     match file with
     | None => ret (ErrorResponse 400 "File is required")
     | Some (name, bytes) =>
         let fileExtension := Str.toLowerCase (extname name) in
         let isAudio := existsb (String.eqb fileExtension) audioExtensions in
         let source := if isAudio then "audio" else "upload" in
         let videoPath := pathJoin (UPLOADS_DIR T) (jobId +:+ fileExtension) in
         writeFileSync videoPath bytes;;
         withJobs (fun js =>
           <[jobId := {| j_id := Some jobId; j_status := Some processing;
                         j_progress := Some 0%Z;
                         j_currentStep := Some "Processing file";
                         j_result := None; j_error := None |}]> js);;
         runUploadJob jobId videoPath source;;
         ret (ProcessingStarted jobId)
     end)
    (fun err => ret (ErrorResponse 500 err)).
End Upload.

(** ** Transcript sources ([lib/transcription]) *)

(** One item of the transcript fetched for a video, in milliseconds. *)
Record TranscriptItem := mkItem {
  item_text : string;
  item_offset : Q;
  item_duration : Q
}.

(** [transcript.map(item => ...)] of [getYouTubeTranscript] *)
Definition segmentOfItem (item : TranscriptItem) : TranscriptSegment :=
  {| seg_text := item_text item;
     seg_start := (item_offset item / 1000)%Q;
     seg_end := ((item_offset item + item_duration item) / 1000)%Q;
     seg_confidence := None |}.

Definition segmentsOfTranscript (transcript : list TranscriptItem)
  : list TranscriptSegment :=
  map segmentOfItem transcript.

(** One segment of the transcription service's verbose answer. *)
Record WhisperSegment := mkWhisper {
  ws_text : string;
  ws_start : Q;
  ws_end : Q;
  ws_avg_logprob : option Q
}.

Section Transcription.
(** [Math.exp] *)
Variable exp : Q -> Q.

(** [segment.avg_logprob ? Math.exp(segment.avg_logprob) : undefined] *)
Definition confidenceOf (avg_logprob : option Q) : option Q :=
  match avg_logprob with
  | Some p => if Qeq_bool p 0 then None else Some (exp p)
  | None => None
  end.

(** The segments [transcribeVideo] builds from an answer: those of the
    answer when it has a [segments] field, and otherwise one segment with
    the whole text at time zero. *)
Definition segmentsOfResponse (text : string) (segments : option (list WhisperSegment))
  : list TranscriptSegment :=
  match segments with
  | Some l =>
      map (fun segment =>
             {| seg_text := ws_text segment; seg_start := ws_start segment;
                seg_end := ws_end segment;
                seg_confidence := confidenceOf (ws_avg_logprob segment) |}) l
  | None => [ {| seg_text := text; seg_start := 0; seg_end := 0;
                 seg_confidence := None |} ]
  end.
End Transcription.

(** Caption items that follow one another: no negative duration, and each
    item starts no earlier than the one before it ends. *)
Fixpoint sequentialFrom (previousEnd : Q) (transcript : list TranscriptItem) : bool :=
  match transcript with
  | [] => true
  | item :: rest =>
      Qle_bool previousEnd (item_offset item) && Qle_bool 0 (item_duration item)
      && sequentialFrom (item_offset item + item_duration item)%Q rest
  end.

Definition sequential (transcript : list TranscriptItem) : bool :=
  match transcript with
  | [] => true
  | item :: rest =>
      Qle_bool 0 (item_duration item)
      && sequentialFrom (item_offset item + item_duration item)%Q rest
  end.

(** ** More sample inputs *)

Definition sampleTranscript : list TranscriptItem :=
  [ mkItem "why?" 0 4000; mkItem "wow!" 4000 5500; mkItem "secret!" 10000 2500 ].

Definition plainSegments : list TranscriptSegment :=
  [ mkSegment "the weather is mild" 0 15 None;
    mkSegment "and the road is long" 15 30 None ].

(** The sample tools with a fast transcript and a transcriber that fails. *)
Definition fastTranscriptTools : Tools :=
  let T := sampleTools zoomOk cropOk in
  {| uuidv4 := uuidv4 T; random := random T; cwd := cwd T; crop := crop T;
     burnSubtitles := burnSubtitles T; zoomPan := zoomPan T;
     thumbnail := thumbnail T;
     fetchTranscript := fun _ => Ok sampleSegments;
     download := download T;
     extractAudio := fun _ => Throw "no audio stream";
     transcribe := fun _ => Throw "transcriber down";
     probeDuration := probeDuration T;
     rank := rank T |}.

(** The sample tools with a subtitle burn-in that fails. *)
Definition burnFailsTools : Tools :=
  let T := sampleTools zoomOk cropOk in
  {| uuidv4 := uuidv4 T; random := random T; cwd := cwd T; crop := crop T;
     burnSubtitles := fun _ _ => Throw "subtitles: filter failed";
     zoomPan := zoomPan T; thumbnail := thumbnail T;
     fetchTranscript := fetchTranscript T; download := download T;
     extractAudio := extractAudio T; transcribe := transcribe T;
     probeDuration := probeDuration T; rank := rank T |}.

(** A world holding a completed ingestion job with the sample moments. *)
Definition ingestedWorld : World :=
  mkWorld {[ "/app/uploads/job.mp4" := "VIDEO" ]} ∅
          {[ "job" := completedJob "job"
                        (mkIngestResult "/app/uploads/job.mp4" sampleSegments
                                        [sampleMoment; earlierMoment] 30 "youtube") ]}
          7 0 [].

(** ** More predicates *)

(** The identifiers of the candidates found so far are the first draws of
    the supply, in the order of discovery. *)
Definition idsInOrder (uuidv4 : nat -> string) (moments : list ViralMoment) : Prop :=
  map m_id moments = map uuidv4 (seq 0 (length moments)).

(** ** More sample inputs *)

(** The sample tools with a thumbnail extraction that fails. *)
Definition thumbnailFailsTools : Tools :=
  let T := sampleTools zoomOk cropOk in
  {| uuidv4 := uuidv4 T; random := random T; cwd := cwd T; crop := crop T;
     burnSubtitles := burnSubtitles T; zoomPan := zoomPan T;
     thumbnail := fun _ _ => Throw "thumbnail: no frame";
     fetchTranscript := fetchTranscript T; download := download T;
     extractAudio := extractAudio T; transcribe := transcribe T;
     probeDuration := probeDuration T; rank := rank T |}.

(** The sample tools with a transcriber that fails. *)
Definition transcriberFailsTools : Tools :=
  let T := sampleTools zoomOk cropOk in
  {| uuidv4 := uuidv4 T; random := random T; cwd := cwd T; crop := crop T;
     burnSubtitles := burnSubtitles T; zoomPan := zoomPan T;
     thumbnail := thumbnail T; fetchTranscript := fetchTranscript T;
     download := download T; extractAudio := extractAudio T;
     transcribe := fun _ => Throw "rate limited";
     probeDuration := probeDuration T; rank := rank T |}.

(** A computation that leaves the ingestion jobs as they are, whether it
    returns or throws. *)
Definition preservesJobs {A} (m : M A) : Prop :=
  forall w r w', m w = (r, w') -> jobs w' = jobs w.

(** ** The web client (the page component) *)

(** [handleMomentSelect]: the new selection after a click on a moment,
    [prev] being the selection before. *)
Definition handleMomentSelect (momentId : string) (prev : list string) : list string :=
  if existsb (String.eqb momentId) prev
  then List.filter (fun id => negb (String.eqb id momentId)) prev
  else prev ++ [momentId].

(** The configuration [handleProcessClips] sends with every request. *)
Definition clientConfig : jsval :=
  JObj [ ("format", JStr "9:16"); ("addCaptions", JBool true);
         ("addEmojis", JBool true); ("addZoomPan", JBool false) ].

(** The body of the request of [handleProcessClips], [jobId] being the
    job of the page, if any, and [selectedMoments] its selection. *)
Definition processRequest (jobId : option string) (selectedMoments : list string)
  : jsval :=
  JObj [ ("jobId", match jobId with Some id => JStr id | None => JNull end);
         ("momentIds", JArr (map JStr selectedMoments));
         ("config", clientConfig) ].

(* ===================================================================== *)
(** * Properties *)
(* ===================================================================== *)

(** ** Rational comparisons *)

Lemma Qlt_bool_true (x y : Q) : Qlt_bool x y = true <-> (x < y)%Q.
Proof.
  unfold Qlt_bool. rewrite negb_true_iff. split.
  - intros H. apply Qnot_le_lt. intros Hle.
    apply Qle_bool_iff in Hle. congruence.
  - intros H. destruct (Qle_bool y x) eqn:E; [|reflexivity].
    apply Qle_bool_iff in E. exfalso. exact (Qlt_not_le _ _ H E).
Qed.

Lemma Qlt_bool_false (x y : Q) : Qlt_bool x y = false <-> (y <= x)%Q.
Proof.
  unfold Qlt_bool. rewrite negb_false_iff. apply Qle_bool_iff.
Qed.

Lemma Qle_bool_false (x y : Q) : Qle_bool x y = false <-> (y < x)%Q.
Proof.
  rewrite <- Qlt_bool_true. unfold Qlt_bool.
  destruct (Qle_bool x y); simpl; split; congruence.
Qed.

(** ** Lists *)

Lemma filter_sublist {A} (f : A -> bool) (l : list A) :
  List.filter f l `sublist_of` l.
Proof.
  induction l as [|x l IH]; simpl; [constructor|].
  destruct (f x); by constructor.
Qed.

Lemma NoDup_pairs (g : nat -> list nat) (l : list nat) :
  NoDup l -> (forall i, NoDup (g i)) ->
  NoDup (flat_map (fun i => map (pair i) (g i)) l).
Proof.
  intros Hl Hg. induction Hl as [|a l Ha Hl IH]; simpl; [constructor|].
  apply NoDup_app. split; [|split; [|exact IH]].
  - apply NoDup_ListNoDup, Finite.Injective_map_NoDup.
    + by intros x y [= ->].
    + apply NoDup_ListNoDup, Hg.
  - intros [i k] Hin Hrest.
    apply list_elem_of_In, in_map_iff in Hin as (k' & [= <- <-] & _).
    apply list_elem_of_In, in_flat_map in Hrest as (i' & Hi' & Hin').
    apply in_map_iff in Hin' as (k'' & [= <- _] & _).
    apply Ha. by apply list_elem_of_In.
Qed.

(** ** The scorer *)

Lemma NoDup_specWindows (segments : list TranscriptSegment) (minDuration maxDuration : Q) :
  NoDup (specWindows segments minDuration maxDuration).
Proof.
  unfold specWindows, windowPairs.
  eapply sublist_NoDup; [|apply filter_sublist].
  apply NoDup_pairs; intros; apply NoDup_seq.
Qed.

Section ScorerFacts.
Variable uuidv4 : nat -> string.
Variable segments : list TranscriptSegment.
Variables minDuration maxDuration : Q.

Local Abbreviation inner := (innerLoop uuidv4 segments minDuration maxDuration).
Local Abbreviation outer := (outerLoop uuidv4 segments minDuration maxDuration).
Local Abbreviation good := (qualifies segments minDuration maxDuration).
Local Abbreviation candidates := (momentsOfWindows uuidv4 segments).

Lemma momentsOfWindows_app (l1 l2 : list (nat * nat)) (base : nat) :
  candidates base (l1 ++ l2)
  = candidates base l1 ++ candidates (base + length l1) l2.
Proof.
  revert base. induction l1 as [|w l1 IH]; intros base; simpl.
  - by rewrite Nat.add_0_r.
  - rewrite IH. do 3 f_equal. lia.
Qed.

Lemma length_momentsOfWindows (l : list (nat * nat)) (base : nat) :
  length (candidates base l) = length l.
Proof. revert base. induction l; intros; simpl; auto. Qed.

(** Pushing a candidate is adding the candidate of the window when its
    score passes. *)
Lemma pushIfViral_spec (ms : list ViralMoment) (i j : nat) (si sj : TranscriptSegment) :
  segments !! i = Some si -> segments !! j = Some sj ->
  pushIfViral uuidv4 segments ms i j (seg_start si) (seg_end sj)
  = ms ++ candidates (length ms)
            (if Qlt_bool 0.5%Q (windowScore segments i j) then [(i, j)] else []).
Proof.
  intros Hi Hj. unfold pushIfViral, windowScore.
  destruct (Qlt_bool _ _); simpl.
  - unfold momentOfWindow; simpl. by rewrite Hi, Hj.
  - by rewrite app_nil_r.
Qed.

(** Where the ends ascend, a window that is too long stays too long when
    it is extended. *)
Lemma too_long_onwards (i j : nat) (si sj : TranscriptSegment)
      (rest : list TranscriptSegment) :
  segments !! i = Some si ->
  drop j segments = sj :: rest ->
  Forall (fun s => (seg_end sj <= seg_end s)%Q) rest ->
  (maxDuration < seg_end sj - seg_start si)%Q ->
  List.filter good (map (pair i) (seq j (S (length rest)))) = [].
Proof.
  intros Hi Hdrop Hasc Hlong.
  assert (Hall : forall k, (j <= k < j + S (length rest))%nat -> good (i, k) = false).
  { intros k Hk. unfold qualifies; simpl. rewrite Hi.
    destruct (segments !! k) as [sk|] eqn:Hk'; [|done].
    assert (Hle : (seg_end sj <= seg_end sk)%Q).
    { assert (Hd : (sj :: rest) !! (k - j)%nat = Some sk).
      { rewrite <- Hdrop, lookup_drop. rewrite <- Hk'. f_equal. lia. }
      destruct (k - j)%nat as [|d] eqn:Ed.
      - simpl in Hd. injection Hd as ->. apply Qle_refl.
      - simpl in Hd. rewrite Forall_forall in Hasc. apply Hasc.
        eapply list_elem_of_lookup_2. exact Hd. }
    assert (Hfalse : Qle_bool (seg_end sk - seg_start si) maxDuration = false).
    { apply Qle_bool_false. eapply Qlt_le_trans; [exact Hlong|].
      unfold Qminus. apply Qplus_le_l. exact Hle. }
    rewrite Hfalse. by rewrite andb_false_r. }
  generalize (S (length rest)) as n, Hall. clear.
  intros n. revert j. induction n as [|n IH]; intros j Hall; simpl; [done|].
  rewrite Hall by lia. apply IH. intros k Hk. apply Hall. lia.
Qed.

Lemma drop_cons_inv (j : nat) (sj : TranscriptSegment) (rest : list TranscriptSegment) :
  drop j segments = sj :: rest ->
  segments !! j = Some sj /\ drop (S j) segments = rest.
Proof.
  intros H. split.
  - rewrite <- (Nat.add_0_r j). rewrite <- lookup_drop. by rewrite H.
  - replace (S j) with (j + 1)%nat by lia. rewrite <- drop_drop. by rewrite H.
Qed.

(** The inner loop adds the candidates of the qualifying windows that
    start at [i] and end at [j] or later. *)
Lemma innerLoop_spec (i : nat) (si : TranscriptSegment) :
  segments !! i = Some si ->
  forall (rest : list TranscriptSegment) (j : nat) (ms : list ViralMoment),
  drop j segments = rest ->
  StronglySorted (fun a b => (seg_end a <= seg_end b)%Q) rest ->
  inner ms i (seg_start si) j rest
  = ms ++ candidates (length ms)
            (List.filter good (map (pair i) (seq j (length rest)))).
Proof.
  intros Hi. induction rest as [|sj rest IH]; intros j ms Hdrop Hasc.
  - simpl. by rewrite app_nil_r.
  - apply StronglySorted_inv in Hasc as [Hasc Hhd].
    destruct (drop_cons_inv _ _ _ Hdrop) as [Hj Hdrop'].
    cbn [innerLoop length seq map List.filter].
    assert (Hq : good (i, j) =
                 Qle_bool minDuration (seg_end sj - seg_start si)
                 && Qle_bool (seg_end sj - seg_start si) maxDuration
                 && Qlt_bool 0.5%Q (windowScore segments i j)).
    { unfold qualifies; simpl. by rewrite Hi, Hj. }
    destruct (Qlt_bool (seg_end sj - seg_start si) minDuration) eqn:Hmin.
    + (* continue *)
      apply Qlt_bool_true, Qle_bool_false in Hmin.
      rewrite Hq, Hmin. simpl. by apply IH.
    + apply Qlt_bool_false, Qle_bool_iff in Hmin.
      destruct (Qlt_bool maxDuration (seg_end sj - seg_start si)) eqn:Hmax.
      * (* break *)
        apply Qlt_bool_true in Hmax.
        pose proof (too_long_onwards i j si sj rest Hi Hdrop Hhd Hmax) as Hnone.
        cbn [length seq map List.filter] in Hnone. rewrite Hnone.
        simpl. by rewrite app_nil_r.
      * apply Qlt_bool_false, Qle_bool_iff in Hmax.
        rewrite Hq, Hmin, Hmax. simpl.
        rewrite (IH (S j) _ Hdrop' Hasc).
        rewrite (pushIfViral_spec ms i j si sj Hi Hj).
        destruct (Qlt_bool 0.5%Q (windowScore segments i j)); simpl.
        -- rewrite <- app_assoc. simpl. rewrite length_app. simpl.
           do 3 f_equal. lia.
        -- by rewrite !app_nil_r.
Qed.

(** The outer loop adds the candidates of the qualifying windows that
    start at [i] or later. *)
Lemma outerLoop_spec (rest : list TranscriptSegment) :
  forall (i : nat) (ms : list ViralMoment),
  drop i segments = rest ->
  StronglySorted (fun a b => (seg_end a <= seg_end b)%Q) rest ->
  outer ms i rest
  = ms ++ candidates (length ms)
            (List.filter good
               (flat_map (fun i' => map (pair i') (seq (S i') (length segments - S i')))
                         (seq i (length rest)))).
Proof.
  induction rest as [|si rest IH]; intros i ms Hdrop Hasc.
  - simpl. by rewrite app_nil_r.
  - apply StronglySorted_inv in Hasc as [Hasc _].
    destruct (drop_cons_inv _ _ _ Hdrop) as [Hi Hdrop'].
    cbn [outerLoop length seq flat_map].
    rewrite (innerLoop_spec i si Hi rest (S i) ms Hdrop' Hasc).
    rewrite (IH (S i) _ Hdrop' Hasc).
    rewrite List.filter_app, momentsOfWindows_app, <- app_assoc.
    rewrite length_app, length_momentsOfWindows.
    replace (length rest) with (length segments - S i)%nat at 1 2
      by (rewrite <- Hdrop'; by rewrite length_drop).
    reflexivity.
Qed.

Lemma orderedFrom_ascending (l : list TranscriptSegment) :
  forall e, orderedFrom e l = true ->
  Forall (fun s => (e <= seg_end s)%Q) l
  /\ StronglySorted (fun a b => (seg_end a <= seg_end b)%Q) l.
Proof.
  induction l as [|s l IH]; intros e H; simpl in H.
  - split; constructor.
  - apply andb_true_iff in H as [H H3]. apply andb_true_iff in H as [H1 H2].
    apply Qle_bool_iff in H1, H2. destruct (IH _ H3) as [Hall Hsorted].
    assert (He : (e <= seg_end s)%Q) by (eapply Qle_trans; eassumption).
    split.
    + constructor; [exact He|].
      eapply Forall_impl; [exact Hall|]. intros x Hx. simpl in Hx.
      eapply Qle_trans; eassumption.
    + constructor; assumption.
Qed.

Lemma ordered_ascending :
  ordered segments = true ->
  StronglySorted (fun a b => (seg_end a <= seg_end b)%Q) segments.
Proof.
  unfold ordered. destruct segments as [|s l]; intros H; [constructor|].
  apply andb_true_iff in H as [_ H].
  destruct (orderedFrom_ascending l _ H). by constructor.
Qed.

Lemma scoreMoments_spec :
  ordered segments = true ->
  scoreMoments uuidv4 segments minDuration maxDuration
  = candidates 0 (specWindows segments minDuration maxDuration).
Proof.
  intros H. unfold scoreMoments, specWindows, windowPairs.
  rewrite (outerLoop_spec segments 0 [] eq_refl (ordered_ascending H)).
  reflexivity.
Qed.

Lemma in_windowPairs (n i j : nat) :
  In (i, j) (windowPairs n) <-> (i < j < n)%nat.
Proof.
  unfold windowPairs. rewrite in_flat_map. split.
  - intros (i' & Hi' & Hin). apply in_seq in Hi'.
    apply in_map_iff in Hin as (j' & Heq & Hj'). apply in_seq in Hj'.
    injection Heq as -> ->. lia.
  - intros Hij. exists i. split; [apply in_seq; lia|].
    apply in_map_iff. exists j. split; [done|]. apply in_seq. lia.
Qed.

Lemma in_specWindows (i j : nat) :
  In (i, j) (specWindows segments minDuration maxDuration) <->
  (i < j)%nat /\
  exists si sj, segments !! i = Some si /\ segments !! j = Some sj /\
    (minDuration <= seg_end sj - seg_start si)%Q /\
    (seg_end sj - seg_start si <= maxDuration)%Q /\
    (0.5 < windowScore segments i j)%Q.
Proof.
  unfold specWindows. rewrite filter_In, in_windowPairs.
  unfold qualifies; simpl. split.
  - intros [[Hij Hj] Hq]. split; [exact Hij|].
    destruct (segments !! i) as [si|]; [|done].
    destruct (segments !! j) as [sj|]; [|done].
    apply andb_true_iff in Hq as [Hq H3]. apply andb_true_iff in Hq as [H1 H2].
    exists si, sj. repeat split; try done.
    + by apply Qle_bool_iff.
    + by apply Qle_bool_iff.
    + by apply Qlt_bool_true.
  - intros (Hij & si & sj & Hi & Hj & H1 & H2 & H3). split.
    + split; [exact Hij|]. by eapply lookup_lt_Some.
    + rewrite Hi, Hj. apply Qle_bool_iff in H1, H2. apply Qlt_bool_true in H3.
      by rewrite H1, H2, H3.
Qed.

Local Abbreviation withinBounds := (withinBounds minDuration maxDuration).

(** What the loops emit lies within the bounds, ordered or not. *)
Lemma innerLoop_withinBounds (i : nat) (startTime : Q) (rest : list TranscriptSegment) :
  forall (j : nat) (ms : list ViralMoment),
  Forall withinBounds ms ->
  Forall withinBounds (inner ms i startTime j rest).
Proof.
  induction rest as [|sj rest IH]; intros j ms Hms; simpl; [done|].
  destruct (Qlt_bool (seg_end sj - startTime) minDuration) eqn:Hmin; [by apply IH|].
  destruct (Qlt_bool maxDuration (seg_end sj - startTime)) eqn:Hmax; [done|].
  apply IH. unfold pushIfViral.
  destruct (Qlt_bool 0.5 _); [|done].
  apply Forall_app. split; [done|]. constructor; [|constructor].
  split; simpl; by apply Qlt_bool_false.
Qed.

Lemma outerLoop_withinBounds (rest : list TranscriptSegment) :
  forall (i : nat) (ms : list ViralMoment),
  Forall withinBounds ms -> Forall withinBounds (outer ms i rest).
Proof.
  induction rest as [|si rest IH]; intros i ms Hms; simpl; [done|].
  apply IH. by apply innerLoop_withinBounds.
Qed.
End ScorerFacts.

Lemma positive_duration (minDuration a b : Q) :
  (0 < minDuration)%Q -> (minDuration <= b - a)%Q -> (a < b)%Q.
Proof.
  intros Hpos Hmin. apply Qlt_minus_iff.
  eapply Qlt_le_trans; [exact Hpos|exact Hmin].
Qed.




(** ** The stable descending sort *)

Lemma insertByScore_perm (m : ViralMoment) (l : list ViralMoment) :
  Permutation (insertByScore m l) (m :: l).
Proof.
  induction l as [|x l IH]; simpl; [done|].
  destruct (Qlt_bool _ _); [|done].
  rewrite IH. apply perm_swap.
Qed.

Lemma sortByScore_perm (l : list ViralMoment) : Permutation (sortByScore l) l.
Proof.
  induction l as [|m l IH]; simpl; [done|].
  rewrite insertByScore_perm. by constructor.
Qed.

Lemma length_sortByScore (l : list ViralMoment) : length (sortByScore l) = length l.
Proof. apply Permutation_length, sortByScore_perm. Qed.

Lemma insertByScore_descending (m : ViralMoment) (l : list ViralMoment) :
  descending l -> descending (insertByScore m l).
Proof.
  unfold descending. induction l as [|x l IH]; intros Hl; simpl.
  - repeat constructor.
  - apply StronglySorted_inv in Hl as [Hl Hx].
    destruct (Qlt_bool (m_score m) (m_score x)) eqn:E.
    + apply Qlt_bool_true, Qlt_le_weak in E.
      constructor; [by apply IH|].
      eapply Permutation_Forall; [symmetry; apply insertByScore_perm|].
      by constructor.
    + apply Qlt_bool_false in E.
      constructor; [by constructor|].
      constructor; [exact E|].
      eapply Forall_impl; [exact Hx|].
      intros y Hy. simpl in Hy. eapply Qle_trans; eassumption.
Qed.

Lemma sortByScore_descending (l : list ViralMoment) : descending (sortByScore l).
Proof.
  induction l as [|m l IH]; simpl; [constructor|].
  by apply insertByScore_descending.
Qed.

(** Stability: among the moments of one score the order is kept. *)
Lemma withScore_insertByScore (v : Q) (m : ViralMoment) (l : list ViralMoment) :
  withScore v (insertByScore m l) = withScore v (m :: l).
Proof.
  unfold withScore. induction l as [|x l IH]; simpl; [done|].
  destruct (Qlt_bool (m_score m) (m_score x)) eqn:E; [|done].
  simpl. rewrite IH. simpl.
  destruct (Qeq_bool (m_score m) v) eqn:Em; [|done].
  destruct (Qeq_bool (m_score x) v) eqn:Ex; [|done].
  apply Qlt_bool_true in E. apply Qeq_bool_iff in Em, Ex.
  rewrite Em, Ex in E. exfalso. exact (Qlt_irrefl _ E).
Qed.

Lemma withScore_sortByScore (v : Q) (l : list ViralMoment) :
  withScore v (sortByScore l) = withScore v l.
Proof.
  induction l as [|m l IH]; simpl; [done|].
  rewrite withScore_insertByScore. unfold withScore in *. simpl. by rewrite IH.
Qed.

(** A list that already descends is left as it is. *)
Lemma sortByScore_fixes_descending (l : list ViralMoment) :
  descending l -> sortByScore l = l.
Proof.
  unfold descending. induction l as [|m l IH]; intros Hl; simpl; [done|].
  apply StronglySorted_inv in Hl as [Hl Hm]. rewrite (IH Hl).
  destruct l as [|x l]; simpl; [done|].
  apply Forall_inv in Hm. apply Qlt_bool_false in Hm. by rewrite Hm.
Qed.

Lemma descending_take (n : nat) (l : list ViralMoment) :
  descending l -> descending (take n l).
Proof.
  unfold descending. intros Hl. rewrite <- (take_drop n l) in Hl.
  by apply StronglySorted_app_1_l in Hl.
Qed.

Lemma withScore_take_prefix (v : Q) (n : nat) (l : list ViralMoment) :
  withScore v (take n l) `prefix_of` withScore v l.
Proof.
  exists (withScore v (drop n l)). unfold withScore.
  by rewrite <- List.filter_app, take_drop.
Qed.

Lemma length_take_le {A} (n : nat) (l : list A) : (length (take n l) <= n)%nat.
Proof. rewrite length_take. lia. Qed.

(** ** The detector *)





(** ** Scores *)

Lemma Qnat_nonneg (n : nat) : (0 <= Qnat n)%Q.
Proof. unfold Qnat, Qle. simpl. lia. Qed.

Lemma weighted_nonneg (acc : Q) (n : nat) (weight : Q) :
  (0 <= acc)%Q -> (0 <= weight)%Q -> (0 <= acc + Qnat n * weight)%Q.
Proof.
  intros Hacc Hw. rewrite <- (Qplus_0_r 0).
  apply Qplus_le_compat; [exact Hacc|].
  apply Qmult_le_0_compat; [apply Qnat_nonneg|exact Hw].
Qed.

Lemma bonus_nonneg (acc bonus : Q) (b : bool) :
  (0 <= acc)%Q -> (0 <= bonus)%Q -> (0 <= if b then acc + bonus else acc)%Q.
Proof.
  intros Hacc Hb. destruct b; [|exact Hacc].
  rewrite <- (Qplus_0_r 0). by apply Qplus_le_compat.
Qed.

Lemma rawViralScore_nonneg (text : string) (segments : list TranscriptSegment) :
  (0 <= rawViralScore text segments)%Q.
Proof.
  unfold rawViralScore. cbv zeta.
  apply bonus_nonneg; [|done].
  apply bonus_nonneg; [|done].
  repeat (apply weighted_nonneg; [|done]).
  apply Qle_refl.
Qed.

Lemma Math_min_bounds (x : Q) : (0 <= x)%Q -> (0 <= Math_min x 1 <= 1)%Q.
Proof.
  intros Hx. unfold Math_min. destruct (Qlt_bool 1 x) eqn:E.
  - split; [done|apply Qle_refl].
  - apply Qlt_bool_false in E. by split.
Qed.

Lemma refined_lookup (rankings : list Ranking) (moments : list ViralMoment)
      (index : nat) (moment : ViralMoment) :
  moments !! index = Some moment ->
  imap (applyRankings rankings) moments !! index
  = Some (applyRankings rankings index moment).
Proof. intros H. by rewrite list_lookup_imap, H. Qed.

(** C4.  The heuristic score lies in [[0, 1]] for every window text and
    segment list.  When refinement succeeds, the moment at each position of
    the submitted list keeps its identifier, start, end, text, emotions and
    keywords; if the ranking service addresses the position (by its 1-based
    number) with the reported score [r], the moment's score becomes exactly
    [r / 10], and if no ranking addresses it the moment is unchanged. *)
Theorem scores_clamped_and_refined_exactly :
  (forall (text : string) (segments : list TranscriptSegment),
     (0 <= calculateViralScore text segments <= 1)%Q)
  /\ (forall (clips : option (list Ranking)) (moments : list ViralMoment)
             (index : nat) (moment : ViralMoment),
        moments !! index = Some moment ->
        exists refined,
          refineWithAI (Parsed clips) moments !! index = Some refined
          /\ m_id refined = m_id moment
          /\ m_start refined = m_start moment /\ m_end refined = m_end moment
          /\ m_text refined = m_text moment
          /\ m_emotions refined = m_emotions moment
          /\ m_keywords refined = m_keywords moment
          /\ match List.find (addresses index) (default [] clips) with
             | Some ranking => m_score refined = (viralScore ranking / 10)%Q
             | None => refined = moment
             end).
Proof.
  split.
  - intros text segments. apply Math_min_bounds, rawViralScore_nonneg.
  - intros clips moments index moment Hm.
    exists (applyRankings (default [] clips) index moment).
    split; [by apply refined_lookup|].
    unfold applyRankings.
    destruct (List.find (addresses index) (default [] clips)); simpl; done.
Qed.

Lemma scores_clamped_and_refined_exactly_witness :
  [sampleMoment] !! 0%nat = Some sampleMoment
  /\ (0 <= calculateViralScore "wow! secret!" sampleSegments <= 1)%Q
  /\ exists refined,
       refineWithAI (Parsed (Some [mkRanking 1 9 None])) [sampleMoment] !! 0%nat
       = Some refined
       /\ m_score refined = (9 / 10)%Q
       /\ m_text refined = "wow! secret!".
Proof.
  split; [reflexivity|].
  destruct scores_clamped_and_refined_exactly as [Hscore Hrefine].
  split; [apply Hscore|].
  destruct (Hrefine (Some [mkRanking 1 9 None]) [sampleMoment] 0%nat sampleMoment eq_refl)
    as (refined & Hlookup & _ & _ & _ & Htext & _ & _ & Hrank).
  exists refined. split; [exact Hlookup|]. split; [exact Hrank|exact Htext].
Defined.

(** ** Subtitles *)

Lemma append_cons (x : ascii) (a b : string) :
  String x a +:+ b = String x (a +:+ b).
Proof. reflexivity. Qed.

Lemma append_assoc (a b c : string) : (a +:+ b) +:+ c = a +:+ (b +:+ c).
Proof.
  induction a as [|x a IH]; [reflexivity|].
  by rewrite !append_cons, IH.
Qed.

Lemma append_empty_r (a : string) : a +:+ "" = a.
Proof.
  induction a as [|x a IH]; [reflexivity|].
  by rewrite append_cons, IH.
Qed.

Lemma srtBlocks_spec (random : nat -> Q) (moment : ViralMoment) (addEmojis : bool)
      (relevant : list TranscriptSegment) :
  forall (index : nat) (srtContent : string) (drawn : nat),
  exists cues,
    map fst cues = relevant
    /\ fst (srtBlocks random relevant index moment addEmojis srtContent drawn)
       = srtContent +:+ cueBlocks index moment cues.
Proof.
  induction relevant as [|segment rest IH]; intros index srtContent drawn.
  - exists []. split; [done|]. simpl. by rewrite append_empty_r.
  - cbn [srtBlocks].
    destruct (cueText random segment moment addEmojis drawn) as [text drawn'].
    destruct (IH (S index) (srtContent +:+ srtBlock index segment moment text) drawn')
      as (cues & Hcues & Hsrt).
    exists ((segment, text) :: cues). split; [simpl; by rewrite Hcues|].
    rewrite Hsrt. cbn [cueBlocks]. by rewrite append_assoc.
Qed.



(** ** Computations *)

Lemma bind_ok {A B} (m : M A) (k : A -> M B) (w w1 : World) (a : A) :
  m w = (Ok a, w1) -> bind m k w = k a w1.
Proof. intros H. unfold bind. by rewrite H. Qed.

Lemma bind_throw {A B} (m : M A) (k : A -> M B) (w w1 : World) (e : string) :
  m w = (Throw e, w1) -> bind m k w = (Throw e, w1).
Proof. intros H. unfold bind. by rewrite H. Qed.

Lemma throws_bind_l {A B} (m : M A) (k : A -> M B) : throws m -> throws (bind m k).
Proof.
  intros Hm w. destruct (Hm w) as (e & w' & H).
  exists e, w'. by apply bind_throw.
Qed.

Lemma throws_bind_r {A B} (m : M A) (k : A -> M B) :
  (forall a, throws (k a)) -> throws (bind m k).
Proof.
  intros Hk w. unfold bind. destruct (m w) as [[a|e] w1]; [apply Hk|eauto].
Qed.

Lemma throws_bind_value {A B} (m : M A) (k : A -> M B) (a : A) :
  returnsValue a m -> throws (k a) -> throws (bind m k).
Proof.
  intros Hm Hk w. destruct (Hm w) as (w1 & H).
  rewrite (bind_ok _ _ _ _ _ H). apply Hk.
Qed.

Lemma throws_lift {A} (r : result A) (e : string) : r = Throw e -> throws (lift r).
Proof. intros -> w. unfold lift. eauto. Qed.

Lemma throws_tryCatch {A} (m : M A) (handler : string -> M A) :
  (forall e, throws (handler e)) -> throws m -> throws (tryCatch m handler).
Proof.
  intros Hh Hm w. unfold tryCatch. destruct (Hm w) as (e & w1 & ->). apply Hh.
Qed.

Lemma returnsOnly_bind {A B} (P : B -> Prop) (m : M A) (k : A -> M B) :
  (forall a, returnsOnly P (k a)) -> returnsOnly P (bind m k).
Proof.
  intros Hk w b w'. unfold bind. destruct (m w) as [[a|e] w1]; [apply Hk|done].
Qed.

Lemma returnsOnly_ret {A} (P : A -> Prop) (a : A) : P a -> returnsOnly P (ret a).
Proof. intros H w b w' [= <- _]. exact H. Qed.

(** ** Clip rendering *)

Section ClipFacts.
Variable T : Tools.
Variables clipJobId videoPath : string.
Variable segments : list TranscriptSegment.
Variable total : nat.
Variable config : jsval.

Local Abbreviation render := (renderClip T clipJobId videoPath segments total config).
Local Abbreviation one := (processOne T clipJobId videoPath segments total config).
Local Abbreviation loop := (clipLoop T clipJobId videoPath segments total config).

Lemma generateThumbnail_throws (src dst : string) (offset : Q) :
  thumbnailFails T -> throws (generateThumbnail T src dst offset).
Proof.
  intros Hfail. unfold generateThumbnail.
  apply throws_bind_r; intros _. apply throws_bind_r; intros input.
  apply throws_bind_l. destruct (Hfail input offset) as [e He].
  by eapply throws_lift.
Qed.

Lemma createClip_throws (dst : string) (moment : ViralMoment) (format : jsval) :
  cropFails T moment ->
  throws (createClip T videoPath dst (m_start moment) (m_end moment) format).
Proof.
  intros Hfail. unfold createClip.
  apply throws_bind_r; intros _. apply throws_bind_r; intros input.
  apply throws_bind_l. destruct (Hfail input (cropFilterOf format)) as [e He].
  by eapply throws_lift.
Qed.

Lemma addCaptionsToVideo_throws (src dst : string) (moment : ViralMoment)
      (addEmojis : bool) :
  (forall input subtitles, exists e, burnSubtitles T input subtitles = Throw e) ->
  throws (addCaptionsToVideo T src dst segments moment addEmojis).
Proof.
  intros Hfail. unfold addCaptionsToVideo.
  apply throws_bind_r; intros _. apply throws_bind_r; intros srt.
  apply throws_bind_r; intros _. apply throws_bind_r; intros input.
  apply throws_bind_r; intros subtitles.
  apply throws_bind_l. destruct (Hfail input subtitles) as [e He].
  by eapply throws_lift.
Qed.

(** A failing stage makes the body of the [try] throw. *)
Lemma renderClip_throws (i : nat) (moment : ViralMoment) :
  stageFails T config moment -> throws (render i moment).
Proof.
  intros Hfail. unfold renderClip.
  apply throws_bind_r; intros _. apply throws_bind_r; intros clipId.
  unfold clipOptions.
  destruct (getProp config "format") as [formatV|e] eqn:Ef;
    [|apply throws_bind_l; by eapply throws_lift].
  destruct (getProp config "addCaptions") as [captionsV|e] eqn:Ec;
    [|apply throws_bind_l; by eapply throws_lift].
  destruct (getProp config "addEmojis") as [emojisV|e] eqn:Ee;
    [|apply throws_bind_l; by eapply throws_lift].
  destruct (getProp config "addZoomPan") as [zoomV|e] eqn:Ez;
    [|apply throws_bind_l; by eapply throws_lift].
  eapply throws_bind_value; [intros w; unfold lift; eauto|].
  unfold renderWith.
  destruct Hfail as [Hcrop|[[Hon Hburn]|Hthumb]].
  - apply throws_bind_l. by apply createClip_throws.
  - apply throws_bind_r; intros _. apply throws_bind_l.
    assert (notFalse captionsV = true) as ->.
    { destruct captionsV as [| |[|]| | | |]; try reflexivity.
      by destruct Hon. }
    apply throws_bind_l. by apply addCaptionsToVideo_throws.
  - apply throws_bind_r; intros _. apply throws_bind_r; intros processedPath.
    apply throws_bind_r; intros finalPath. apply throws_bind_r; intros _.
    apply throws_bind_l. by apply generateThumbnail_throws.
Qed.

(** What the body of the [try] returns is a ready clip of its moment. *)
Lemma renderClip_returns_ready (i : nat) (moment : ViralMoment) :
  returnsOnly (fun c => clipShape moment c /\ c_ready c = true) (render i moment).
Proof.
  unfold renderClip.
  apply returnsOnly_bind; intros _. apply returnsOnly_bind; intros clipId.
  apply returnsOnly_bind; intros [[[format addCaptions] addEmojis] addZoomPan].
  unfold renderWith.
  do 5 (apply returnsOnly_bind; intros ?).
  apply returnsOnly_ret. unfold clipShape, readyClip; simpl. eauto 10.
Qed.

(** One turn of the loop always returns a clip of its moment; the clip
    is not ready, and carries the error, when the body threw. *)
Lemma processOne_returns (i : nat) (moment : ViralMoment) (w : World) :
  exists c w',
    one i moment w = (Ok c, w')
    /\ clipShape moment c
    /\ (forall e w1, render i moment w = (Throw e, w1) ->
                     c_ready c = false /\ c_error c = Some e).
Proof.
  unfold processOne, tryCatch.
  destruct (render i moment w) as [[c|e] w1] eqn:E.
  - exists c, w1. split; [done|]. split; [|done].
    by destruct (renderClip_returns_ready i moment w c w1 E).
  - eexists _, _. split; [unfold bind, freshId, ret; simpl; reflexivity|].
    split.
    + unfold clipShape, failedClip; simpl. eauto.
    + intros e' w1' [= <- <-]. done.
Qed.

Lemma clipLoop_returns (rest : list ViralMoment) :
  forall (i : nat) (clips : list ProcessedClip) (w : World),
  exists new w',
    loop i rest clips w = (Ok (clips ++ new), w')
    /\ Forall2 clipShape rest new
    /\ (forall k moment, rest !! k = Some moment -> stageFails T config moment ->
          exists c, new !! k = Some c /\ c_ready c = false /\ is_Some (c_error c)).
Proof.
  induction rest as [|moment rest IH]; intros i clips w.
  - exists [], w. split; [simpl; unfold ret; by rewrite app_nil_r|].
    split; [constructor|]. intros k m Hk. done.
  - destruct (processOne_returns i moment w) as (c & w1 & Hone & Hshape & Hthrow).
    destruct (IH (S i) (clips ++ [c]) w1) as (new & w' & Hloop & Hshapes & Hfails).
    exists (c :: new), w'. split; [|split].
    + cbn [clipLoop]. rewrite (bind_ok _ _ _ _ _ Hone), Hloop.
      by rewrite <- app_assoc.
    + by constructor.
    + intros [|k] m Hk Hfail; simpl in *.
      * injection Hk as ->. exists c. split; [done|].
        destruct (renderClip_throws i m Hfail w) as (e & w2 & Hr).
        destruct (Hthrow e w2 Hr) as [Hready Herr]. rewrite Herr. eauto.
      * exact (Hfails k m Hk Hfail).
Qed.
End ClipFacts.



(** ** Ingestion *)

Section IngestFacts.
Variable T : Tools.
Variables jobId url videoId videoPath : string.

Local Abbreviation process := (processYouTubeVideo T jobId url videoId videoPath).
Local Abbreviation run := (runYouTubeJob T jobId url videoId videoPath).

Lemma downloadYouTubeVideo_throws (dst : string) :
  (exists e, download T url = Throw e) -> throws (downloadYouTubeVideo T url dst).
Proof.
  intros [e He]. unfold downloadYouTubeVideo.
  apply throws_bind_l. by eapply throws_lift.
Qed.

Lemma getVideoDuration_throws (path : string) :
  (forall input, exists e, probeDuration T input = Throw e) ->
  throws (getVideoDuration T path).
Proof.
  intros Hfail. unfold getVideoDuration. apply throws_bind_r; intros input.
  destruct (Hfail input) as [e He]. by eapply throws_lift.
Qed.

Lemma extractAudioFromVideo_throws (src dst : string) :
  (forall input, exists e, extractAudio T input = Throw e) ->
  throws (extractAudioFromVideo T src dst).
Proof.
  intros Hfail. unfold extractAudioFromVideo. apply throws_bind_r; intros input.
  apply throws_bind_l. destruct (Hfail input) as [e He]. by eapply throws_lift.
Qed.

Lemma transcribeVideo_throws (audioPath : string) :
  (forall audio, exists e, transcribe T audio = Throw e) ->
  throws (transcribeVideo T audioPath).
Proof.
  intros Hfail. unfold transcribeVideo. apply throws_tryCatch.
  - intros e w. unfold throw. eauto.
  - apply throws_bind_r; intros audio.
    destruct (Hfail audio) as [e He]. by eapply throws_lift.
Qed.

(** A failed fast-transcript fetch is absorbed: it only selects the
    download-and-transcribe path. *)
Lemma fast_transcript_failure_absorbed :
  (exists e, fetchTranscript T videoId = Throw e) ->
  returnsValue None
    (tryCatch (let* s := getYouTubeTranscript T videoId in ret (Some s))
              (fun _ => ret None)).
Proof.
  intros [e He] w. unfold tryCatch, bind, getYouTubeTranscript, tryCatch, lift, throw, ret.
  rewrite He. eauto.
Qed.

(** A failing stage makes [processYouTubeVideo] throw. *)
Lemma processYouTubeVideo_throws :
  ingestStageFails T url videoId -> throws process.
Proof.
  intros Hfail. unfold processYouTubeVideo.
  apply throws_bind_r; intros _.
  destruct Hfail as [Hdl|[[Hfast Hslow]|Hprobe]].
  - apply throws_bind_r; intros fast. apply throws_bind_l.
    destruct fast as [segments|];
      apply throws_bind_r; intros _; apply throws_bind_l;
      by apply downloadYouTubeVideo_throws.
  - eapply throws_bind_value; [by apply fast_transcript_failure_absorbed|].
    apply throws_bind_l.
    apply throws_bind_r; intros _. apply throws_bind_r; intros _.
    apply throws_bind_r; intros _.
    destruct Hslow as [Hextract|Htranscribe].
    + apply throws_bind_l. by apply extractAudioFromVideo_throws.
    + apply throws_bind_r; intros _. apply throws_bind_l.
      by apply transcribeVideo_throws.
  - apply throws_bind_r; intros fast. apply throws_bind_r; intros segments.
    apply throws_bind_r; intros _. apply throws_bind_r; intros moments.
    apply throws_bind_l. by apply getVideoDuration_throws.
Qed.

(** Whatever [processYouTubeVideo] throws, the handler attached by the
    route replaces the job's entry by the failed snapshot. *)
Lemma runYouTubeJob_on_throw (w w1 : World) (e : string) :
  process w = (Throw e, w1) ->
  exists w', run w = (Ok tt, w')
             /\ jobs w' !! jobId = Some (failedSnapshot jobId e).
Proof.
  intros H. unfold runYouTubeJob, tryCatch. rewrite H.
  eexists. split; [reflexivity|]. simpl. by rewrite lookup_insert_eq.
Qed.
End IngestFacts.

(** C8.  If a stage of the ingestion of a remote URL throws after the job
    was created (the download, the audio extraction or the transcription on
    the path taken when the fast transcript is missing, the duration probe),
    and more generally whenever [processYouTubeVideo] throws, the job's
    store entry is replaced by a snapshot with status [failed] and the
    error message, which carries no result, progress or step; a failure of
    the fast-transcript fetch alone is absorbed. *)
Theorem ingestion_failure_leaves_failed_snapshot
        (T : Tools) (jobId url videoId videoPath : string) (w : World) :
  (forall e w1,
      processYouTubeVideo T jobId url videoId videoPath w = (Throw e, w1) ->
      exists w', runYouTubeJob T jobId url videoId videoPath w = (Ok tt, w')
                 /\ jobs w' !! jobId
                    = Some {| j_id := Some jobId; j_status := Some failed;
                              j_progress := None; j_currentStep := None;
                              j_result := None; j_error := Some e |})
  /\ (ingestStageFails T url videoId ->
      exists e w', runYouTubeJob T jobId url videoId videoPath w = (Ok tt, w')
                   /\ jobs w' !! jobId
                      = Some {| j_id := Some jobId; j_status := Some failed;
                                j_progress := None; j_currentStep := None;
                                j_result := None; j_error := Some e |}).
Proof.
  split.
  - intros e w1 H. by eapply runYouTubeJob_on_throw.
  - intros Hfail.
    destruct (processYouTubeVideo_throws T jobId url videoId videoPath Hfail w)
      as (e & w1 & H).
    exists e. by eapply runYouTubeJob_on_throw.
Qed.

Lemma ingestion_failure_leaves_failed_snapshot_witness :
  ingestStageFails probeFailsTools "https://youtu.be/abc" "abc"
  /\ (exists w1, processYouTubeVideo probeFailsTools "job" "https://youtu.be/abc" "abc"
                                     "/app/uploads/job.mp4" emptyWorld
                 = (Throw "ffprobe failed", w1))
  /\ (exists w', runYouTubeJob probeFailsTools "job" "https://youtu.be/abc" "abc"
                               "/app/uploads/job.mp4" emptyWorld = (Ok tt, w')
                 /\ jobs w' !! "job" = Some (failedSnapshot "job" "ffprobe failed"))
  /\ (exists e w', runYouTubeJob probeFailsTools "job" "https://youtu.be/abc" "abc"
                                 "/app/uploads/job.mp4" emptyWorld = (Ok tt, w')
                   /\ jobs w' !! "job" = Some (failedSnapshot "job" e)).
Proof.
  assert (Hfail : ingestStageFails probeFailsTools "https://youtu.be/abc" "abc").
  { right. right. intros input. eexists. reflexivity. }
  assert (Hthrow : exists w1,
             processYouTubeVideo probeFailsTools "job" "https://youtu.be/abc" "abc"
                                 "/app/uploads/job.mp4" emptyWorld
             = (Throw "ffprobe failed", w1)).
  { clear Hfail. eexists. vm_compute. reflexivity. }
  destruct (ingestion_failure_leaves_failed_snapshot
              probeFailsTools "job" "https://youtu.be/abc" "abc"
              "/app/uploads/job.mp4" emptyWorld) as [Hany Hstage].
  split; [exact Hfail|]. split; [exact Hthrow|]. split.
  - destruct Hthrow as [w1 Hw1]. exact (Hany _ _ Hw1).
  - exact (Hstage Hfail).
Defined.

(** The same at the route: a request whose duration probe fails is answered
    with a job identifier, and the job is then found failed, without
    result; when only the fast transcript is missing the job completes. *)
Example POST_ingest_probe_failure :
  let '(response, w') :=
    POST_ingest probeFailsTools (JObj [("url", JStr "https://youtu.be/abc")]) emptyWorld in
  response = Ok (ProcessingStarted "id0")
  /\ GET_status "id0" w' = Some (failedSnapshot "id0" "ffprobe failed").
Proof. vm_compute. split; reflexivity. Qed.

Example POST_ingest_fast_transcript_missing :
  let '(response, w') :=
    POST_ingest (sampleTools zoomOk cropOk)
                (JObj [("url", JStr "https://youtu.be/abc")]) emptyWorld in
  response = Ok (ProcessingStarted "id0")
  /\ (j_status <$> GET_status "id0" w') = Some (Some completed)
  /\ (j_error <$> GET_status "id0" w') = Some None.
Proof. vm_compute. repeat split; reflexivity. Qed.

(** ** Paths *)

Lemma length_append (a b : string) :
  String.length (a +:+ b) = (String.length a + String.length b)%nat.
Proof.
  induction a as [|x a IH]; [reflexivity|].
  rewrite append_cons. simpl. by rewrite IH.
Qed.

Lemma clipPath_inj (dir id s1 s2 : string) :
  pathJoin dir (id +:+ s1) = pathJoin dir (id +:+ s2) -> s1 = s2.
Proof.
  unfold pathJoin. intros H.
  apply (inj (String.app dir)) in H. apply (inj (String.app "/")) in H.
  by apply (inj (String.app id)) in H.
Qed.

Lemma prefix_length (p s : string) :
  String.prefix p s = true -> (String.length p <= String.length s)%nat.
Proof.
  revert s. induction p as [|x p IH]; intros s H; simpl; [lia|].
  destruct s as [|y s]; simpl in H; [discriminate|].
  destruct (ascii_dec x y); [|discriminate]. apply IH in H. simpl. lia.
Qed.

Lemma length_substring_all (n : nat) (s : string) :
  (n <= String.length s)%nat ->
  String.length (String.substring n (String.length s - n) s) = (String.length s - n)%nat.
Proof.
  revert n. induction s as [|x s IH]; intros n Hn; simpl in *.
  - by destruct n.
  - destruct n as [|n]; simpl.
    + f_equal. specialize (IH 0%nat). rewrite Nat.sub_0_r in IH. apply IH. lia.
    + apply IH. lia.
Qed.

Lemma length_replaceFirst (s pat by_ : string) :
  String.length pat = String.length by_ ->
  String.length (Str.replaceFirst s pat by_) = String.length s.
Proof.
  intros Hlen. induction s as [|x s IH].
  - cbn [Str.replaceFirst]. destruct (String.prefix pat "") eqn:E; [|reflexivity].
    apply prefix_length in E. rewrite length_append.
    destruct pat; simpl in *; [|lia]. by rewrite <- Hlen.
  - cbn [Str.replaceFirst]. destruct (String.prefix pat (String x s)) eqn:E.
    + pose proof (prefix_length _ _ E) as Hle.
      rewrite length_append, length_substring_all by exact Hle. lia.
    + simpl. by rewrite IH.
Qed.

Lemma replaceFirst_changes (s : string) :
  Str.includes s ".mp4" = true -> Str.replaceFirst s ".mp4" ".srt" <> s.
Proof.
  induction s as [|x s IH]; intros Hinc.
  - discriminate.
  - cbn [Str.replaceFirst Str.includes] in *.
    destruct (String.prefix ".mp4" (String x s)) eqn:E.
    + rewrite append_cons. intros Heq.
      injection Heq; intros Htail Hhead. subst x.
      apply prefix_correct in E. simpl in E.
      destruct s as [|y s]; [discriminate E|].
      injection E; intros _ Hy. subst y.
      rewrite append_cons in Htail. discriminate Htail.
    + intros Heq. injection Heq; intros Htail. by apply IH.
Qed.

Lemma includes_append (a pat : string) : Str.includes (a +:+ pat) pat = true.
Proof.
  induction a as [|x a IH].
  - change ("" +:+ pat) with pat. destruct pat as [|y pat]; [reflexivity|].
    cbn [Str.includes].
    assert (String.prefix (String y pat) (String y pat) = true) as ->; [|done].
    apply prefix_correct. clear. generalize (String y pat). intros s.
    induction s as [|z s IH]; simpl; [done|]. by rewrite IH.
  - rewrite append_cons. cbn [Str.includes]. rewrite IH.
    by destruct (String.prefix pat (String x (a +:+ pat))).
Qed.

(** ** The stages, run *)

Section StageFacts.
Variable T : Tools.
Variables (f : gmap string string) (cj : gmap string ClipJob) (j : gmap string IngestJob).
Variables (u r : nat) (c : list Call).

Lemma unlinkSync_run (path v : string) :
  f !! path = Some v ->
  unlinkSync path (mkWorld f cj j u r c) = (Ok tt, mkWorld (delete path f) cj j u r c).
Proof. intros H. unfold unlinkSync, bind, readFile, withFs; simpl. by rewrite H. Qed.

Lemma renameSync_run (oldPath newPath v : string) :
  f !! oldPath = Some v ->
  renameSync oldPath newPath (mkWorld f cj j u r c)
  = (Ok tt, mkWorld (<[newPath := v]> (delete oldPath f)) cj j u r c).
Proof. intros H. unfold renameSync, bind, readFile, withFs; simpl. by rewrite H. Qed.

Lemma createClip_run (videoPath outputPath : string) (s e : Q) (format : jsval)
      (src base : string) :
  f !! videoPath = Some src ->
  crop T src s (e - s)%Q (cropFilterOf format) = Ok base ->
  createClip T videoPath outputPath s e format (mkWorld f cj j u r c)
  = (Ok tt, mkWorld (<[outputPath := base]> f) cj j u r
                    (c ++ [CreateClip videoPath outputPath s e format])).
Proof.
  intros Hsrc Hcrop.
  unfold createClip, bind, record, readFile, lift, writeFileSync, withFs; simpl.
  by rewrite Hsrc, Hcrop.
Qed.

Lemma addCaptionsToVideo_run (videoPath outputPath : string)
      (segments : list TranscriptSegment) (moment : ViralMoment) (addEmojis : bool)
      (v pre : string) :
  let srtPath := Str.replaceFirst videoPath ".mp4" ".srt" in
  let gen := generateSRT (random T) segments moment addEmojis r in
  f !! videoPath = Some v ->
  srtPath <> videoPath ->
  burnSubtitles T v (fst gen) = Ok pre ->
  addCaptionsToVideo T videoPath outputPath segments moment addEmojis
                     (mkWorld f cj j u r c)
  = (Ok tt, mkWorld (delete srtPath (<[outputPath := pre]> (<[srtPath := fst gen]> f)))
                    cj j u (snd gen)
                    (c ++ [AddCaptionsToVideo videoPath outputPath addEmojis])).
Proof.
  intros srtPath gen Hv Hne Hburn.
  unfold addCaptionsToVideo, bind, record, drawSRT, readFile, lift, writeFileSync,
    unlinkSync, bind, readFile, withFs; simpl.
  fold srtPath. fold gen. destruct gen as [srt drawn] eqn:Egen; simpl in *.
  rewrite lookup_insert_ne by done. rewrite Hv. simpl.
  rewrite lookup_insert_eq. simpl. rewrite Hburn. simpl.
  destruct (decide (outputPath = srtPath)) as [->|Hout].
  - by rewrite lookup_insert_eq.
  - rewrite lookup_insert_ne by done. by rewrite lookup_insert_eq.
Qed.

Lemma addZoomPanEffect_run (videoPath outputPath : string) (intensity : Q) (v : string) :
  f !! videoPath = Some v ->
  addZoomPanEffect T videoPath outputPath intensity (mkWorld f cj j u r c)
  = (Ok tt,
     mkWorld (<[outputPath := match zoomPan T v intensity with
                              | Ok zoomed => zoomed
                              | Throw _ => v
                              end]> f)
             cj j u r (c ++ [AddZoomPanEffect videoPath outputPath])).
Proof.
  intros Hv.
  unfold addZoomPanEffect, tryCatch, bind, record, copyFileSync, bind, readFile, lift,
    writeFileSync, withFs; simpl.
  rewrite Hv. destruct (zoomPan T v intensity); simpl; [done|]. by rewrite Hv.
Qed.

Lemma generateThumbnail_run (videoPath outputPath : string) (offset : Q) (v th : string) :
  f !! videoPath = Some v ->
  thumbnail T v offset = Ok th ->
  generateThumbnail T videoPath outputPath offset (mkWorld f cj j u r c)
  = (Ok tt, mkWorld (<[outputPath := th]> f) cj j u r
                    (c ++ [GenerateThumbnail videoPath outputPath])).
Proof.
  intros Hv Hth.
  unfold generateThumbnail, bind, record, readFile, lift, writeFileSync, withFs; simpl.
  by rewrite Hv, Hth.
Qed.
End StageFacts.

Lemma bind_assoc {A B C} (m : M A) (k : A -> M B) (h : B -> M C) (w : World) :
  bind (bind m k) h w = bind m (fun a => bind (k a) h) w.
Proof. unfold bind. by destruct (m w) as [[a|e] w1]. Qed.

Lemma ret_bind {A B} (a : A) (k : A -> M B) (w : World) : bind (ret a) k w = k a w.
Proof. reflexivity. Qed.

Section ClipFiles.
Variable T : Tools.
Variable clipId : string.

Lemma clipFile_neq (s1 s2 : string) :
  s1 <> s2 -> clipFile T clipId s1 <> clipFile T clipId s2.
Proof. intros Hne Heq. by apply clipPath_inj in Heq. Qed.

Lemma length_clipFile (suffix : string) :
  String.length (clipFile T clipId suffix)
  = (String.length (CLIPS_DIR T) + 1 + String.length clipId + String.length suffix)%nat.
Proof.
  unfold clipFile, pathJoin. rewrite !length_append. simpl. lia.
Qed.

Lemma srtPath_neq_base :
  Str.replaceFirst (clipFile T clipId "_base.mp4") ".mp4" ".srt"
  <> clipFile T clipId "_base.mp4".
Proof.
  apply replaceFirst_changes.
  replace (clipFile T clipId "_base.mp4")
    with ((CLIPS_DIR T +:+ "/" +:+ clipId +:+ "_base") +:+ ".mp4").
  - apply includes_append.
  - unfold clipFile, pathJoin. by rewrite !append_assoc.
Qed.

Lemma srtPath_neq_captioned :
  Str.replaceFirst (clipFile T clipId "_base.mp4") ".mp4" ".srt"
  <> clipFile T clipId "_captioned.mp4".
Proof.
  intros Heq. apply (f_equal String.length) in Heq.
  rewrite length_replaceFirst, !length_clipFile in Heq by reflexivity.
  simpl in Heq. lia.
Qed.
End ClipFiles.

Ltac distinct_paths :=
  first [ exact (srtPath_neq_base _ _)
        | exact (srtPath_neq_captioned _ _)
        | exact (not_eq_sym (srtPath_neq_base _ _))
        | exact (not_eq_sym (srtPath_neq_captioned _ _))
        | apply clipFile_neq; discriminate ].

Ltac lookup_file :=
  repeat first [ rewrite lookup_insert_eq
               | rewrite lookup_delete_eq
               | rewrite lookup_insert_ne by distinct_paths
               | rewrite lookup_delete_ne by distinct_paths ];
  first [ reflexivity | eassumption ].

Ltac run_stage :=
  first [ rewrite bind_assoc
        | rewrite ret_bind
        | rewrite String.eqb_refl; cbn [negb]
        | rewrite (proj2 (String.eqb_neq _ _)) by distinct_paths; cbn [negb]
        | erewrite bind_ok by (eapply createClip_run; eassumption)
        | erewrite bind_ok
            by (eapply addCaptionsToVideo_run; [lookup_file|distinct_paths|eassumption])
        | erewrite bind_ok by (eapply unlinkSync_run; lookup_file)
        | erewrite bind_ok by (eapply addZoomPanEffect_run; lookup_file)
        | erewrite bind_ok by (eapply renameSync_run; lookup_file)
        | erewrite bind_ok by (eapply generateThumbnail_run; [lookup_file|eassumption]) ].

Section RenderFacts.
Variable T : Tools.
Variable videoPath : string.
Variable segments : list TranscriptSegment.

Lemma renderWith_run (clipId : string) (moment : ViralMoment) (format : jsval)
      (addCaptions addEmojis addZoomPan : bool) (w : World) (src base pre th : string) :
  fs w !! videoPath = Some src ->
  crop T src (m_start moment) (m_end moment - m_start moment)%Q (cropFilterOf format)
  = Ok base ->
  preEffectVideo T segments moment addCaptions addEmojis (randoms w) base = Ok pre ->
  thumbnail T (afterZoom T addZoomPan pre) 1%Q = Ok th ->
  exists w',
    renderWith T videoPath segments clipId moment format addCaptions addEmojis addZoomPan w
    = (Ok (readyClip clipId (clipFile T clipId ".mp4") (clipFile T clipId "_thumb.jpg")
                     moment), w')
    /\ fs w' !! clipFile T clipId ".mp4" = Some (afterZoom T addZoomPan pre)
    /\ fs w' !! clipFile T clipId "_thumb.jpg" = Some th
    /\ fs w' !! clipFile T clipId "_base.mp4"
       = (if addCaptions then None else if addZoomPan then Some base else None)
    /\ calls w'
       = calls w ++ stageCalls T videoPath clipId moment format
                               addCaptions addEmojis addZoomPan.
Proof.
  destruct w as [f cj j u r c]. cbn [fs randoms calls].
  intros Hsrc Hcrop Hpre Hth.
  unfold renderWith. fold (clipFile T clipId "_base.mp4").
  fold (clipFile T clipId "_captioned.mp4"). fold (clipFile T clipId "_final.mp4").
  fold (clipFile T clipId ".mp4"). fold (clipFile T clipId "_thumb.jpg").
  run_stage.
  destruct addCaptions, addZoomPan; unfold preEffectVideo, afterZoom in *;
    try (injection Hpre as <-);
    repeat run_stage;
    (eexists; split; [reflexivity|]);
    cbn [fs calls]; unfold stageCalls;
    (split; [lookup_file|]); (split; [lookup_file|]); (split; [lookup_file|]);
    by rewrite <- ?app_assoc.
Qed.
End RenderFacts.

Section RouteFacts.
Variable T : Tools.
Variables clipJobId videoPath : string.
Variable segments : list TranscriptSegment.
Variable total : nat.
Variable config : jsval.

(** One turn of the loop when every stage but the pan/zoom succeeds. *)
Lemma processOne_run (i : nat) (moment : ViralMoment) (w : World) (format : jsval)
      (addCaptions addEmojis addZoomPan : bool) (src base pre th : string) :
  let clipId := uuidv4 T (uuids w) in
  clipOptions config = Ok (format, addCaptions, addEmojis, addZoomPan) ->
  fs w !! videoPath = Some src ->
  crop T src (m_start moment) (m_end moment - m_start moment)%Q (cropFilterOf format)
  = Ok base ->
  preEffectVideo T segments moment addCaptions addEmojis (randoms w) base = Ok pre ->
  thumbnail T (afterZoom T addZoomPan pre) 1%Q = Ok th ->
  exists w',
    processOne T clipJobId videoPath segments total config i moment w
    = (Ok (readyClip clipId (clipFile T clipId ".mp4") (clipFile T clipId "_thumb.jpg")
                     moment), w')
    /\ fs w' !! clipFile T clipId ".mp4" = Some (afterZoom T addZoomPan pre)
    /\ fs w' !! clipFile T clipId "_thumb.jpg" = Some th
    /\ fs w' !! clipFile T clipId "_base.mp4"
       = (if addCaptions then None else if addZoomPan then Some base else None)
    /\ calls w'
       = calls w ++ stageCalls T videoPath clipId moment format
                               addCaptions addEmojis addZoomPan.
Proof.
  intros clipId Hopts Hsrc Hcrop Hpre Hth.
  destruct w as [f cj j u r c]. cbn [fs randoms calls uuids] in *.
  destruct (renderWith_run T videoPath segments clipId moment format
              addCaptions addEmojis addZoomPan
              (mkWorld f (<[clipJobId := progressSnapshot (cj !! clipJobId) i total]> cj)
                       j (S u) r c)
              src base pre th Hsrc Hcrop Hpre Hth)
    as (w' & Hrun & Hfacts).
  exists w'. split; [|exact Hfacts].
  unfold processOne, tryCatch, renderClip.
  unfold bind at 1. unfold withClipJobs at 1. cbn [fs clipJobs jobs uuids randoms calls].
  unfold bind at 1. unfold freshId at 1. cbn [fs clipJobs jobs uuids randoms calls].
  unfold bind at 1. unfold lift at 1. rewrite Hopts.
  fold clipId. by rewrite Hrun.
Qed.
End RouteFacts.

(** C6.  When the pan/zoom transform fails, the pan/zoom stage still
    returns, and its output file holds the very contents of its input file;
    and a clip whose crop, caption (if enabled) and thumbnail stages succeed
    but whose pan/zoom fails is delivered with [ready = true], its final
    video being byte for byte the pre-effect video. *)
Theorem zoom_failure_keeps_clip
        (T : Tools) (clipJobId videoPath : string) (segments : list TranscriptSegment)
        (total : nat) (config : jsval) (i : nat) (moment : ViralMoment) (w : World)
        (format : jsval) (addCaptions addEmojis : bool) (src base pre th e : string) :
  let clipId := uuidv4 T (uuids w) in
  clipOptions config = Ok (format, addCaptions, addEmojis, true) ->
  fs w !! videoPath = Some src ->
  crop T src (m_start moment) (m_end moment - m_start moment)%Q (cropFilterOf format)
  = Ok base ->
  preEffectVideo T segments moment addCaptions addEmojis (randoms w) base = Ok pre ->
  zoomPan T pre 0.05%Q = Throw e ->
  thumbnail T pre 1%Q = Ok th ->
  (forall (w0 : World) (input output : string),
      fs w0 !! input = Some pre ->
      exists w1, addZoomPanEffect T input output 0.05%Q w0 = (Ok tt, w1)
                 /\ fs w1 !! output = Some pre)
  /\ exists c w',
       processOne T clipJobId videoPath segments total config i moment w = (Ok c, w')
       /\ c_ready c = true
       /\ c_error c = None
       /\ c_moment c = moment
       /\ c_videoPath c = Some (clipFile T clipId ".mp4")
       /\ fs w' !! clipFile T clipId ".mp4" = Some pre.
Proof.
  intros clipId Hopts Hsrc Hcrop Hpre Hzoom Hth. split.
  - intros [f cj j u r c] input output Hin. cbn [fs] in Hin.
    eexists. split; [by apply addZoomPanEffect_run|].
    cbn [fs]. by rewrite lookup_insert_eq, Hzoom.
  - assert (Hafter : afterZoom T true pre = pre).
    { unfold afterZoom. by rewrite Hzoom. }
    destruct (processOne_run T clipJobId videoPath segments total config i moment w
                format addCaptions addEmojis true src base pre th
                Hopts Hsrc Hcrop Hpre)
      as (w' & Hrun & Hfinal & _); [by rewrite Hafter|].
    rewrite Hafter in Hfinal.
    eexists _, w'. split; [exact Hrun|]. by repeat split.
Qed.

Lemma zoom_failure_keeps_clip_witness :
  let T := sampleTools zoomFails cropOk in
  clipOptions (JObj []) = Ok (JStr "9:16", true, true, true)
  /\ fs sourceWorld !! "/app/uploads/job.mp4" = Some "VIDEO"
  /\ zoomPan T "captioned(crop(VIDEO))" 0.05%Q = Throw "zoompan: filter failed"
  /\ exists c w',
       processOne T "job" "/app/uploads/job.mp4" sampleSegments 1 (JObj []) 0
                  sampleMoment sourceWorld = (Ok c, w')
       /\ c_ready c = true
       /\ fs w' !! clipFile T "id0" ".mp4" = Some "captioned(crop(VIDEO))".
Proof.
  intros T.
  assert (Hsrc : fs sourceWorld !! "/app/uploads/job.mp4" = Some "VIDEO")
    by (vm_compute; reflexivity).
  split; [reflexivity|]. split; [exact Hsrc|]. split; [reflexivity|].
  destruct (zoom_failure_keeps_clip
              T "job" "/app/uploads/job.mp4" sampleSegments 1 (JObj []) 0
              sampleMoment sourceWorld (JStr "9:16") true true
              "VIDEO" "crop(VIDEO)" "captioned(crop(VIDEO))"
              "thumb(captioned(crop(VIDEO)))" "zoompan: filter failed"
              eq_refl Hsrc eq_refl eq_refl eq_refl eq_refl)
    as [_ (c & w' & Hrun & Hready & _ & _ & _ & Hfile)].
  exists c, w'. split; [exact Hrun|]. split; [exact Hready|exact Hfile].
Defined.

(** C9 (the code at the failing input).  With captions disabled and
    pan/zoom enabled, a clip whose stages all succeed is delivered ready,
    and its base clip is still on disk afterwards, next to the final video
    and the thumbnail: the pan/zoom stage consumes the base clip but does
    not delete it. *)
Theorem base_clip_survives_without_captions
        (T : Tools) (clipJobId videoPath : string) (segments : list TranscriptSegment)
        (total : nat) (config : jsval) (i : nat) (moment : ViralMoment) (w : World)
        (format : jsval) (addEmojis : bool) (src base th : string) :
  let clipId := uuidv4 T (uuids w) in
  clipOptions config = Ok (format, false, addEmojis, true) ->
  fs w !! videoPath = Some src ->
  crop T src (m_start moment) (m_end moment - m_start moment)%Q (cropFilterOf format)
  = Ok base ->
  thumbnail T (afterZoom T true base) 1%Q = Ok th ->
  exists c w',
    processOne T clipJobId videoPath segments total config i moment w = (Ok c, w')
    /\ c_ready c = true
    /\ fs w' !! clipFile T clipId ".mp4" = Some (afterZoom T true base)
    /\ fs w' !! clipFile T clipId "_thumb.jpg" = Some th
    /\ fs w' !! clipFile T clipId "_base.mp4" = Some base.
Proof.
  intros clipId Hopts Hsrc Hcrop Hth.
  destruct (processOne_run T clipJobId videoPath segments total config i moment w
              format false addEmojis true src base base th
              Hopts Hsrc Hcrop eq_refl Hth)
    as (w' & Hrun & Hfinal & Hthumb & Hbase & _).
  eexists _, w'. split; [exact Hrun|]. by repeat split.
Qed.

Lemma base_clip_survives_without_captions_witness :
  let T := sampleTools zoomOk cropOk in
  let config := JObj [("addCaptions", JBool false)] in
  clipOptions config = Ok (JStr "9:16", false, true, true)
  /\ fs sourceWorld !! "/app/uploads/job.mp4" = Some "VIDEO"
  /\ exists c w',
       processOne T "job" "/app/uploads/job.mp4" sampleSegments 1 config 0
                  sampleMoment sourceWorld = (Ok c, w')
       /\ c_ready c = true
       /\ fs w' !! clipFile T "id0" ".mp4" = Some (afterZoom T true "crop(VIDEO)")
       /\ fs w' !! clipFile T "id0" "_base.mp4" = Some "crop(VIDEO)".
Proof.
  intros T config.
  assert (Hsrc : fs sourceWorld !! "/app/uploads/job.mp4" = Some "VIDEO")
    by (vm_compute; reflexivity).
  split; [reflexivity|]. split; [exact Hsrc|].
  destruct (base_clip_survives_without_captions
              T "job" "/app/uploads/job.mp4" sampleSegments 1 config 0
              sampleMoment sourceWorld (JStr "9:16") true
              "VIDEO" "crop(VIDEO)" "thumb(zoom(crop(VIDEO)))"
              eq_refl Hsrc eq_refl eq_refl)
    as (c & w' & Hrun & Hready & Hfinal & _ & Hbase).
  exists c, w'. split; [exact Hrun|]. split; [exact Hready|]. by split.
Defined.

(** The files a whole run leaves behind: without captions the base clip
    stays, with captions it is gone. *)
Example files_left_by_processClips :
  let T := sampleTools zoomOk cropOk in
  (map fst (map_to_list (fs (snd
     (processClips T "job" "/app/uploads/job.mp4" sampleSegments [sampleMoment]
                   (JObj [("addCaptions", JBool false)]) sourceWorld))))
   ≡ₚ ["/app/uploads/job.mp4"; "/app/clips/id0_base.mp4"; "/app/clips/id0.mp4";
       "/app/clips/id0_thumb.jpg"])
  /\ (map fst (map_to_list (fs (snd
        (processClips T "job" "/app/uploads/job.mp4" sampleSegments [sampleMoment]
                      (JObj []) sourceWorld))))
      ≡ₚ ["/app/uploads/job.mp4"; "/app/clips/id0.mp4"; "/app/clips/id0_thumb.jpg"]).
Proof.
  split; vm_compute; apply (bool_decide_unpack _); vm_compute; exact I.
Qed.

(** ** Configuration defaults *)

Lemma notFalse_false_iff (v : jsval) : notFalse v = false <-> v = JBool false.
Proof.
  split; [|by intros ->].
  destruct v as [| |[|]| | | |]; simpl; intros H; done.
Qed.

Lemma clipOptions_object (fields : list (string * jsval)) :
  let field := fun key => default JUndefined (lookupAssoc key fields) in
  clipOptions (JObj fields)
  = Ok (orElse (field "format") (JStr "9:16"), notFalse (field "addCaptions"),
        notFalse (field "addEmojis"), notFalse (field "addZoomPan")).
Proof. reflexivity. Qed.

(** C10.  Each of the flags [addCaptions], [addEmojis] and [addZoomPan] of
    a clip-render request is disabled by the literal [false] alone: absent,
    or with any other value, it counts as enabled; the format is ['9:16']
    when absent.  A request without configuration therefore gets the format
    ['9:16'] and all three flags enabled, and a clip whose stages succeed is
    taken through the crop, the caption burn-in with emojis, the pan/zoom
    and the thumbnail, in this order. *)
Theorem clip_options_default_to_enabled :
  (forall v : jsval, notFalse v = false <-> v = JBool false)
  /\ notFalse JUndefined = true
  /\ orElse JUndefined (JStr "9:16") = JStr "9:16"
  /\ (forall fields : list (string * jsval),
        let field := fun key => default JUndefined (lookupAssoc key fields) in
        clipOptions (JObj fields)
        = Ok (orElse (field "format") (JStr "9:16"), notFalse (field "addCaptions"),
              notFalse (field "addEmojis"), notFalse (field "addZoomPan")))
  /\ clipOptions (orElse JUndefined (JObj [])) = Ok (JStr "9:16", true, true, true)
  /\ (forall (T : Tools) (clipJobId videoPath : string)
             (segments : list TranscriptSegment) (total i : nat)
             (moment : ViralMoment) (w : World) (src base pre th : string),
        let clipId := uuidv4 T (uuids w) in
        fs w !! videoPath = Some src ->
        crop T src (m_start moment) (m_end moment - m_start moment)%Q
             (cropFilterOf (JStr "9:16")) = Ok base ->
        burnSubtitles T base
          (fst (generateSRT (random T) segments moment true (randoms w))) = Ok pre ->
        thumbnail T (afterZoom T true pre) 1%Q = Ok th ->
        exists c w',
          processOne T clipJobId videoPath segments total
                     (orElse JUndefined (JObj [])) i moment w = (Ok c, w')
          /\ c_ready c = true
          /\ calls w'
             = calls w ++
               [ CreateClip videoPath (clipFile T clipId "_base.mp4")
                            (m_start moment) (m_end moment) (JStr "9:16");
                 AddCaptionsToVideo (clipFile T clipId "_base.mp4")
                                    (clipFile T clipId "_captioned.mp4") true;
                 AddZoomPanEffect (clipFile T clipId "_captioned.mp4")
                                  (clipFile T clipId "_final.mp4");
                 GenerateThumbnail (clipFile T clipId ".mp4")
                                   (clipFile T clipId "_thumb.jpg") ]).
Proof.
  split; [exact notFalse_false_iff|].
  split; [reflexivity|]. split; [reflexivity|].
  split; [exact clipOptions_object|]. split; [reflexivity|].
  intros T clipJobId videoPath segments total i moment w src base pre th clipId
         Hsrc Hcrop Hburn Hth.
  destruct (processOne_run T clipJobId videoPath segments total
              (orElse JUndefined (JObj [])) i moment w
              (JStr "9:16") true true true src base pre th
              eq_refl Hsrc Hcrop Hburn Hth)
    as (w' & Hrun & _ & _ & _ & Hcalls).
  eexists _, w'. split; [exact Hrun|]. split; [reflexivity|exact Hcalls].
Qed.

Lemma clip_options_default_to_enabled_witness :
  let T := sampleTools zoomOk cropOk in
  fs sourceWorld !! "/app/uploads/job.mp4" = Some "VIDEO"
  /\ notFalse (JStr "no") = true
  /\ exists c w',
       processOne T "job" "/app/uploads/job.mp4" sampleSegments 1
                  (orElse JUndefined (JObj [])) 0 sampleMoment sourceWorld = (Ok c, w')
       /\ c_ready c = true
       /\ calls w'
          = [ CreateClip "/app/uploads/job.mp4" (clipFile T "id0" "_base.mp4")
                         10 30 (JStr "9:16");
              AddCaptionsToVideo (clipFile T "id0" "_base.mp4")
                                 (clipFile T "id0" "_captioned.mp4") true;
              AddZoomPanEffect (clipFile T "id0" "_captioned.mp4")
                               (clipFile T "id0" "_final.mp4");
              GenerateThumbnail (clipFile T "id0" ".mp4")
                                (clipFile T "id0" "_thumb.jpg") ].
Proof.
  intros T.
  assert (Hsrc : fs sourceWorld !! "/app/uploads/job.mp4" = Some "VIDEO")
    by (vm_compute; reflexivity).
  destruct clip_options_default_to_enabled as (Hflag & _ & _ & _ & _ & Hrun).
  split; [exact Hsrc|]. split.
  - destruct (notFalse (JStr "no")) eqn:E; [reflexivity|].
    apply Hflag in E. discriminate E.
  - exact (Hrun T "job" "/app/uploads/job.mp4" sampleSegments 1%nat 0%nat
                sampleMoment sourceWorld "VIDEO" "crop(VIDEO)"
                "captioned(crop(VIDEO))" "thumb(zoom(captioned(crop(VIDEO))))"
                Hsrc eq_refl eq_refl eq_refl).
Defined.

(** The same at the route: a request without [config] is answered with a
    clip job, and the clip went through all four stages. *)
Example POST_process_without_config :
  let T := sampleTools zoomOk cropOk in
  let ingested := snd (POST_ingest T (JObj [("url", JStr "https://youtu.be/abc")])
                                   emptyWorld) in
  let '(response, w') :=
    POST_process T (JObj [("jobId", JStr "id0"); ("momentIds", JArr [JStr "id3"])])
                 ingested in
  response = Ok (ClipProcessingStarted "id4")
  /\ calls w'
     = [ CreateClip "/app/uploads/id0.mp4" "/app/clips/id5_base.mp4" 10 30 (JStr "9:16");
         AddCaptionsToVideo "/app/clips/id5_base.mp4" "/app/clips/id5_captioned.mp4" true;
         AddZoomPanEffect "/app/clips/id5_captioned.mp4" "/app/clips/id5_final.mp4";
         GenerateThumbnail "/app/clips/id5.mp4" "/app/clips/id5_thumb.jpg" ].
Proof. vm_compute. split; reflexivity. Qed.

(* ===================================================================== *)
(** * Further properties of the code *)
(* ===================================================================== *)

(** ** More on the detector *)

Lemma existsb_filter_nil {A} (f : A -> bool) (l : list A) :
  List.filter f l = [] -> existsb f l = false.
Proof.
  induction l as [|x l IH]; simpl; [done|].
  destruct (f x); [discriminate|exact IH].
Qed.

Lemma filter_nil_existsb {A} (f : A -> bool) (l : list A) :
  existsb f l = false -> List.filter f l = [].
Proof.
  induction l as [|x l IH]; simpl; [done|].
  destruct (f x); [discriminate|exact IH].
Qed.

Lemma emotionCount_zero (lowerText : string) (lexicons : list (string * list string)) :
  List.filter (fun e => existsb (fun kw => Str.includes lowerText kw) (snd e)) lexicons
  = [] ->
  forall acc : nat,
  fold_left (fun count kws => (count + length (matches lowerText kws))%nat)
            (map snd lexicons) acc = acc.
Proof.
  induction lexicons as [|[emotion kws] rest IH]; intros H acc; [reflexivity|].
  cbn [List.filter snd] in H.
  destruct (existsb (fun kw => Str.includes lowerText kw) kws) eqn:E; [discriminate H|].
  cbn [map snd fold_left]. rewrite (IH H).
  unfold matches. rewrite (filter_nil_existsb _ _ E). simpl. lia.
Qed.

Lemma extractKeywords_eq (text : string) :
  extractKeywords text = matches (Str.toLowerCase text) VIRAL_KEYWORDS.
Proof. reflexivity. Qed.

Lemma detectEmotions_eq (text : string) :
  detectEmotions text
  = map fst (List.filter
               (fun e => existsb (fun kw => Str.includes (Str.toLowerCase text) kw) (snd e))
               EMOTION_KEYWORDS).
Proof. reflexivity. Qed.

(** The score formula on counters that are all zero: only the two flat
    bonuses remain. *)
Lemma score_without_signals (k e q x : nat) (punchy varied : bool) :
  k = 0%nat -> e = 0%nat -> q = 0%nat -> x = 0%nat ->
  (let score := (0 + Qnat k * 0.1 + Qnat e * 0.08 + Qnat q * 0.15 + Qnat x * 0.1)%Q in
   let score := if punchy then (score + 0.2)%Q else score in
   let score := if varied then (score + 0.15)%Q else score in
   score <= 0.35)%Q.
Proof.
  intros -> -> -> ->.
  destruct punchy, varied; apply (proj1 (Qle_bool_iff _ _)); vm_compute; reflexivity.
Qed.

Lemma plain_rawViralScore (text : string) (segments : list TranscriptSegment) :
  extractKeywords text = [] ->
  detectEmotions text = [] ->
  Str.countChar "?" text = 0%nat ->
  Str.countChar "!" text = 0%nat ->
  (rawViralScore text segments <= 0.35)%Q.
Proof.
  intros Hkw Hemo Hq Hx.
  assert (Hk : length (matches (Str.toLowerCase text) VIRAL_KEYWORDS) = 0%nat).
  { rewrite extractKeywords_eq in Hkw. by rewrite Hkw. }
  assert (He : fold_left
                 (fun count kws =>
                    (count + length (matches (Str.toLowerCase text) kws))%nat)
                 (map snd EMOTION_KEYWORDS) 0%nat = 0%nat).
  { rewrite detectEmotions_eq in Hemo. apply map_eq_nil in Hemo.
    exact (emotionCount_zero _ _ Hemo 0%nat). }
  exact (score_without_signals _ _ _ _ (isPunchy segments)
           ((3 <=? length (sentences text)) && (length (sentences text) <=? 8))%nat
           Hk He Hq Hx).
Qed.

(** X1.  A window whose text holds no term of the keyword lexicon, no term
    of the emotion lexicons, no question mark and no exclamation mark scores
    at most 0.35 and is never a candidate. *)
Theorem plain_text_never_qualifies
        (text : string) (segments : list TranscriptSegment) :
  extractKeywords text = [] ->
  detectEmotions text = [] ->
  Str.countChar "?" text = 0%nat ->
  Str.countChar "!" text = 0%nat ->
  (calculateViralScore text segments <= 0.35)%Q
  /\ Qlt_bool 0.5 (calculateViralScore text segments) = false.
Proof.
  intros Hkw Hemo Hq Hx.
  pose proof (plain_rawViralScore text segments Hkw Hemo Hq Hx) as Hraw.
  assert (Hscore : (calculateViralScore text segments <= 0.35)%Q).
  { unfold calculateViralScore, Math_min.
    destruct (Qlt_bool 1 (rawViralScore text segments)) eqn:E; [|exact Hraw].
    apply Qlt_bool_true in E. exfalso.
    apply (Qlt_not_le _ _ E). eapply Qle_trans; [exact Hraw|].
    apply (proj1 (Qle_bool_iff _ _)); vm_compute; reflexivity. }
  split; [exact Hscore|].
  apply Qlt_bool_false. eapply Qle_trans; [exact Hscore|].
  apply (proj1 (Qle_bool_iff _ _)); vm_compute; reflexivity.
Qed.

Lemma plain_text_never_qualifies_witness :
  extractKeywords "the weather is mild and the road is long" = []
  /\ detectEmotions "the weather is mild and the road is long" = []
  /\ Qlt_bool 0.5 (calculateViralScore "the weather is mild and the road is long"
                                       plainSegments) = false.
Proof.
  assert (Hkw : extractKeywords "the weather is mild and the road is long" = [])
    by (vm_compute; reflexivity).
  assert (Hemo : detectEmotions "the weather is mild and the road is long" = [])
    by (vm_compute; reflexivity).
  assert (Hq : Str.countChar "?" "the weather is mild and the road is long" = 0%nat)
    by (vm_compute; reflexivity).
  assert (Hx : Str.countChar "!" "the weather is mild and the road is long" = 0%nat)
    by (vm_compute; reflexivity).
  split; [exact Hkw|]. split; [exact Hemo|].
  exact (proj2 (plain_text_never_qualifies
                  "the weather is mild and the road is long" plainSegments
                  Hkw Hemo Hq Hx)).
Defined.

(** The reason formula, on what the four tests return. *)
Lemma reason_cases (question exclamation : bool) (keywords emotions : list string) :
  let reasons :=
    ((if question then ["Engaging question"] else []) ++
     (if exclamation then ["High energy"] else []) ++
     (if (0 <? length keywords)%nat then ["Viral keywords"] else []) ++
     (if (2 <? length emotions)%nat then ["Emotional appeal"] else []))%list in
  let joined := Str.join ", " reasons in
  let reason := if String.eqb joined "" then "Interesting content" else joined in
  reason <> ""
  /\ (reason = "Interesting content" <->
      question = false /\ exclamation = false
      /\ keywords = [] /\ (length emotions <= 2)%nat).
Proof.
  cbv zeta.
  destruct (2 <? length emotions)%nat eqn:E;
    [apply Nat.ltb_lt in E|apply Nat.ltb_ge in E];
    destruct question, exclamation, keywords as [|kw kws];
    cbn [length Nat.ltb Nat.leb];
    (split; [vm_compute; discriminate|]);
    (split; [vm_compute; intros H; first [discriminate H | repeat split; (done || lia)]
            | intros (H1 & H2 & H3 & H4); first [discriminate | lia | reflexivity]]).
Qed.

(** X2.  The reason attached to a candidate is never empty, and it is the
    generic clause exactly when none of the four heuristics fired: no
    question mark, no exclamation mark, no keyword of the lexicon, and at
    most two emotions. *)
Theorem reason_never_empty (text : string) (score : Q) :
  generateReason text score <> ""
  /\ (generateReason text score = "Interesting content" <->
      Str.includes text "?" = false /\ Str.includes text "!" = false
      /\ extractKeywords text = [] /\ (length (detectEmotions text) <= 2)%nat).
Proof.
  exact (reason_cases (Str.includes text "?") (Str.includes text "!")
                      (extractKeywords text) (detectEmotions text)).
Qed.

(** Without candidates there is nothing to rank and nothing to return. *)
Lemma detect_nothing_without_candidates
      (uuidv4 : nat -> string) (openai : RankingService)
      (segments : list TranscriptSegment) (minDuration maxDuration : Q) :
  scoreMoments uuidv4 segments minDuration maxDuration = [] ->
  detectViralMoments uuidv4 openai segments minDuration maxDuration = [].
Proof.
  intros Hnone. unfold detectViralMoments, topMoments. rewrite Hnone. simpl.
  by destruct (openai _ _) as [e|e|[clips|]].
Qed.

(** A window needs two segments. *)
Lemma scoreMoments_short
      (uuidv4 : nat -> string) (segments : list TranscriptSegment)
      (minDuration maxDuration : Q) :
  (length segments <= 1)%nat ->
  scoreMoments uuidv4 segments minDuration maxDuration = [].
Proof.
  intros Hlen. destruct segments as [|s [|s' rest]]; [reflexivity|reflexivity|].
  simpl in Hlen. lia.
Qed.

(** X3.  A transcript of fewer than two segments yields no moment at all,
    whatever the bounds and whatever the ranking service answers. *)
Theorem short_transcript_yields_nothing
        (uuidv4 : nat -> string) (openai : RankingService)
        (segments : list TranscriptSegment) (minDuration maxDuration : Q) :
  (length segments <= 1)%nat ->
  scoreMoments uuidv4 segments minDuration maxDuration = []
  /\ detectViralMoments uuidv4 openai segments minDuration maxDuration = [].
Proof.
  intros Hlen.
  pose proof (scoreMoments_short uuidv4 segments minDuration maxDuration Hlen) as Hnone.
  split; [exact Hnone|]. by apply detect_nothing_without_candidates.
Qed.

Lemma short_transcript_yields_nothing_witness :
  (length loneSegment <= 1)%nat
  /\ detectViralMoments sampleIds allSevens loneSegment 10 60 = [].
Proof.
  assert (H : (length loneSegment <= 1)%nat) by (simpl; lia).
  split; [exact H|].
  exact (proj2 (short_transcript_yields_nothing sampleIds allSevens loneSegment 10 60 H)).
Defined.

(** X4.  When the upper bound lies below the lower bound, no window can
    satisfy both, and the detector returns nothing. *)
Theorem inverted_bounds_yield_nothing
        (uuidv4 : nat -> string) (openai : RankingService)
        (segments : list TranscriptSegment) (minDuration maxDuration : Q) :
  (maxDuration < minDuration)%Q ->
  scoreMoments uuidv4 segments minDuration maxDuration = []
  /\ detectViralMoments uuidv4 openai segments minDuration maxDuration = [].
Proof.
  intros Hinv.
  assert (Hnone : scoreMoments uuidv4 segments minDuration maxDuration = []).
  { pose proof (outerLoop_withinBounds uuidv4 segments minDuration maxDuration
                  segments 0 [] (Forall_nil_2 _)) as Hall.
    fold (scoreMoments uuidv4 segments minDuration maxDuration) in Hall.
    destruct (scoreMoments uuidv4 segments minDuration maxDuration) as [|m ms];
      [reflexivity|].
    apply Forall_inv in Hall. destruct Hall as [Hmin Hmax]. exfalso.
    apply (Qlt_not_le _ _ Hinv). eapply Qle_trans; eassumption. }
  split; [exact Hnone|]. by apply detect_nothing_without_candidates.
Qed.

Lemma inverted_bounds_yield_nothing_witness :
  (10 < 60)%Q /\ detectViralMoments sampleIds allSevens sampleSegments 60 10 = [].
Proof.
  assert (H : (10 < 60)%Q) by (apply Qlt_bool_true; reflexivity).
  split; [exact H|].
  exact (proj2 (inverted_bounds_yield_nothing sampleIds allSevens sampleSegments 60 10 H)).
Defined.

(** ** Identifiers of the candidates *)

Section CandidateIds.
Variable uuidv4 : nat -> string.
Variable segments : list TranscriptSegment.
Variables minDuration maxDuration : Q.

Lemma pushIfViral_idsInOrder (moments : list ViralMoment) (i j : nat) (s e : Q) :
  idsInOrder uuidv4 moments ->
  idsInOrder uuidv4 (pushIfViral uuidv4 segments moments i j s e).
Proof.
  unfold idsInOrder, pushIfViral. intros H.
  destruct (Qlt_bool 0.5 _); [|exact H].
  rewrite map_app, length_app, seq_app, map_app, H. reflexivity.
Qed.

Lemma innerLoop_idsInOrder (rest : list TranscriptSegment) :
  forall (moments : list ViralMoment) (i : nat) (startTime : Q) (j : nat),
  idsInOrder uuidv4 moments ->
  idsInOrder uuidv4
    (innerLoop uuidv4 segments minDuration maxDuration moments i startTime j rest).
Proof.
  induction rest as [|sj rest IH]; intros moments i startTime j H; simpl; [exact H|].
  destruct (Qlt_bool _ minDuration); [by apply IH|].
  destruct (Qlt_bool maxDuration _); [exact H|].
  apply IH. by apply pushIfViral_idsInOrder.
Qed.

Lemma outerLoop_idsInOrder (rest : list TranscriptSegment) :
  forall (moments : list ViralMoment) (i : nat),
  idsInOrder uuidv4 moments ->
  idsInOrder uuidv4 (outerLoop uuidv4 segments minDuration maxDuration moments i rest).
Proof.
  induction rest as [|si rest IH]; intros moments i H; simpl; [exact H|].
  apply IH. by apply innerLoop_idsInOrder.
Qed.
End CandidateIds.

Lemma imap_preserves_ids (l : list ViralMoment) :
  forall f : nat -> ViralMoment -> ViralMoment,
  (forall i m, m_id (f i m) = m_id m) ->
  map m_id (imap f l) = map m_id l.
Proof.
  induction l as [|m l IH]; intros f Hf; simpl; [done|].
  rewrite Hf. f_equal. apply IH. intros i x. apply Hf.
Qed.

Lemma refineWithAI_ids (outcome : RankOutcome) (moments : list ViralMoment) :
  map m_id (refineWithAI outcome moments) = map m_id moments.
Proof.
  destruct outcome as [e|e|clips]; simpl; [done|done|].
  apply imap_preserves_ids. intros i m. unfold applyRankings.
  by destruct (List.find _ _).
Qed.

Lemma NoDup_ids_sorted_take (n : nat) (l : list ViralMoment) :
  NoDup (map m_id l) -> NoDup (map m_id (take n (sortByScore l))).
Proof.
  intros H.
  assert (Hsorted : NoDup (map m_id (sortByScore l))).
  { eapply NoDup_Permutation_proper; [|exact H].
    apply Permutation_map, sortByScore_perm. }
  rewrite <- (take_drop n (sortByScore l)), map_app in Hsorted.
  by apply NoDup_app in Hsorted as [? _].
Qed.

(** X5.  The k-th candidate found by the scan carries the k-th identifier
    drawn; hence, when the identifiers drawn are pairwise distinct, so are
    the identifiers of the moments the detector returns, whatever the
    ranking service answers. *)
Theorem candidate_ids_distinct
        (uuidv4 : nat -> string) (openai : RankingService)
        (segments : list TranscriptSegment) (minDuration maxDuration : Q) :
  let candidates := scoreMoments uuidv4 segments minDuration maxDuration in
  map m_id candidates = map uuidv4 (seq 0 (length candidates))
  /\ (NoDup (map uuidv4 (seq 0 (length candidates))) ->
      NoDup (map m_id (detectViralMoments uuidv4 openai segments minDuration maxDuration))).
Proof.
  intros candidates.
  assert (Hids : map m_id candidates = map uuidv4 (seq 0 (length candidates))).
  { apply (outerLoop_idsInOrder uuidv4 segments minDuration maxDuration segments [] 0).
    reflexivity. }
  split; [exact Hids|]. intros Hdistinct.
  unfold detectViralMoments, topMoments. fold candidates.
  apply NoDup_ids_sorted_take. rewrite refineWithAI_ids.
  apply NoDup_ids_sorted_take. by rewrite Hids.
Qed.

Lemma candidate_ids_distinct_witness :
  NoDup (map sampleIds (seq 0 (length (scoreMoments sampleIds sampleSegments 10 60))))
  /\ NoDup (map m_id (detectViralMoments sampleIds allSevens sampleSegments 10 60)).
Proof.
  assert (H : NoDup (map sampleIds
                         (seq 0 (length (scoreMoments sampleIds sampleSegments 10 60))))).
  { apply (bool_decide_unpack _). vm_compute. exact I. }
  split; [exact H|].
  exact (proj2 (candidate_ids_distinct sampleIds allSevens sampleSegments 10 60) H).
Defined.

(** ** More on the subtitles *)

Lemma EMOJI_MAP_entries (emotion : string) (emojis : list string) :
  lookupAssoc emotion EMOJI_MAP = Some emojis ->
  length emojis = 5%nat /\ Forall (fun e => e <> "") emojis.
Proof.
  unfold lookupAssoc, EMOJI_MAP. cbn [List.find fst].
  repeat (destruct (String.eqb _ emotion);
          [intros [= <-]; split; [reflexivity|repeat constructor; discriminate]|]).
  discriminate.
Qed.

Lemma Qfloor_scaled_index (r : Q) (n : nat) :
  (0 <= r)%Q -> (r < 1)%Q ->
  (0 <= Qfloor (r * Qnat n))%Z /\ (n <> 0%nat -> (Qfloor (r * Qnat n) < Z.of_nat n)%Z).
Proof.
  intros H0 H1.
  assert (Hn : (0 <= Qnat n)%Q).
  { unfold Qnat. change 0%Q with (inject_Z 0). rewrite <- Zle_Qle. lia. }
  split.
  - change 0%Z with (Qfloor 0). apply Qfloor_resp_le. by apply Qmult_le_0_compat.
  - intros Hpos.
    assert (Hlt : (r * Qnat n < Qnat n)%Q).
    { rewrite <- (Qmult_1_l (Qnat n)) at 2. apply Qmult_lt_compat_r; [|exact H1].
      unfold Qnat. change 0%Q with (inject_Z 0). rewrite <- Zlt_Qlt. lia. }
    rewrite Zlt_Qlt. eapply Qle_lt_trans; [apply Qfloor_le|exact Hlt].
Qed.

(** X6.  When the first emotion of a moment has an entry in the emoji
    table and the random number drawn lies in [0, 1), the emoji selected is
    one of the five of that entry, never the empty string, and exactly one
    random number is consumed; the punctuation and sentiment of the text are
    not consulted. *)
Theorem selectEmoji_draws_from_first_emotion
        (random : nat -> Q) (text emotion : string) (rest emojis : list string)
        (drawn : nat) :
  lookupAssoc emotion EMOJI_MAP = Some emojis ->
  (0 <= random drawn)%Q -> (random drawn < 1)%Q ->
  exists emoji,
    selectEmoji random text (emotion :: rest) drawn = (emoji, S drawn)
    /\ In emoji emojis /\ emoji <> "".
Proof.
  intros Hentry H0 H1.
  destruct (EMOJI_MAP_entries _ _ Hentry) as [Hlen Hnonempty].
  destruct (Qfloor_scaled_index (random drawn) (length emojis) H0 H1) as [Hlo Hhi].
  specialize (Hhi ltac:(lia)).
  unfold selectEmoji. cbn [emojiOfEmotions]. rewrite Hentry.
  destruct (Z.ltb_spec (Qfloor (random drawn * Qnat (length emojis))) 0) as [Hneg|_];
    [lia|].
  eexists. split; [reflexivity|].
  assert (Hin : In (nth (Z.to_nat (Qfloor (random drawn * Qnat (length emojis)))) emojis "")
                   emojis).
  { apply nth_In. lia. }
  split; [exact Hin|].
  rewrite Forall_forall in Hnonempty. apply Hnonempty. by apply list_elem_of_In.
Qed.

Lemma selectEmoji_draws_from_first_emotion_witness :
  exists emoji,
    selectEmoji (fun _ => 0.9%Q) "wow! secret!" ["surprise"; "controversy"] 4
    = (emoji, 5%nat)
    /\ In emoji ["😱"; "🤯"; "😮"; "👀"; "‼️"].
Proof.
  assert (Hentry : lookupAssoc "surprise" EMOJI_MAP = Some ["😱"; "🤯"; "😮"; "👀"; "‼️"])
    by reflexivity.
  assert (H0 : (0 <= 0.9)%Q) by (apply (proj1 (Qle_bool_iff _ _)); reflexivity).
  assert (H1 : (0.9 < 1)%Q) by (apply Qlt_bool_true; reflexivity).
  destruct (selectEmoji_draws_from_first_emotion
              (fun _ => 0.9%Q) "wow! secret!" "surprise" ["controversy"] _ 4 Hentry H0 H1)
    as (emoji & Hsel & Hin & _).
  exists emoji. split; [exact Hsel|exact Hin].
Defined.

Lemma srtBlocks_plain (random : nat -> Q) (moment : ViralMoment)
      (relevant : list TranscriptSegment) :
  forall (index : nat) (srtContent : string) (drawn : nat),
  srtBlocks random relevant index moment false srtContent drawn
  = (srtContent +:+
     cueBlocks index moment (map (fun s => (s, Str.trim (seg_text s))) relevant),
     drawn).
Proof.
  induction relevant as [|segment rest IH]; intros index srtContent drawn.
  - simpl. by rewrite append_empty_r.
  - cbn [srtBlocks cueText map cueBlocks]. rewrite IH. by rewrite append_assoc.
Qed.

(** X7.  With emojis disabled the subtitle track is the same whatever the
    random source: one block per contained segment, holding the segment's
    trimmed text, and no random number is consumed. *)
Theorem plain_subtitles_are_deterministic
        (random random' : nat -> Q) (segments : list TranscriptSegment)
        (moment : ViralMoment) (drawn : nat) :
  generateSRT random segments moment false drawn
  = (cueBlocks 0 moment
       (map (fun s => (s, Str.trim (seg_text s))) (relevantSegments segments moment)),
     drawn)
  /\ fst (generateSRT random segments moment false drawn)
     = fst (generateSRT random' segments moment false drawn).
Proof.
  unfold generateSRT. by rewrite !srtBlocks_plain.
Qed.

(** ** Stages that fail *)

Section StageFailures.
Variable T : Tools.
Variables (f : gmap string string) (cj : gmap string ClipJob) (j : gmap string IngestJob).
Variables (u r : nat) (c : list Call).

Lemma addCaptionsToVideo_fail_run (videoPath outputPath : string)
      (segments : list TranscriptSegment) (moment : ViralMoment) (addEmojis : bool)
      (v e : string) :
  let srtPath := Str.replaceFirst videoPath ".mp4" ".srt" in
  let gen := generateSRT (random T) segments moment addEmojis r in
  f !! videoPath = Some v ->
  srtPath <> videoPath ->
  burnSubtitles T v (fst gen) = Throw e ->
  addCaptionsToVideo T videoPath outputPath segments moment addEmojis
                     (mkWorld f cj j u r c)
  = (Throw e, mkWorld (<[srtPath := fst gen]> f) cj j u (snd gen)
                      (c ++ [AddCaptionsToVideo videoPath outputPath addEmojis])).
Proof.
  intros srtPath gen Hv Hne Hburn.
  unfold addCaptionsToVideo, bind, record, drawSRT, readFile, lift, writeFileSync,
    withFs; simpl.
  fold srtPath. fold gen. destruct gen as [srt drawn] eqn:Egen; simpl in *.
  rewrite lookup_insert_ne by done. rewrite Hv. simpl.
  rewrite lookup_insert_eq. simpl. by rewrite Hburn.
Qed.

Lemma generateThumbnail_fail_run (videoPath outputPath : string) (offset : Q)
      (v e : string) :
  f !! videoPath = Some v ->
  thumbnail T v offset = Throw e ->
  generateThumbnail T videoPath outputPath offset (mkWorld f cj j u r c)
  = (Throw e, mkWorld f cj j u r (c ++ [GenerateThumbnail videoPath outputPath])).
Proof.
  intros Hv Hth.
  unfold generateThumbnail, bind, record, readFile, lift; simpl.
  by rewrite Hv, Hth.
Qed.
End StageFailures.

Lemma srtPath_neq_suffix (T : Tools) (clipId suffix : string) :
  String.length suffix <> 9%nat ->
  Str.replaceFirst (clipFile T clipId "_base.mp4") ".mp4" ".srt"
  <> clipFile T clipId suffix.
Proof.
  intros Hlen Heq. apply (f_equal String.length) in Heq.
  rewrite length_replaceFirst, !length_clipFile in Heq by reflexivity.
  simpl in Heq. lia.
Qed.

Section FailedClips.
Variable T : Tools.
Variables clipJobId videoPath : string.
Variable segments : list TranscriptSegment.
Variable total : nat.
Variable config : jsval.

(** One turn of the loop, from the options on. *)
Lemma processOne_unfold (i : nat) (moment : ViralMoment) (w : World) (format : jsval)
      (addCaptions addEmojis addZoomPan : bool) :
  clipOptions config = Ok (format, addCaptions, addEmojis, addZoomPan) ->
  processOne T clipJobId videoPath segments total config i moment w
  = tryCatch
      (renderWith T videoPath segments (uuidv4 T (uuids w)) moment format
                  addCaptions addEmojis addZoomPan)
      (fun err => let* clipId := freshId T in ret (failedClip clipId err moment))
      (mkWorld (fs w)
               (<[clipJobId := progressSnapshot (clipJobs w !! clipJobId) i total]>
                  (clipJobs w))
               (jobs w) (S (uuids w)) (randoms w) (calls w)).
Proof.
  intros Hopts. unfold processOne, tryCatch, renderClip.
  unfold bind at 1. unfold withClipJobs at 1. cbn [fs clipJobs jobs uuids randoms calls].
  unfold bind at 1. unfold freshId at 1. cbn [fs clipJobs jobs uuids randoms calls].
  unfold bind at 1. unfold lift at 1. by rewrite Hopts.
Qed.

(** X8.  When the subtitle burn-in fails, the clip is reported as not
    ready with the transcoder's error, under a second, fresh identifier;
    and the two files written before the failure, the base clip and the
    subtitle file, stay on disk under the first identifier, nothing else
    being written. *)
Theorem caption_failure_leaves_files_behind
        (i : nat) (moment : ViralMoment) (w : World) (format : jsval)
        (addEmojis addZoomPan : bool) (src base e : string) :
  let clipId := uuidv4 T (uuids w) in
  let basePath := clipFile T clipId "_base.mp4" in
  let srtPath := Str.replaceFirst basePath ".mp4" ".srt" in
  let srt := fst (generateSRT (random T) segments moment addEmojis (randoms w)) in
  clipOptions config = Ok (format, true, addEmojis, addZoomPan) ->
  fs w !! videoPath = Some src ->
  crop T src (m_start moment) (m_end moment - m_start moment)%Q (cropFilterOf format)
  = Ok base ->
  burnSubtitles T base srt = Throw e ->
  exists w',
    processOne T clipJobId videoPath segments total config i moment w
    = (Ok (failedClip (uuidv4 T (S (uuids w))) e moment), w')
    /\ fs w' = <[srtPath := srt]> (<[basePath := base]> (fs w))
    /\ fs w' !! basePath = Some base
    /\ fs w' !! srtPath = Some srt.
Proof.
  intros clipId basePath srtPath srt Hopts Hsrc Hcrop Hburn.
  rewrite (processOne_unfold i moment w format true addEmojis addZoomPan Hopts).
  destruct w as [f cj j u r c]. cbn [fs clipJobs jobs uuids randoms calls] in *.
  unfold tryCatch, renderWith. fold clipId.
  fold (clipFile T clipId "_base.mp4"). fold basePath.
  fold (clipFile T clipId "_captioned.mp4").
  erewrite bind_ok by (eapply createClip_run; eassumption).
  rewrite bind_assoc.
  erewrite bind_throw
    by (eapply addCaptionsToVideo_fail_run;
        [apply lookup_insert_eq|exact (srtPath_neq_base T clipId)|exact Hburn]).
  eexists. split; [reflexivity|]. cbn [fs]. fold srtPath srt.
  split; [reflexivity|]. split.
  - rewrite lookup_insert_ne by exact (srtPath_neq_base T clipId).
    apply lookup_insert_eq.
  - apply lookup_insert_eq.
Qed.

(** X9.  When only the thumbnail fails, the finished video is already in
    place under the clip's identifier; the clip is nevertheless reported as
    not ready, and under a different, fresh identifier, so that the video on
    disk is not the video of any reported clip. *)
Theorem thumbnail_failure_orphans_video
        (i : nat) (moment : ViralMoment) (w : World) (format : jsval)
        (addCaptions addEmojis addZoomPan : bool) (src base pre e : string) :
  let clipId := uuidv4 T (uuids w) in
  clipOptions config = Ok (format, addCaptions, addEmojis, addZoomPan) ->
  fs w !! videoPath = Some src ->
  crop T src (m_start moment) (m_end moment - m_start moment)%Q (cropFilterOf format)
  = Ok base ->
  preEffectVideo T segments moment addCaptions addEmojis (randoms w) base = Ok pre ->
  thumbnail T (afterZoom T addZoomPan pre) 1%Q = Throw e ->
  exists w',
    processOne T clipJobId videoPath segments total config i moment w
    = (Ok (failedClip (uuidv4 T (S (uuids w))) e moment), w')
    /\ fs w' !! clipFile T clipId ".mp4" = Some (afterZoom T addZoomPan pre)
    /\ fs w' !! clipFile T clipId "_thumb.jpg" = fs w !! clipFile T clipId "_thumb.jpg".
Proof.
  intros clipId Hopts Hsrc Hcrop Hpre Hth.
  rewrite (processOne_unfold i moment w format addCaptions addEmojis addZoomPan Hopts).
  destruct w as [f cj j u r c]. cbn [fs clipJobs jobs uuids randoms calls] in *.
  unfold tryCatch, renderWith. fold clipId.
  fold (clipFile T clipId "_base.mp4").
  fold (clipFile T clipId "_captioned.mp4"). fold (clipFile T clipId "_final.mp4").
  fold (clipFile T clipId ".mp4"). fold (clipFile T clipId "_thumb.jpg").
  run_stage.
  destruct addCaptions, addZoomPan; unfold preEffectVideo, afterZoom in *;
    try (injection Hpre as <-);
    repeat run_stage;
    (erewrite bind_throw
       by (eapply generateThumbnail_fail_run; [lookup_file|eassumption]));
    (eexists; split; [reflexivity|]);
    cbn [fs]; (split; [lookup_file|]);
    repeat first [ rewrite lookup_insert_ne by distinct_paths
                 | rewrite lookup_delete_ne by distinct_paths
                 | rewrite lookup_insert_ne by (apply srtPath_neq_suffix; simpl; lia)
                 | rewrite lookup_delete_ne by (apply srtPath_neq_suffix; simpl; lia) ];
    reflexivity.
Qed.
End FailedClips.

Lemma caption_failure_leaves_files_behind_witness :
  let T := burnFailsTools in
  clipOptions (JObj []) = Ok (JStr "9:16", true, true, true)
  /\ fs sourceWorld !! "/app/uploads/job.mp4" = Some "VIDEO"
  /\ exists w',
       processOne T "job" "/app/uploads/job.mp4" sampleSegments 1 (JObj []) 0
                  sampleMoment sourceWorld
       = (Ok (failedClip "id1" "subtitles: filter failed" sampleMoment), w')
       /\ fs w' !! clipFile T "id0" "_base.mp4" = Some "crop(VIDEO)".
Proof.
  intros T.
  assert (Hsrc : fs sourceWorld !! "/app/uploads/job.mp4" = Some "VIDEO")
    by (vm_compute; reflexivity).
  split; [reflexivity|]. split; [exact Hsrc|].
  destruct (caption_failure_leaves_files_behind
              T "job" "/app/uploads/job.mp4" sampleSegments 1 (JObj []) 0
              sampleMoment sourceWorld (JStr "9:16") true true
              "VIDEO" "crop(VIDEO)" "subtitles: filter failed"
              eq_refl Hsrc eq_refl eq_refl)
    as (w' & Hrun & _ & Hbase & _).
  exists w'. split; [exact Hrun|exact Hbase].
Defined.

Lemma thumbnail_failure_orphans_video_witness :
  let T := thumbnailFailsTools in
  clipOptions (JObj []) = Ok (JStr "9:16", true, true, true)
  /\ fs sourceWorld !! "/app/uploads/job.mp4" = Some "VIDEO"
  /\ exists w',
       processOne T "job" "/app/uploads/job.mp4" sampleSegments 1 (JObj []) 0
                  sampleMoment sourceWorld
       = (Ok (failedClip "id1" "thumbnail: no frame" sampleMoment), w')
       /\ fs w' !! clipFile T "id0" ".mp4" = Some "zoom(captioned(crop(VIDEO)))".
Proof.
  intros T.
  assert (Hsrc : fs sourceWorld !! "/app/uploads/job.mp4" = Some "VIDEO")
    by (vm_compute; reflexivity).
  split; [reflexivity|]. split; [exact Hsrc|].
  destruct (thumbnail_failure_orphans_video
              T "job" "/app/uploads/job.mp4" sampleSegments 1 (JObj []) 0
              sampleMoment sourceWorld (JStr "9:16") true true true
              "VIDEO" "crop(VIDEO)" "captioned(crop(VIDEO))" "thumbnail: no frame"
              eq_refl Hsrc eq_refl eq_refl eq_refl)
    as (w' & Hrun & Hfile & _).
  exists w'. split; [exact Hrun|exact Hfile].
Defined.

(** ** The process route *)

Lemma processClips_returns (T : Tools) (clipJobId videoPath : string)
      (segments : list TranscriptSegment) (moments : list ViralMoment)
      (config : jsval) (w : World) :
  exists clips w',
    processClips T clipJobId videoPath segments moments config w = (Ok tt, w')
    /\ clipJobs w' !! clipJobId
       = Some (completedSnapshot clipJobId (length moments) clips)
    /\ Forall2 clipShape moments clips.
Proof.
  destruct (clipLoop_returns T clipJobId videoPath segments (length moments) config
                             moments 0 [] w)
    as (clips & w1 & Hloop & Hshapes & _).
  exists clips. eexists. split; [|split; [|exact Hshapes]].
  - unfold processClips. rewrite (bind_ok _ _ _ _ _ Hloop). reflexivity.
  - simpl. by rewrite lookup_insert_eq.
Qed.

Lemma clipShape_moments (moments : list ViralMoment) (clips : list ProcessedClip) :
  Forall2 clipShape moments clips -> map c_moment clips = moments.
Proof.
  induction 1 as [|m c ms cs [Hm _] _ IH]; simpl; [done|]. by rewrite Hm, IH.
Qed.

(** X10.  The process route always answers, and a request answered with an
    error has changed nothing: no job was created, no identifier drawn, no
    file touched. *)
Theorem rejected_process_request_changes_nothing (T : Tools) (body : jsval) (w : World) :
  exists response w',
    POST_process T body w = (Ok response, w')
    /\ forall status message, response = ErrorResponse status message -> w' = w.
Proof.
  unfold POST_process, tryCatch.
  unfold bind at 1, lift at 1.
  destruct (getProp body "jobId") as [jobId|e];
    [|eexists _, _; split; [reflexivity|done]].
  unfold bind at 1, lift at 1.
  destruct (getProp body "momentIds") as [momentIds|e];
    [|eexists _, _; split; [reflexivity|done]].
  unfold bind at 1, lift at 1.
  destruct (getProp body "config") as [config|e];
    [|eexists _, _; split; [reflexivity|done]].
  destruct (negb (truthy jobId) || negb (truthy momentIds) || negb (isArray momentIds));
    [eexists _, _; split; [reflexivity|done]|].
  unfold bind at 1.
  destruct (getJob w jobId) as [job|];
    [|eexists _, _; split; [reflexivity|done]].
  destruct (negb (statusIs completed (j_status job)));
    [eexists _, _; split; [reflexivity|done]|].
  destruct (j_result job) as [r|];
    [|eexists _, _; split; [reflexivity|done]].
  destruct (length _ =? 0)%nat;
    [eexists _, _; split; [reflexivity|done]|].
  unfold bind at 1, freshId at 1. unfold bind at 1, withClipJobs at 1.
  unfold bind at 1. cbn [fs clipJobs jobs uuids randoms calls].
  match goal with
  | |- context [processClips ?T ?id ?vp ?segs ?ms ?cfg ?w0] =>
      destruct (processClips_returns T id vp segs ms cfg w0) as (clips & w3 & H & _)
  end.
  rewrite H. eexists _, _. split; [reflexivity|]. intros status message [=].
Qed.

(** X11.  A request that names a completed ingestion job and at least one
    of its moments is answered with the next identifier drawn, and the clip
    job found under that identifier is completed, with one clip for each
    selected moment; the clips follow the order of the job's moments, not
    the order of the identifiers in the request. *)
Theorem accepted_process_request_completes
        (T : Tools) (body : jsval) (w : World) (jobId : string)
        (momentIds : list jsval) (config : jsval) (job : IngestJob) (r : IngestResult) :
  let selected :=
    List.filter (fun m => includesId (JArr momentIds) (m_id m)) (r_moments r) in
  let clipJobId := uuidv4 T (uuids w) in
  getProp body "jobId" = Ok (JStr jobId) -> jobId <> "" ->
  getProp body "momentIds" = Ok (JArr momentIds) ->
  getProp body "config" = Ok config ->
  jobs w !! jobId = Some job ->
  j_status job = Some completed -> j_result job = Some r ->
  selected <> [] ->
  exists clips w',
    POST_process T body w = (Ok (ClipProcessingStarted clipJobId), w')
    /\ GET_clips clipJobId w'
       = Some (completedSnapshot clipJobId (length selected) clips)
    /\ map c_moment clips = selected
    /\ Forall2 clipShape selected clips.
Proof.
  intros selected clipJobId HjobId Hne Hids Hconfig Hjob Hstatus Hresult Hsel.
  unfold POST_process, tryCatch.
  unfold bind at 1, lift at 1. rewrite HjobId.
  unfold bind at 1, lift at 1. rewrite Hids.
  unfold bind at 1, lift at 1. rewrite Hconfig.
  assert (truthy (JStr jobId) = true) as ->.
  { simpl. by apply negb_true_iff, String.eqb_neq. }
  cbn [truthy isArray negb orb].
  unfold bind at 1. cbn [getJob]. rewrite Hjob, Hstatus. cbn [statusIs negb].
  rewrite Hresult. fold selected.
  assert ((length selected =? 0)%nat = false) as ->.
  { apply Nat.eqb_neq. by destruct selected. }
  unfold bind at 1, freshId at 1. fold clipJobId.
  unfold bind at 1, withClipJobs at 1.
  unfold bind at 1. cbn [fs clipJobs jobs uuids randoms calls].
  match goal with
  | |- context [processClips ?T ?id ?vp ?segs ?ms ?cfg ?w0] =>
      destruct (processClips_returns T id vp segs ms cfg w0)
        as (clips & w3 & H & Hsnap & Hshapes)
  end.
  rewrite H. exists clips, w3. split; [reflexivity|].
  split; [exact Hsnap|]. split; [by apply clipShape_moments|exact Hshapes].
Qed.

Lemma accepted_process_request_completes_witness :
  let T := sampleTools zoomOk cropOk in
  let body := JObj [("jobId", JStr "job");
                    ("momentIds", JArr [JStr "m0"; JStr "m1"; JStr "unknown"])] in
  exists clips w',
    POST_process T body ingestedWorld = (Ok (ClipProcessingStarted "id7"), w')
    /\ GET_clips "id7" w' = Some (completedSnapshot "id7" 2 clips)
    /\ map c_moment clips = [sampleMoment; earlierMoment].
Proof.
  intros T body.
  assert (Hjob : jobs ingestedWorld !! "job"
                 = Some (completedJob "job"
                           (mkIngestResult "/app/uploads/job.mp4" sampleSegments
                                           [sampleMoment; earlierMoment] 30 "youtube")))
    by (vm_compute; reflexivity).
  destruct (accepted_process_request_completes
              T body ingestedWorld "job" [JStr "m0"; JStr "m1"; JStr "unknown"]
              JUndefined _ _ eq_refl ltac:(discriminate) eq_refl eq_refl Hjob
              eq_refl eq_refl ltac:(discriminate))
    as (clips & w' & Hrun & Hget & Hmoments & _).
  exists clips, w'. split; [exact Hrun|]. split; [exact Hget|exact Hmoments].
Defined.

(** ** Progress and download *)

Lemma Qnat_pos (n : nat) : (0 < n)%nat -> (0 < Qnat n)%Q.
Proof. intros H. unfold Qnat. change 0%Q with (inject_Z 0). rewrite <- Zlt_Qlt. lia. Qed.

Lemma Qnat_le (n m : nat) : (n <= m)%nat -> (Qnat n <= Qnat m)%Q.
Proof. intros H. unfold Qnat. rewrite <- Zle_Qle. lia. Qed.

Lemma Qnat_lt (n m : nat) : (n < m)%nat -> (Qnat n < Qnat m)%Q.
Proof. intros H. unfold Qnat. rewrite <- Zlt_Qlt. lia. Qed.

(** [i / total * 100] grows with [i] and stays below 100 while [i < total]. *)
Lemma percent_le (i i' total : nat) :
  (0 < total)%nat -> (i <= i')%nat ->
  (Qnat i / Qnat total * 100 <= Qnat i' / Qnat total * 100)%Q.
Proof.
  intros Htotal Hle.
  apply Qmult_le_compat_r; [|done].
  apply Qmult_le_compat_r; [by apply Qnat_le|].
  apply Qlt_le_weak, Qinv_lt_0_compat. by apply Qnat_pos.
Qed.

Lemma percent_lt_100 (i total : nat) :
  (i < total)%nat -> (Qnat i / Qnat total * 100 < 100)%Q.
Proof.
  intros Hlt.
  assert (Hpos : (0 < Qnat total)%Q) by (apply Qnat_pos; lia).
  apply (Qlt_le_trans _ (1 * 100)); [|apply (proj1 (Qle_bool_iff _ _)); reflexivity].
  apply Qmult_lt_compat_r; [reflexivity|].
  apply Qlt_shift_div_r; [exact Hpos|]. rewrite Qmult_1_l. by apply Qnat_lt.
Qed.

(** X12.  While clip [i] of [total] is rendered the progress shown is a
    whole number from 0 to 99, it never decreases from one clip to the
    next, and the count of processed clips is [i]; only the final snapshot
    shows 100. *)
Theorem progress_below_100_until_complete
        (old old' : option ClipJob) (i i' total : nat) :
  (i <= i')%nat -> (i' < total)%nat ->
  exists p p',
    cj_progress (progressSnapshot old i total) = Some p
    /\ cj_progress (progressSnapshot old' i' total) = Some p'
    /\ (0 <= p)%Z /\ (p <= p')%Z /\ (p' <= 99)%Z
    /\ cj_processedClips (progressSnapshot old i total) = Some i
    /\ forall clipJobId clips,
         cj_progress (completedSnapshot clipJobId total clips) = Some 100%Z.
Proof.
  intros Hle Hlt. eexists _, _.
  split; [reflexivity|]. split; [reflexivity|].
  assert (Htotal : (0 < total)%nat) by lia.
  split; [|split; [|split; [|split; [reflexivity|reflexivity]]]].
  - change 0%Z with (Qfloor 0). apply Qfloor_resp_le.
    apply Qmult_le_0_compat; [|done].
    apply Qmult_le_0_compat; [apply Qnat_nonneg|].
    apply Qlt_le_weak, Qinv_lt_0_compat. by apply Qnat_pos.
  - apply Qfloor_resp_le. by apply percent_le.
  - assert (H : (Qfloor (Qnat i' / Qnat total * 100) < 100)%Z); [|lia].
    rewrite Zlt_Qlt. eapply Qle_lt_trans; [apply Qfloor_le|].
    by apply percent_lt_100.
Qed.

Lemma progress_below_100_until_complete_witness :
  cj_progress (progressSnapshot None 1 3) = Some 33%Z
  /\ cj_progress (progressSnapshot None 2 3) = Some 66%Z
  /\ exists p p',
       cj_progress (progressSnapshot None 1 3) = Some p
       /\ cj_progress (progressSnapshot None 2 3) = Some p'
       /\ (p <= p')%Z /\ (p' <= 99)%Z.
Proof.
  split; [reflexivity|]. split; [reflexivity|].
  destruct (progress_below_100_until_complete None None 1 2 3 ltac:(lia) ltac:(lia))
    as (p & p' & Hp & Hp' & _ & Hle & Hmax & _).
  exists p, p'. repeat split; assumption.
Defined.

(** X13.  A clip delivered as ready can be downloaded under its
    identifier: the download route answers with exactly the final video the
    render left on disk, announced as an MP4 attachment of that length. *)
Theorem ready_clip_can_be_downloaded
        (T : Tools) (clipJobId videoPath : string) (segments : list TranscriptSegment)
        (total : nat) (config : jsval) (i : nat) (moment : ViralMoment) (w : World)
        (format : jsval) (addCaptions addEmojis addZoomPan : bool)
        (src base pre th : string) :
  let clipId := uuidv4 T (uuids w) in
  let final := afterZoom T addZoomPan pre in
  clipOptions config = Ok (format, addCaptions, addEmojis, addZoomPan) ->
  fs w !! videoPath = Some src ->
  crop T src (m_start moment) (m_end moment - m_start moment)%Q (cropFilterOf format)
  = Ok base ->
  preEffectVideo T segments moment addCaptions addEmojis (randoms w) base = Ok pre ->
  thumbnail T final 1%Q = Ok th ->
  exists c w',
    processOne T clipJobId videoPath segments total config i moment w = (Ok c, w')
    /\ c_ready c = true /\ c_id c = clipId
    /\ GET_download T (c_id c) w'
       = DownloadVideo final
           [ ("Content-Type", "video/mp4");
             ("Content-Disposition",
              "attachment; filename=" +:+ doubleQuote +:+ clipId +:+ ".mp4" +:+ doubleQuote);
             ("Content-Length", stringOfNat (String.length final)) ].
Proof.
  intros clipId final Hopts Hsrc Hcrop Hpre Hth.
  destruct (processOne_run T clipJobId videoPath segments total config i moment w
              format addCaptions addEmojis addZoomPan src base pre th
              Hopts Hsrc Hcrop Hpre Hth)
    as (w' & Hrun & Hfinal & _).
  eexists _, w'. split; [exact Hrun|]. split; [reflexivity|]. split; [reflexivity|].
  unfold GET_download. cbn [c_id readyClip]. fold clipId.
  unfold clipFile in Hfinal. fold clipId in Hfinal. by rewrite Hfinal.
Qed.

Lemma ready_clip_can_be_downloaded_witness :
  let T := sampleTools zoomOk cropOk in
  exists c w' headers,
    processOne T "job" "/app/uploads/job.mp4" sampleSegments 1 (JObj []) 0
               sampleMoment sourceWorld = (Ok c, w')
    /\ GET_download T (c_id c) w' = DownloadVideo "zoom(captioned(crop(VIDEO)))" headers.
Proof.
  intros T.
  assert (Hsrc : fs sourceWorld !! "/app/uploads/job.mp4" = Some "VIDEO")
    by (vm_compute; reflexivity).
  destruct (ready_clip_can_be_downloaded
              T "job" "/app/uploads/job.mp4" sampleSegments 1 (JObj []) 0
              sampleMoment sourceWorld (JStr "9:16") true true true
              "VIDEO" "crop(VIDEO)" "captioned(crop(VIDEO))"
              "thumb(zoom(captioned(crop(VIDEO))))"
              eq_refl Hsrc eq_refl eq_refl eq_refl)
    as (c & w' & Hrun & _ & _ & Hget).
  exists c, w'. eexists. split; [exact Hrun|exact Hget].
Defined.

(** ** Video identifiers *)

Lemma prefix_append (p s : string) :
  String.prefix p s = true -> s = p +:+ dropString (String.length p) s.
Proof.
  revert s. induction p as [|x p IH]; intros s H.
  - unfold dropString. simpl. rewrite Nat.sub_0_r.
    change ("" +:+ ?t) with t. clear H.
    induction s as [|y s IHs]; [reflexivity|]. simpl. by rewrite <- IHs.
  - destruct s as [|y s]; simpl in H; [discriminate|].
    destruct (ascii_dec x y) as [->|]; [|discriminate].
    rewrite append_cons. f_equal. exact (IH s H).
Qed.

Lemma takeIdChars_split (s : string) :
  exists after,
    s = takeIdChars s +:+ after
    /\ takeIdChars after = ""
    /\ forallb idChar (list_ascii_of_string (takeIdChars s)) = true.
Proof.
  induction s as [|c s (after & Hs & Hafter & Hall)].
  - exists "". by repeat split.
  - cbn [takeIdChars]. destruct (idChar c) eqn:E.
    + exists after. rewrite append_cons, <- Hs. split; [done|]. split; [done|].
      simpl. by rewrite E.
    + exists (String c s). split; [done|]. split; [|done].
      cbn [takeIdChars]. by rewrite E.
Qed.

Lemma matchHere_Some (alternatives : list string) (s id : string) :
  matchHere alternatives s = Some id ->
  id <> ""
  /\ forallb idChar (list_ascii_of_string id) = true
  /\ exists p after,
       In p alternatives /\ s = p +:+ id +:+ after /\ takeIdChars after = "".
Proof.
  induction alternatives as [|p rest IH]; [discriminate|].
  cbn [matchHere].
  assert (Hrest : matchHere rest s = Some id ->
                  id <> ""
                  /\ forallb idChar (list_ascii_of_string id) = true
                  /\ exists p0 after,
                       In p0 (p :: rest) /\ s = p0 +:+ id +:+ after
                       /\ takeIdChars after = "").
  { intros H. destruct (IH H) as (Hne & Hall & p0 & after & Hin & Hs & Hafter).
    split; [exact Hne|]. split; [exact Hall|].
    exists p0, after. split; [by right|done]. }
  destruct (String.prefix p s) eqn:Hp; [|exact Hrest].
  destruct (String.eqb (takeIdChars (dropString (String.length p) s)) "") eqn:He;
    [exact Hrest|].
  intros [= <-]. apply String.eqb_neq in He. split; [exact He|].
  destruct (takeIdChars_split (dropString (String.length p) s))
    as (after & Hs & Hafter & Hall).
  split; [exact Hall|]. exists p, after. split; [by left|]. split; [|exact Hafter].
  rewrite <- Hs. by apply prefix_append.
Qed.

(** X14.  An identifier extracted from a URL is never empty, contains none
    of the characters [&], [?], [#] and line feed, and stands in the URL
    right behind one of the three recognised prefixes, up to the end of the
    URL or the first such character. *)
Theorem extracted_id_is_delimited (url id : string) :
  extractYouTubeId url = Some id ->
  id <> ""
  /\ forallb idChar (list_ascii_of_string id) = true
  /\ exists before p after,
       In p urlPrefixes
       /\ url = before +:+ p +:+ id +:+ after
       /\ takeIdChars after = "".
Proof.
  induction url as [|c url IH]; cbn [extractYouTubeId].
  - destruct (matchHere urlPrefixes "") as [id'|] eqn:E; [|discriminate].
    intros [= ->]. destruct (matchHere_Some _ _ _ E) as (Hne & Hall & p & after & H).
    split; [exact Hne|]. split; [exact Hall|]. by exists "", p, after.
  - destruct (matchHere urlPrefixes (String c url)) as [id'|] eqn:E.
    + intros [= ->]. destruct (matchHere_Some _ _ _ E) as (Hne & Hall & p & after & H).
      split; [exact Hne|]. split; [exact Hall|]. by exists "", p, after.
    + intros H. destruct (IH H) as (Hne & Hall & before & p & after & Hin & Hurl & Hafter).
      split; [exact Hne|]. split; [exact Hall|].
      exists (String c before), p, after. split; [exact Hin|]. split; [|exact Hafter].
      rewrite append_cons. by rewrite <- Hurl.
Qed.

Lemma extracted_id_is_delimited_witness :
  extractYouTubeId "https://www.youtube.com/watch?v=dQw4w9WgXcQ&t=42s" = Some "dQw4w9WgXcQ"
  /\ forallb idChar (list_ascii_of_string "dQw4w9WgXcQ") = true.
Proof.
  assert (H : extractYouTubeId "https://www.youtube.com/watch?v=dQw4w9WgXcQ&t=42s"
              = Some "dQw4w9WgXcQ") by (vm_compute; reflexivity).
  split; [exact H|].
  exact (proj1 (proj2 (extracted_id_is_delimited _ _ H))).
Defined.

Lemma takeIdChars_append (id after : string) :
  forallb idChar (list_ascii_of_string id) = true ->
  takeIdChars after = "" ->
  takeIdChars (id +:+ after) = id.
Proof.
  intros Hall Hafter. induction id as [|c id IH]; [exact Hafter|].
  simpl in Hall. apply andb_true_iff in Hall as [Hc Hall].
  rewrite append_cons. cbn [takeIdChars]. rewrite Hc. by rewrite IH.
Qed.

Lemma prefix_of_append (p t : string) : String.prefix p (p +:+ t) = true.
Proof.
  induction p as [|x p IH]; [by destruct t|].
  rewrite append_cons. simpl. by destruct (ascii_dec x x).
Qed.

Lemma dropString_append (p t : string) : dropString (String.length p) (p +:+ t) = t.
Proof.
  pose proof (prefix_append p (p +:+ t) (prefix_of_append p t)) as H.
  by apply (inj (String.app p)) in H.
Qed.

Lemma matchHere_found (p : string) (rest : list string) (id after : string) :
  id <> "" ->
  forallb idChar (list_ascii_of_string id) = true ->
  takeIdChars after = "" ->
  matchHere (p :: rest) (p +:+ id +:+ after) = Some id.
Proof.
  intros Hne Hall Hafter. cbn [matchHere].
  rewrite prefix_of_append, dropString_append, takeIdChars_append by done.
  by apply String.eqb_neq in Hne as ->.
Qed.

Lemma matchHere_skip (p : string) (rest : list string) (s : string) :
  String.prefix p s = false -> matchHere (p :: rest) s = matchHere rest s.
Proof. intros H. cbn [matchHere]. by rewrite H. Qed.

(** No alternative of the pattern matches at a character other than [y]. *)
Lemma extractYouTubeId_skip (c : ascii) (s : string) :
  c <> "y"%char -> extractYouTubeId (String c s) = extractYouTubeId s.
Proof.
  intros Hc. cbn [extractYouTubeId].
  assert (matchHere urlPrefixes (String c s) = None) as ->; [|done].
  unfold urlPrefixes. cbn [matchHere String.prefix].
  destruct (ascii_dec "y" c) as [<-|_]; [done|reflexivity].
Qed.

Lemma extractYouTubeId_here (s id : string) :
  matchHere urlPrefixes s = Some id -> extractYouTubeId s = Some id.
Proof. intros H. destruct s; cbn [extractYouTubeId]; by rewrite H. Qed.

Ltac skip_scheme :=
  repeat (rewrite append_cons; rewrite extractYouTubeId_skip by discriminate).

(** X15.  The three usual forms of a video address are recognised, and the
    identifier extracted is the text behind the prefix up to the first of
    [&], [?], [#] and line feed. *)
Theorem usual_urls_are_recognised (id after : string) :
  id <> "" ->
  forallb idChar (list_ascii_of_string id) = true ->
  takeIdChars after = "" ->
  extractYouTubeId ("https://www.youtube.com/watch?v=" +:+ id +:+ after) = Some id
  /\ extractYouTubeId ("https://youtu.be/" +:+ id +:+ after) = Some id
  /\ extractYouTubeId ("https://www.youtube.com/embed/" +:+ id +:+ after) = Some id.
Proof.
  intros Hne Hall Hafter. split; [|split].
  - change "https://www.youtube.com/watch?v="
      with ("https://www." +:+ "youtube.com/watch?v=").
    rewrite append_assoc. skip_scheme. change ("" +:+ ?t) with t.
    apply extractYouTubeId_here. by apply matchHere_found.
  - change "https://youtu.be/" with ("https://" +:+ "youtu.be/").
    rewrite append_assoc. skip_scheme. change ("" +:+ ?t) with t.
    apply extractYouTubeId_here. unfold urlPrefixes.
    rewrite matchHere_skip by (vm_compute; reflexivity).
    by apply matchHere_found.
  - change "https://www.youtube.com/embed/"
      with ("https://www." +:+ "youtube.com/embed/").
    rewrite append_assoc. skip_scheme. change ("" +:+ ?t) with t.
    apply extractYouTubeId_here. unfold urlPrefixes.
    rewrite matchHere_skip by (vm_compute; reflexivity).
    rewrite matchHere_skip by (vm_compute; reflexivity).
    by apply matchHere_found.
Qed.

Lemma usual_urls_are_recognised_witness :
  extractYouTubeId ("https://youtu.be/" +:+ "dQw4w9WgXcQ" +:+ "?t=42") = Some "dQw4w9WgXcQ".
Proof.
  exact (proj1 (proj2 (usual_urls_are_recognised "dQw4w9WgXcQ" "?t=42"
                         ltac:(discriminate) eq_refl eq_refl))).
Defined.

(** ** The ingestion job, run *)

Lemma bind_inv {A B} (m : M A) (k : A -> M B) (w w' : World) (b : B) :
  bind m k w = (Ok b, w') ->
  exists a w1, m w = (Ok a, w1) /\ k a w1 = (Ok b, w').
Proof.
  unfold bind. destruct (m w) as [[a|e] w1]; [|discriminate]. eauto.
Qed.

Section IngestRuns.
Variable T : Tools.
Variables jobId url videoId videoPath : string.

(** What a run of [processYouTubeVideo] that returns has stored. *)
Lemma processYouTubeVideo_completed (w w' : World) :
  processYouTubeVideo T jobId url videoId videoPath w = (Ok tt, w') ->
  exists r, jobs w' !! jobId = Some (completedJob jobId r)
            /\ r_videoPath r = videoPath /\ r_source r = "youtube".
Proof.
  unfold processYouTubeVideo. intros H.
  apply bind_inv in H as (_ & w1 & _ & H).
  apply bind_inv in H as (fast & w2 & _ & H).
  apply bind_inv in H as (segments & w3 & _ & H).
  apply bind_inv in H as (_ & w4 & _ & H).
  apply bind_inv in H as (moments & w5 & _ & H).
  apply bind_inv in H as (duration & w6 & _ & H).
  unfold withJobs in H. injection H as <-.
  eexists. cbn [jobs]. rewrite lookup_insert_eq. by split.
Qed.

(** X16.  The ingestion job of a remote URL always settles: once the
    background work is over the job is either completed, with a result for
    the given video path and no error, or failed, with an error message and
    no result; it is never left in the processing state. *)
Theorem ingestion_job_always_settles (w : World) :
  exists w' job,
    runYouTubeJob T jobId url videoId videoPath w = (Ok tt, w')
    /\ GET_status jobId w' = Some job
    /\ j_id job = Some jobId
    /\ ((j_status job = Some completed /\ j_error job = None
         /\ exists r, j_result job = Some r /\ r_videoPath r = videoPath)
        \/ (j_status job = Some failed /\ j_result job = None
            /\ is_Some (j_error job))).
Proof.
  unfold runYouTubeJob, tryCatch, GET_status.
  destruct (processYouTubeVideo T jobId url videoId videoPath w) as [[[]|e] w1] eqn:E.
  - destruct (processYouTubeVideo_completed w w1 E) as (r & Hjob & Hpath & _).
    exists w1, (completedJob jobId r). split; [done|]. split; [exact Hjob|].
    split; [done|]. left. split; [done|]. split; [done|]. by exists r.
  - eexists _, (failedSnapshot jobId e). split; [reflexivity|].
    split; [cbn [jobs]; by rewrite lookup_insert_eq|].
    split; [done|]. right. by split; [|split].
Qed.

(** X17.  When the transcript service answers, its segments are the ones
    stored: the video is still downloaded, the audio extraction and the
    transcriber are not consulted, and the job completes with the moments
    detected in that transcript and the probed duration. *)
Theorem fast_transcript_is_preferred
        (w : World) (segments : list TranscriptSegment) (bytes : string) (duration : Q) :
  fetchTranscript T videoId = Ok segments ->
  download T url = Ok bytes ->
  probeDuration T bytes = Ok duration ->
  exists w',
    runYouTubeJob T jobId url videoId videoPath w = (Ok tt, w')
    /\ GET_status jobId w'
       = Some (completedJob jobId
                 (mkIngestResult videoPath segments
                    (detectViralMoments (fun k => uuidv4 T (uuids w + k)) (rank T)
                                        segments 10 60)
                    duration "youtube"))
    /\ fs w' = <[videoPath := bytes]> (fs w).
Proof.
  intros Hfetch Hdl Hprobe.
  unfold runYouTubeJob, processYouTubeVideo, GET_status, getYouTubeTranscript,
    downloadYouTubeVideo, getVideoDuration, detectMoments, updateJob, writeFileSync,
    readFile, withJobs, withFs, tryCatch, bind, lift, ret.
  cbn [fs clipJobs jobs uuids randoms calls].
  rewrite Hfetch, Hdl. cbn [fs clipJobs jobs uuids randoms calls].
  rewrite lookup_insert_eq, Hprobe. cbn [fs clipJobs jobs uuids randoms calls].
  eexists. split; [reflexivity|]. cbn [fs jobs].
  split; [by rewrite lookup_insert_eq|reflexivity].
Qed.

(** X18.  When the transcript service fails, the audio is extracted to a
    temporary file and transcribed; on success the job completes with the
    transcriber's segments, and the temporary file is gone while the
    downloaded video stays. *)
Theorem slow_path_removes_temporary_audio
        (w : World) (segments : list TranscriptSegment) (e bytes audio : string)
        (duration : Q) :
  let audioPath := pathJoin (TEMP_DIR T) (jobId +:+ ".wav") in
  audioPath <> videoPath ->
  fetchTranscript T videoId = Throw e ->
  download T url = Ok bytes ->
  extractAudio T bytes = Ok audio ->
  transcribe T audio = Ok segments ->
  probeDuration T bytes = Ok duration ->
  exists w',
    runYouTubeJob T jobId url videoId videoPath w = (Ok tt, w')
    /\ GET_status jobId w'
       = Some (completedJob jobId
                 (mkIngestResult videoPath segments
                    (detectViralMoments (fun k => uuidv4 T (uuids w + k)) (rank T)
                                        segments 10 60)
                    duration "youtube"))
    /\ fs w' !! audioPath = None
    /\ fs w' !! videoPath = Some bytes.
Proof.
  intros audioPath Hne Hfetch Hdl Haudio Htranscribe Hprobe.
  unfold runYouTubeJob, processYouTubeVideo, GET_status, getYouTubeTranscript,
    downloadYouTubeVideo, extractAudioFromVideo, transcribeVideo, unlinkSync,
    getVideoDuration, detectMoments, updateJob, writeFileSync,
    readFile, withJobs, withFs, tryCatch, bind, lift, ret, throw.
  cbn [fs clipJobs jobs uuids randoms calls].
  rewrite Hfetch. cbn [fs clipJobs jobs uuids randoms calls].
  rewrite Hdl. cbn [fs clipJobs jobs uuids randoms calls].
  rewrite lookup_insert_eq, Haudio. cbn [fs clipJobs jobs uuids randoms calls].
  fold audioPath. rewrite lookup_insert_eq, Htranscribe.
  cbn [fs clipJobs jobs uuids randoms calls].
  rewrite lookup_insert_eq. cbn [fs clipJobs jobs uuids randoms calls].
  rewrite lookup_delete_ne, lookup_insert_ne, lookup_insert_eq, Hprobe by done.
  cbn [fs clipJobs jobs uuids randoms calls].
  eexists. split; [reflexivity|]. cbn [fs jobs].
  split; [by rewrite lookup_insert_eq|].
  split; [by rewrite lookup_delete_eq|].
  by rewrite lookup_delete_ne, lookup_insert_ne, lookup_insert_eq.
Qed.

(** X19.  When the transcript service and then the transcriber fail, the
    job is failed with the transcriber's message behind the prefix of
    [transcribeVideo], and the temporary audio file is left on disk: the
    deletion that follows the transcription is never reached. *)
Theorem transcription_failure_leaves_temporary_audio
        (w : World) (e e' bytes audio : string) :
  let audioPath := pathJoin (TEMP_DIR T) (jobId +:+ ".wav") in
  fetchTranscript T videoId = Throw e ->
  download T url = Ok bytes ->
  extractAudio T bytes = Ok audio ->
  transcribe T audio = Throw e' ->
  exists w',
    runYouTubeJob T jobId url videoId videoPath w = (Ok tt, w')
    /\ GET_status jobId w' = Some (failedSnapshot jobId ("Failed to transcribe: " +:+ e'))
    /\ fs w' !! audioPath = Some audio.
Proof.
  intros audioPath Hfetch Hdl Haudio Htranscribe.
  unfold runYouTubeJob, processYouTubeVideo, GET_status, getYouTubeTranscript,
    downloadYouTubeVideo, extractAudioFromVideo, transcribeVideo, unlinkSync,
    getVideoDuration, detectMoments, updateJob, writeFileSync,
    readFile, withJobs, withFs, tryCatch, bind, lift, ret, throw.
  cbn [fs clipJobs jobs uuids randoms calls].
  rewrite Hfetch. cbn [fs clipJobs jobs uuids randoms calls].
  rewrite Hdl. cbn [fs clipJobs jobs uuids randoms calls].
  rewrite lookup_insert_eq, Haudio. cbn [fs clipJobs jobs uuids randoms calls].
  fold audioPath. rewrite lookup_insert_eq, Htranscribe.
  cbn [fs clipJobs jobs uuids randoms calls].
  eexists. split; [reflexivity|]. cbn [fs jobs].
  split; by rewrite lookup_insert_eq.
Qed.
End IngestRuns.

Lemma fast_transcript_is_preferred_witness :
  exists w' moments,
    runYouTubeJob fastTranscriptTools "job" "https://youtu.be/abc" "abc"
                  "/app/uploads/job.mp4" emptyWorld = (Ok tt, w')
    /\ GET_status "job" w'
       = Some (completedJob "job"
                 (mkIngestResult "/app/uploads/job.mp4" sampleSegments moments 30
                                 "youtube"))
    /\ fs w' = <["/app/uploads/job.mp4" := "VIDEO"]> (fs emptyWorld).
Proof.
  destruct (fast_transcript_is_preferred
              fastTranscriptTools "job" "https://youtu.be/abc" "abc"
              "/app/uploads/job.mp4" emptyWorld sampleSegments "VIDEO" 30
              eq_refl eq_refl eq_refl)
    as (w' & Hrun & Hjob & Hfs).
  exists w'. eexists. split; [exact Hrun|]. split; [exact Hjob|exact Hfs].
Defined.

Lemma slow_path_removes_temporary_audio_witness :
  let T := sampleTools zoomOk cropOk in
  exists w',
    runYouTubeJob T "job" "https://youtu.be/abc" "abc" "/app/uploads/job.mp4" emptyWorld
    = (Ok tt, w')
    /\ fs w' !! pathJoin (TEMP_DIR T) "job.wav" = None
    /\ fs w' !! "/app/uploads/job.mp4" = Some "VIDEO".
Proof.
  intros T.
  assert (Hne : pathJoin (TEMP_DIR T) ("job" +:+ ".wav") <> "/app/uploads/job.mp4").
  { intros H. vm_compute in H. discriminate H. }
  destruct (slow_path_removes_temporary_audio
              T "job" "https://youtu.be/abc" "abc" "/app/uploads/job.mp4" emptyWorld
              sampleSegments "no captions" "VIDEO" "audio(VIDEO)" 30
              Hne eq_refl eq_refl eq_refl eq_refl eq_refl)
    as (w' & Hrun & _ & Haudio & Hvideo).
  exists w'. split; [exact Hrun|]. split; [exact Haudio|exact Hvideo].
Defined.

Lemma transcription_failure_leaves_temporary_audio_witness :
  let T := transcriberFailsTools in
  exists w',
    runYouTubeJob T "job" "https://youtu.be/abc" "abc" "/app/uploads/job.mp4" emptyWorld
    = (Ok tt, w')
    /\ GET_status "job" w'
       = Some (failedSnapshot "job" "Failed to transcribe: rate limited")
    /\ fs w' !! pathJoin (TEMP_DIR T) "job.wav" = Some "audio(VIDEO)".
Proof.
  intros T.
  destruct (transcription_failure_leaves_temporary_audio
              T "job" "https://youtu.be/abc" "abc" "/app/uploads/job.mp4" emptyWorld
              "no captions" "rate limited" "VIDEO" "audio(VIDEO)"
              eq_refl eq_refl eq_refl eq_refl)
    as (w' & Hrun & Hjob & Haudio).
  exists w'. split; [exact Hrun|]. split; [exact Hjob|exact Haudio].
Defined.

(** ** The ingest route *)

Lemma runYouTubeJob_returns (T : Tools) (jobId url videoId videoPath : string)
      (w : World) :
  exists w' job,
    runYouTubeJob T jobId url videoId videoPath w = (Ok tt, w')
    /\ jobs w' !! jobId = Some job
    /\ (j_status job = Some completed \/ j_status job = Some failed).
Proof.
  unfold runYouTubeJob, tryCatch.
  destruct (processYouTubeVideo T jobId url videoId videoPath w) as [[[]|e] w1] eqn:E.
  - destruct (processYouTubeVideo_completed T jobId url videoId videoPath w w1 E)
      as (r & Hjob & _).
    exists w1, (completedJob jobId r). split; [done|]. split; [exact Hjob|by left].
  - eexists _, (failedSnapshot jobId e). split; [reflexivity|].
    split; [cbn [jobs]; by rewrite lookup_insert_eq|by right].
Qed.

(** X20.  The ingest route always answers a JSON request.  A request that
    is refused has stored nothing, although an identifier was drawn for it;
    a request that is accepted is answered with that identifier, under
    which the job is then found completed or failed. *)
Theorem ingest_request_outcomes (T : Tools) (body : jsval) (w : World) :
  exists response w',
    POST_ingest T body w = (Ok response, w')
    /\ (forall status message,
          response = ErrorResponse status message ->
          fs w' = fs w /\ jobs w' = jobs w /\ clipJobs w' = clipJobs w
          /\ uuids w' = S (uuids w))
    /\ (forall jobId,
          response = ProcessingStarted jobId ->
          jobId = uuidv4 T (uuids w)
          /\ exists job,
               GET_status jobId w' = Some job
               /\ (j_status job = Some completed \/ j_status job = Some failed)).
Proof.
  unfold POST_ingest. unfold tryCatch at 1.
  unfold bind at 1, freshId at 1.
  unfold bind at 1, lift at 1.
  destruct (getProp body "url") as [url|e];
    [|eexists _, _; split; [reflexivity|]; split; [by intros ? ? _|by intros ? [=]]].
  destruct (negb (truthy url));
    [eexists _, _; split; [reflexivity|]; split; [by intros ? ? _|by intros ? [=]]|].
  destruct url as [| |b|q|u|items|fields];
    try (eexists _, _; split; [reflexivity|]; split; [by intros ? ? _|by intros ? [=]]).
  destruct (extractYouTubeId u) as [videoId|];
    [|eexists _, _; split; [reflexivity|]; split; [by intros ? ? _|by intros ? [=]]].
  unfold bind at 1, withJobs at 1. unfold bind at 1.
  match goal with
  | |- context [runYouTubeJob ?T ?id ?u ?v ?p ?w0] =>
      destruct (runYouTubeJob_returns T id u v p w0) as (w1 & job & Hrun & Hjob & Hstatus)
  end.
  rewrite Hrun. eexists _, _. split; [reflexivity|].
  split; [by intros ? ? [=]|]. intros jobId [= <-]. split; [reflexivity|].
  exists job. by split.
Qed.

(** ** Uploaded files *)

Section UploadRuns.
Variable T : Tools.
Variable resample : string -> result string.

Lemma processUploadedFile_completed (jobId videoPath source : string) (w w' : World) :
  processUploadedFile T resample jobId videoPath source w = (Ok tt, w') ->
  exists r, jobs w' !! jobId = Some (completedJob jobId r)
            /\ r_videoPath r = videoPath /\ r_source r = source
            /\ (String.eqb source "upload" = false -> r_duration r = 0%Q).
Proof.
  unfold processUploadedFile. intros H.
  apply bind_inv in H as (_ & w1 & _ & H).
  apply bind_inv in H as (_ & w2 & _ & H).
  apply bind_inv in H as (_ & w3 & _ & H).
  apply bind_inv in H as (segments & w4 & _ & H).
  apply bind_inv in H as (_ & w5 & _ & H).
  apply bind_inv in H as (_ & w6 & _ & H).
  apply bind_inv in H as (moments & w7 & _ & H).
  apply bind_inv in H as (duration & w8 & Hduration & H).
  unfold withJobs in H. injection H as <-.
  eexists. cbn [jobs]. rewrite lookup_insert_eq.
  split; [reflexivity|]. split; [reflexivity|]. split; [reflexivity|].
  intros Hsource. rewrite Hsource in Hduration. by injection Hduration as <-.
Qed.

Lemma runUploadJob_returns (jobId videoPath source : string) (w : World) :
  exists w' job,
    runUploadJob T resample jobId videoPath source w = (Ok tt, w')
    /\ jobs w' !! jobId = Some job
    /\ ((j_status job = Some failed /\ j_result job = None)
        \/ (j_status job = Some completed
            /\ exists r, j_result job = Some r
                         /\ r_videoPath r = videoPath /\ r_source r = source
                         /\ (String.eqb source "upload" = false -> r_duration r = 0%Q))).
Proof.
  unfold runUploadJob, tryCatch.
  destruct (processUploadedFile T resample jobId videoPath source w)
    as [[[]|e] w1] eqn:E.
  - destruct (processUploadedFile_completed jobId videoPath source w w1 E)
      as (r & Hjob & Hr).
    exists w1, (completedJob jobId r). split; [done|]. split; [exact Hjob|].
    right. split; [done|]. by exists r.
  - eexists _, (failedSnapshot jobId e). split; [reflexivity|].
    split; [cbn [jobs]; by rewrite lookup_insert_eq|by left].
Qed.

(** X21.  An audio upload is resampled instead of demuxed, and its
    duration is recorded as zero without probing the file: whatever the
    audio extraction and the duration probe would answer, the job completes
    with source [audio], duration 0 and the transcriber's segments, and the
    temporary audio file is gone. *)
Theorem audio_upload_is_not_probed
        (jobId videoPath : string) (w : World) (bytes audio : string)
        (segments : list TranscriptSegment) :
  fs w !! videoPath = Some bytes ->
  resample bytes = Ok audio ->
  transcribe T audio = Ok segments ->
  exists w',
    runUploadJob T resample jobId videoPath "audio" w = (Ok tt, w')
    /\ GET_status jobId w'
       = Some (completedJob jobId
                 (mkIngestResult videoPath segments
                    (detectViralMoments (fun k => uuidv4 T (uuids w + k)) (rank T)
                                        segments 10 60)
                    0 "audio"))
    /\ fs w' !! pathJoin (TEMP_DIR T) (jobId +:+ ".wav") = None.
Proof.
  intros Hvideo Hresample Htranscribe.
  unfold runUploadJob, processUploadedFile, GET_status, resampleAudio,
    transcribeVideo, unlinkSync, detectMoments, updateJob, writeFileSync,
    readFile, withJobs, withFs, tryCatch, bind, lift, ret, throw.
  cbn [fs clipJobs jobs uuids randoms calls String.eqb Ascii.eqb Bool.eqb].
  rewrite Hvideo, Hresample. cbn [fs clipJobs jobs uuids randoms calls].
  rewrite lookup_insert_eq, Htranscribe. cbn [fs clipJobs jobs uuids randoms calls].
  rewrite lookup_insert_eq. cbn [fs clipJobs jobs uuids randoms calls].
  eexists. split; [reflexivity|]. cbn [fs jobs].
  split; [by rewrite lookup_insert_eq|by rewrite lookup_delete_eq].
Qed.

(** X22.  An upload without a file is refused and nothing is stored.  An
    upload with a file is always accepted under the identifier drawn for
    it, and its job settles: it is failed without result, or completed with
    the path the file was saved to and a source that is [audio] exactly for
    the extensions .mp3, .wav, .m4a and .aac in any letter case, in which
    case the recorded duration is zero. *)
Theorem upload_request_outcomes
        (extname : string -> string) (name bytes : string) (w : World) :
  let jobId := uuidv4 T (uuids w) in
  let fileExtension := Str.toLowerCase (extname name) in
  let isAudio := existsb (String.eqb fileExtension) audioExtensions in
  (exists w0,
     POST_upload T resample None extname w
     = (Ok (ErrorResponse 400 "File is required"), w0)
     /\ fs w0 = fs w /\ jobs w0 = jobs w)
  /\ exists w' job,
       POST_upload T resample (Some (name, bytes)) extname w
       = (Ok (ProcessingStarted jobId), w')
       /\ GET_status jobId w' = Some job
       /\ ((j_status job = Some failed /\ j_result job = None)
           \/ (j_status job = Some completed
               /\ exists r,
                    j_result job = Some r
                    /\ r_videoPath r = pathJoin (UPLOADS_DIR T) (jobId +:+ fileExtension)
                    /\ r_source r = (if isAudio then "audio" else "upload")
                    /\ (isAudio = true -> r_duration r = 0%Q))).
Proof.
  intros jobId fileExtension isAudio. split.
  { eexists. split; [reflexivity|]. by split. }
  unfold POST_upload. unfold tryCatch at 1.
  unfold bind at 1, freshId at 1. fold jobId.
  unfold bind at 1, writeFileSync at 1, withFs at 1.
  unfold bind at 1, withJobs at 1. unfold bind at 1.
  fold fileExtension. fold isAudio.
  match goal with
  | |- context [runUploadJob ?T ?rs ?id ?p ?src ?w0] =>
      destruct (runUploadJob_returns id p src w0) as (w1 & job & Hrun & Hjob & Hstatus)
  end.
  rewrite Hrun. exists w1, job. split; [reflexivity|]. split; [exact Hjob|].
  destruct Hstatus as [Hfailed|(Hcompleted & r & Hr & Hpath & Hsource & Hduration)];
    [by left|right].
  split; [exact Hcompleted|]. exists r. split; [exact Hr|]. split; [exact Hpath|].
  split; [exact Hsource|]. intros Haudio. apply Hduration. by rewrite Haudio.
Qed.
End UploadRuns.

Lemma audio_upload_is_not_probed_witness :
  let T := probeFailsTools in
  let w := mkWorld {[ "/app/uploads/talk.mp3" := "MP3" ]} ∅ ∅ 0 0 [] in
  exists w' r,
    runUploadJob T (fun a => Ok ("wav(" +:+ a +:+ ")")) "job" "/app/uploads/talk.mp3"
                 "audio" w = (Ok tt, w')
    /\ GET_status "job" w' = Some (completedJob "job" r)
    /\ r_duration r = 0%Q /\ r_source r = "audio".
Proof.
  intros T w.
  assert (Hsrc : fs w !! "/app/uploads/talk.mp3" = Some "MP3") by (vm_compute; reflexivity).
  destruct (audio_upload_is_not_probed
              T (fun a => Ok ("wav(" +:+ a +:+ ")")) "job" "/app/uploads/talk.mp3" w
              "MP3" "wav(MP3)" sampleSegments Hsrc eq_refl eq_refl)
    as (w' & Hrun & Hjob & _).
  exists w'. eexists. split; [exact Hrun|]. split; [exact Hjob|]. by split.
Defined.

(** ** Transcript sources *)

Lemma sequentialFrom_orderedFrom (transcript : list TranscriptItem) :
  forall previousEnd : Q,
  sequentialFrom previousEnd transcript = true ->
  orderedFrom (previousEnd / 1000) (segmentsOfTranscript transcript) = true.
Proof.
  assert (Hinv : (0 <= / 1000)%Q) by (apply (proj1 (Qle_bool_iff _ _)); reflexivity).
  induction transcript as [|item rest IH]; intros previousEnd H; [reflexivity|].
  cbn [sequentialFrom] in H. apply andb_true_iff in H as [H Hrest].
  apply andb_true_iff in H as [Hstart Hduration].
  apply Qle_bool_iff in Hstart, Hduration.
  cbn [segmentsOfTranscript map orderedFrom segmentOfItem seg_start seg_end].
  rewrite !andb_true_iff. split; [split|].
  - apply Qle_bool_iff. by apply Qmult_le_compat_r.
  - apply Qle_bool_iff. apply Qmult_le_compat_r; [|done].
    rewrite <- (Qplus_0_r (item_offset item)) at 1. by apply Qplus_le_r.
  - exact (IH _ Hrest).
Qed.

(** X23.  Caption items that follow one another without overlap, each of
    non-negative duration, become segments that are ordered and
    non-overlapping, one per item, with times in seconds. *)
Theorem sequential_transcript_gives_ordered_segments (transcript : list TranscriptItem) :
  sequential transcript = true ->
  ordered (segmentsOfTranscript transcript) = true
  /\ length (segmentsOfTranscript transcript) = length transcript.
Proof.
  intros H. split; [|apply length_map].
  destruct transcript as [|item rest]; [reflexivity|].
  cbn [sequential] in H. apply andb_true_iff in H as [Hduration Hrest].
  apply Qle_bool_iff in Hduration.
  cbn [segmentsOfTranscript map ordered segmentOfItem seg_start seg_end].
  rewrite andb_true_iff. split.
  - apply Qle_bool_iff. apply Qmult_le_compat_r;
      [|apply (proj1 (Qle_bool_iff _ _)); reflexivity].
    rewrite <- (Qplus_0_r (item_offset item)) at 1. by apply Qplus_le_r.
  - exact (sequentialFrom_orderedFrom rest _ Hrest).
Qed.

Lemma sequential_transcript_gives_ordered_segments_witness :
  sequential sampleTranscript = true
  /\ ordered (segmentsOfTranscript sampleTranscript) = true.
Proof.
  assert (H : sequential sampleTranscript = true) by reflexivity.
  split; [exact H|].
  exact (proj1 (sequential_transcript_gives_ordered_segments sampleTranscript H)).
Defined.

(** X24.  A transcription answer without a [segments] field becomes one
    segment at time zero holding the whole text, and from such a transcript
    the detector never returns a moment. *)
Theorem answer_without_segments_yields_no_moment
        (exp : Q -> Q) (text : string) (uuidv4 : nat -> string)
        (openai : RankingService) (minDuration maxDuration : Q) :
  segmentsOfResponse exp text None = [mkSegment text 0 0 None]
  /\ detectViralMoments uuidv4 openai (segmentsOfResponse exp text None)
                        minDuration maxDuration = [].
Proof.
  split; [reflexivity|].
  apply detect_nothing_without_candidates, scoreMoments_short. simpl. lia.
Qed.

(** ** Subtitle times *)

Lemma Qfloor_div_pos (q : Q) (p : positive) :
  Qfloor (q / inject_Z (Zpos p)) = (Qfloor q / Zpos p)%Z.
Proof.
  destruct q as [a b]. unfold Qdiv, Qmult, Qinv, inject_Z. simpl.
  rewrite Z.mul_1_r, Pos2Z.inj_mul.
  by rewrite Z.div_div by lia.
Qed.

Lemma Qfloor_minus_Z (q : Q) (k : Z) : Qfloor (q - inject_Z k) = (Qfloor q - k)%Z.
Proof.
  destruct q as [a b]. unfold Qminus, Qplus, Qopp, inject_Z. simpl.
  rewrite Z.mul_1_r, Pos.mul_1_r.
  replace (a + - k * Z.pos b)%Z with (a + (- k) * Z.pos b)%Z by lia.
  rewrite Z.div_add by lia. lia.
Qed.

Lemma Qtrunc_nonneg (q : Q) : (0 <= q)%Q -> Qtrunc q = Qfloor q.
Proof.
  intros H. unfold Qtrunc.
  assert (Qlt_bool q 0 = false) as ->; [|done]. by apply Qlt_bool_false.
Qed.

(** The remainder of a non-negative number by a positive integer. *)
Lemma Qrem_nonneg (q : Q) (p : positive) :
  (0 <= q)%Q ->
  (Qrem q (inject_Z (Zpos p)) == q - inject_Z (Zpos p * (Qfloor q / Zpos p)))%Q.
Proof.
  intros H. unfold Qrem. rewrite Qtrunc_nonneg.
  - rewrite Qfloor_div_pos, inject_Z_mult. reflexivity.
  - apply Qle_shift_div_l; [reflexivity|]. by rewrite Qmult_0_l.
Qed.

Lemma Qfloor_whole_seconds (seconds : Q) :
  Qfloor seconds = (Qfloor (seconds * 1000) / 1000)%Z.
Proof.
  rewrite <- (Qfloor_div_pos (seconds * 1000) 1000).
  apply Qfloor_comp. change (inject_Z 1000) with 1000%Q. field.
Qed.

Section SubtitleTime.
Variable seconds : Q.
Hypothesis nonneg : (0 <= seconds)%Q.

Local Abbreviation whole := (Qfloor seconds).

Lemma hours_field : Qfloor (seconds / 3600) = (whole / 3600)%Z.
Proof. exact (Qfloor_div_pos seconds 3600). Qed.

Lemma minutes_field : Qfloor (Qrem seconds 3600 / 60) = (whole / 60 mod 60)%Z.
Proof.
  change 3600%Q with (inject_Z (Zpos 3600)). change 60%Q with (inject_Z (Zpos 60)).
  rewrite (Qfloor_comp _ _ (Qdiv_comp _ _ (Qrem_nonneg seconds 3600 nonneg) _ _
                               (Qeq_refl _))).
  rewrite Qfloor_div_pos, Qfloor_minus_Z.
  generalize whole. intros z. Z.div_mod_to_equations. lia.
Qed.

Lemma seconds_field : Qfloor (Qrem seconds 60) = (whole mod 60)%Z.
Proof.
  change 60%Q with (inject_Z (Zpos 60)).
  rewrite (Qfloor_comp _ _ (Qrem_nonneg seconds 60 nonneg)), Qfloor_minus_Z.
  generalize whole. intros z. Z.div_mod_to_equations. lia.
Qed.

Lemma milliseconds_field :
  Qfloor (Qrem seconds 1 * 1000) = (Qfloor (seconds * 1000) mod 1000)%Z.
Proof.
  change 1%Q with (inject_Z (Zpos 1)) at 1.
  assert (H : (Qrem seconds (inject_Z (Zpos 1)) * 1000
               == seconds * 1000 - inject_Z (1000 * whole))%Q).
  { rewrite (Qrem_nonneg seconds 1 nonneg), Z.div_1_r, Z.mul_1_l, inject_Z_mult.
    change (inject_Z 1000) with 1000%Q. ring. }
  rewrite (Qfloor_comp _ _ H), Qfloor_minus_Z, (Qfloor_whole_seconds seconds).
  generalize (Qfloor (seconds * 1000)). intros z. Z.div_mod_to_equations. lia.
Qed.
End SubtitleTime.



(** ** What a successful render leaves on disk *)

Ltac distinct_clip_paths :=
  first [ distinct_paths
        | apply srtPath_neq_suffix; simpl; lia
        | apply not_eq_sym, srtPath_neq_suffix; simpl; lia ].

Ltac lookup_clip_file :=
  repeat first [ rewrite lookup_insert_eq
               | rewrite lookup_delete_eq
               | rewrite lookup_insert_ne by distinct_clip_paths
               | rewrite lookup_delete_ne by distinct_clip_paths ];
  reflexivity.

(** X26.  After a render whose stages succeed, the captioned and zoomed
    intermediates and the subtitle file that the render wrote are gone: each
    of the three paths is empty if its stage ran, and untouched if it did
    not. *)
Theorem successful_render_removes_later_intermediates
        (T : Tools) (clipJobId videoPath : string) (segments : list TranscriptSegment)
        (total : nat) (config : jsval) (i : nat) (moment : ViralMoment) (w : World)
        (format : jsval) (addCaptions addEmojis addZoomPan : bool)
        (src base pre th : string) :
  let clipId := uuidv4 T (uuids w) in
  let captioned := clipFile T clipId "_captioned.mp4" in
  let zoomed := clipFile T clipId "_final.mp4" in
  let subtitles := Str.replaceFirst (clipFile T clipId "_base.mp4") ".mp4" ".srt" in
  clipOptions config = Ok (format, addCaptions, addEmojis, addZoomPan) ->
  fs w !! videoPath = Some src ->
  crop T src (m_start moment) (m_end moment - m_start moment)%Q (cropFilterOf format)
  = Ok base ->
  preEffectVideo T segments moment addCaptions addEmojis (randoms w) base = Ok pre ->
  thumbnail T (afterZoom T addZoomPan pre) 1%Q = Ok th ->
  exists c w',
    processOne T clipJobId videoPath segments total config i moment w = (Ok c, w')
    /\ c_ready c = true
    /\ fs w' !! captioned = (if addCaptions then None else fs w !! captioned)
    /\ fs w' !! zoomed = (if addZoomPan then None else fs w !! zoomed)
    /\ fs w' !! subtitles = (if addCaptions then None else fs w !! subtitles).
Proof.
  intros clipId captioned zoomed subtitles Hopts Hsrc Hcrop Hpre Hth.
  rewrite (processOne_unfold T clipJobId videoPath segments total config i moment w
             format addCaptions addEmojis addZoomPan Hopts).
  destruct w as [f cj j u r c]. cbn [fs clipJobs jobs uuids randoms calls] in *.
  unfold tryCatch, renderWith. fold clipId.
  fold (clipFile T clipId "_base.mp4").
  fold (clipFile T clipId "_captioned.mp4"). fold (clipFile T clipId "_final.mp4").
  fold (clipFile T clipId ".mp4"). fold (clipFile T clipId "_thumb.jpg").
  fold captioned zoomed.
  run_stage.
  destruct addCaptions, addZoomPan; unfold preEffectVideo, afterZoom in *;
    try (injection Hpre as <-);
    unfold captioned, zoomed in *;
    repeat run_stage;
    (eexists _, _; split; [reflexivity|]);
    (split; [reflexivity|]); cbn [fs]; unfold subtitles;
    (split; [lookup_clip_file|]); (split; [lookup_clip_file|]); lookup_clip_file.
Qed.

Lemma successful_render_removes_later_intermediates_witness :
  let T := sampleTools zoomOk cropOk in
  exists c w',
    processOne T "job" "/app/uploads/job.mp4" sampleSegments 1 (JObj []) 0
               sampleMoment sourceWorld = (Ok c, w')
    /\ fs w' !! clipFile T "id0" "_captioned.mp4" = None
    /\ fs w' !! clipFile T "id0" "_final.mp4" = None.
Proof.
  intros T.
  assert (Hsrc : fs sourceWorld !! "/app/uploads/job.mp4" = Some "VIDEO")
    by (vm_compute; reflexivity).
  destruct (successful_render_removes_later_intermediates
              T "job" "/app/uploads/job.mp4" sampleSegments 1 (JObj []) 0
              sampleMoment sourceWorld (JStr "9:16") true true true
              "VIDEO" "crop(VIDEO)" "captioned(crop(VIDEO))"
              "thumb(zoom(captioned(crop(VIDEO))))"
              eq_refl Hsrc eq_refl eq_refl eq_refl)
    as (c & w' & Hrun & _ & Hcaptioned & Hzoomed & _).
  exists c, w'. split; [exact Hrun|]. split; [exact Hcaptioned|exact Hzoomed].
Defined.

(** ** The stores of the two routes *)

Lemma preservesJobs_bind {A B} (m : M A) (k : A -> M B) :
  preservesJobs m -> (forall a, preservesJobs (k a)) -> preservesJobs (bind m k).
Proof.
  intros Hm Hk w r w'. unfold bind.
  destruct (m w) as [[a|e] w1] eqn:E; intros H.
  - rewrite (Hk a _ _ _ H). exact (Hm _ _ _ E).
  - injection H as <- <-. exact (Hm _ _ _ E).
Qed.

Lemma preservesJobs_tryCatch {A} (m : M A) (handler : string -> M A) :
  preservesJobs m -> (forall e, preservesJobs (handler e)) ->
  preservesJobs (tryCatch m handler).
Proof.
  intros Hm Hh w r w'. unfold tryCatch.
  destruct (m w) as [[a|e] w1] eqn:E; intros H.
  - injection H as <- <-. exact (Hm _ _ _ E).
  - rewrite (Hh e _ _ _ H). exact (Hm _ _ _ E).
Qed.

Lemma preservesJobs_ret {A} (a : A) : preservesJobs (ret a).
Proof. by intros w r w' [= <- <-]. Qed.

Lemma preservesJobs_throw {A} (e : string) : preservesJobs (throw (A := A) e).
Proof. by intros w r w' [= <- <-]. Qed.

Lemma preservesJobs_lift {A} (x : result A) : preservesJobs (lift x).
Proof. by intros w r w' [= <- <-]. Qed.

Lemma preservesJobs_withFs (f : gmap string string -> gmap string string) :
  preservesJobs (withFs f).
Proof. by intros w r w' [= <- <-]. Qed.

Lemma preservesJobs_withClipJobs (f : gmap string ClipJob -> gmap string ClipJob) :
  preservesJobs (withClipJobs f).
Proof. by intros w r w' [= <- <-]. Qed.

Lemma preservesJobs_record (c : Call) : preservesJobs (record c).
Proof. by intros w r w' [= <- <-]. Qed.

Lemma preservesJobs_freshId (T : Tools) : preservesJobs (freshId T).
Proof. by intros w r w' [= <- <-]. Qed.

Lemma preservesJobs_readFile (path : string) : preservesJobs (readFile path).
Proof.
  intros w r w'. unfold readFile. by destruct (fs w !! path); intros [= <- <-].
Qed.

Lemma preservesJobs_drawSRT (T : Tools) (segments : list TranscriptSegment)
      (moment : ViralMoment) (addEmojis : bool) :
  preservesJobs (drawSRT T segments moment addEmojis).
Proof.
  intros w r w'. unfold drawSRT.
  by destruct (generateSRT _ _ _ _ _); intros [= <- <-].
Qed.

Create HintDb jobs_kept.
#[local] Hint Resolve preservesJobs_ret preservesJobs_throw preservesJobs_lift
  preservesJobs_withFs preservesJobs_withClipJobs preservesJobs_record
  preservesJobs_freshId preservesJobs_readFile preservesJobs_drawSRT : jobs_kept.

Ltac jobs_kept :=
  repeat first
    [ apply preservesJobs_bind; [|intros ?]
    | apply preservesJobs_tryCatch; [|intros ?]
    | progress auto with jobs_kept
    | match goal with
      | |- preservesJobs (if ?b then _ else _) => destruct b
      | |- preservesJobs (match ?x with _ => _ end) => destruct x
      | |- preservesJobs (let '(_, _) := ?x in _) => destruct x
      end ].

Lemma preservesJobs_processOne (T : Tools) (clipJobId videoPath : string)
      (segments : list TranscriptSegment) (total : nat) (config : jsval)
      (i : nat) (moment : ViralMoment) :
  preservesJobs (processOne T clipJobId videoPath segments total config i moment).
Proof.
  unfold processOne, renderClip, renderWith, createClip, addCaptionsToVideo,
    addZoomPanEffect, generateThumbnail, unlinkSync, renameSync, copyFileSync,
    writeFileSync.
  jobs_kept.
Qed.

Lemma preservesJobs_clipLoop (T : Tools) (clipJobId videoPath : string)
      (segments : list TranscriptSegment) (total : nat) (config : jsval)
      (rest : list ViralMoment) :
  forall (i : nat) (clips : list ProcessedClip),
  preservesJobs (clipLoop T clipJobId videoPath segments total config i rest clips).
Proof.
  induction rest as [|moment rest IH]; intros i clips; cbn [clipLoop].
  - apply preservesJobs_ret.
  - apply preservesJobs_bind; [apply preservesJobs_processOne|]. intros clip. apply IH.
Qed.

Lemma preservesJobs_POST_process (T : Tools) (body : jsval) :
  preservesJobs (POST_process T body).
Proof.
  unfold POST_process, processClips.
  apply preservesJobs_tryCatch; [|intros e; apply preservesJobs_ret].
  apply preservesJobs_bind; [apply preservesJobs_lift|]. intros jobId.
  apply preservesJobs_bind; [apply preservesJobs_lift|]. intros momentIds.
  apply preservesJobs_bind; [apply preservesJobs_lift|]. intros config.
  destruct (_ || _); [apply preservesJobs_ret|].
  apply preservesJobs_bind; [by intros w r w' [= <- <-]|]. intros [job|];
    [|apply preservesJobs_ret].
  destruct (negb _); [apply preservesJobs_ret|].
  destruct (j_result job) as [r|]; [|apply preservesJobs_throw].
  destruct (_ =? _)%nat; [apply preservesJobs_ret|].
  apply preservesJobs_bind; [apply preservesJobs_freshId|]. intros clipJobId.
  apply preservesJobs_bind; [apply preservesJobs_withClipJobs|]. intros _.
  apply preservesJobs_bind; [|intros _; apply preservesJobs_ret].
  apply preservesJobs_tryCatch; [|intros e; apply preservesJobs_withClipJobs].
  apply preservesJobs_bind; [apply preservesJobs_clipLoop|]. intros clips.
  apply preservesJobs_withClipJobs.
Qed.

(** X27.  Clip rendering reads the ingestion job and never writes to it:
    whatever the request and however the render ends, the store of
    ingestion jobs is the same afterwards, so the same job can be processed
    again. *)
Theorem process_route_keeps_ingest_jobs (T : Tools) (body : jsval) (w : World) :
  jobs (snd (POST_process T body w)) = jobs w.
Proof.
  destruct (POST_process T body w) as [response w'] eqn:E.
  exact (preservesJobs_POST_process T body w response w' E).
Qed.

(** ** Letter case *)

Lemma toLowerChar_facts (c : ascii) :
  Str.toLowerChar (Str.toLowerChar c) = Str.toLowerChar c
  /\ Ascii.eqb "?" (Str.toLowerChar c) = Ascii.eqb "?" c
  /\ Ascii.eqb "!" (Str.toLowerChar c) = Ascii.eqb "!" c
  /\ Str.isTerminator (Str.toLowerChar c) = Str.isTerminator c
  /\ Str.isSpace (Str.toLowerChar c) = Str.isSpace c.
Proof.
  destruct c as [[] [] [] [] [] [] [] []]; vm_compute; repeat split; reflexivity.
Qed.

Lemma countChar_toLowerCase (c : ascii) (s : string) :
  (forall d, Ascii.eqb c (Str.toLowerChar d) = Ascii.eqb c d) ->
  Str.countChar c (Str.toLowerCase s) = Str.countChar c s.
Proof.
  intros Hc. induction s as [|d s IH]; [reflexivity|].
  cbn [Str.toLowerCase Str.countChar]. by rewrite Hc, IH.
Qed.

Lemma toLowerCase_append (a b : string) :
  Str.toLowerCase (a +:+ b) = Str.toLowerCase a +:+ Str.toLowerCase b.
Proof.
  induction a as [|c a IH]; [reflexivity|].
  rewrite append_cons. cbn [Str.toLowerCase]. by rewrite append_cons, IH.
Qed.

Lemma length_toLowerCase (s : string) :
  String.length (Str.toLowerCase s) = String.length s.
Proof. induction s as [|c s IH]; [reflexivity|]. simpl. by rewrite IH. Qed.

Lemma splitGo_toLowerCase (s : string) :
  forall (cur : string) (inRun : bool),
  Str.splitGo (Str.toLowerCase s) (Str.toLowerCase cur) inRun
  = map Str.toLowerCase (Str.splitGo s cur inRun).
Proof.
  induction s as [|c s IH]; intros cur inRun; [reflexivity|].
  cbn [Str.toLowerCase Str.splitGo].
  rewrite (proj1 (proj2 (proj2 (proj2 (toLowerChar_facts c))))).
  destruct (Str.isTerminator c).
  - destruct inRun; [apply IH|]. cbn [map]. f_equal. exact (IH "" true).
  - rewrite <- IH. by rewrite toLowerCase_append.
Qed.

Lemma trimStart_toLowerCase (s : string) :
  Str.trimStart (Str.toLowerCase s) = Str.toLowerCase (Str.trimStart s).
Proof.
  induction s as [|c s IH]; [reflexivity|].
  cbn [Str.toLowerCase Str.trimStart].
  rewrite (proj2 (proj2 (proj2 (proj2 (toLowerChar_facts c))))).
  by destruct (Str.isSpace c).
Qed.

Lemma rev_toLowerCase (s : string) :
  String.rev (Str.toLowerCase s) = Str.toLowerCase (String.rev s).
Proof.
  unfold String.rev. change "" with (Str.toLowerCase "") at 1.
  generalize "". induction s as [|c s IH]; intros acc; [reflexivity|].
  cbn [Str.toLowerCase String.rev_app]. exact (IH (String c acc)).
Qed.

Lemma trim_toLowerCase (s : string) :
  Str.trim (Str.toLowerCase s) = Str.toLowerCase (Str.trim s).
Proof.
  unfold Str.trim.
  by rewrite trimStart_toLowerCase, rev_toLowerCase, trimStart_toLowerCase,
    rev_toLowerCase.
Qed.

Lemma length_filter_map {A} (f : A -> bool) (g : A -> A) (l : list A) :
  (forall x, f (g x) = f x) ->
  length (List.filter f (map g l)) = length (List.filter f l).
Proof.
  intros H. induction l as [|x l IH]; [reflexivity|].
  simpl. rewrite H. destruct (f x); simpl; by rewrite IH.
Qed.

Lemma sentences_toLowerCase (text : string) :
  length (sentences (Str.toLowerCase text)) = length (sentences text).
Proof.
  unfold sentences, Str.splitSentences.
  change (Str.splitGo (Str.toLowerCase text) "" false)
    with (Str.splitGo (Str.toLowerCase text) (Str.toLowerCase "") false).
  rewrite (splitGo_toLowerCase text "" false).
  apply length_filter_map. intros s.
  by rewrite trim_toLowerCase, length_toLowerCase.
Qed.

(** The score as a function of what it reads in the text. *)
Lemma rawViralScore_reads (a b : string) (segments : list TranscriptSegment) :
  Str.toLowerCase a = Str.toLowerCase b ->
  Str.countChar "?" a = Str.countChar "?" b ->
  Str.countChar "!" a = Str.countChar "!" b ->
  length (sentences a) = length (sentences b) ->
  rawViralScore a segments = rawViralScore b segments.
Proof.
  intros Hlower Hq Hx Hn. unfold rawViralScore.
  by rewrite Hlower, Hq, Hx, Hn.
Qed.

(** X28.  Scoring ignores letter case: two texts that differ only in the
    case of their ASCII letters have the same keywords, the same emotions
    and the same score. *)
Theorem scoring_ignores_letter_case
        (a b : string) (segments : list TranscriptSegment) :
  Str.toLowerCase a = Str.toLowerCase b ->
  extractKeywords a = extractKeywords b
  /\ detectEmotions a = detectEmotions b
  /\ calculateViralScore a segments = calculateViralScore b segments.
Proof.
  intros Hlower.
  split; [by rewrite !extractKeywords_eq, Hlower|].
  split; [by rewrite !detectEmotions_eq, Hlower|].
  unfold calculateViralScore. f_equal. apply rawViralScore_reads.
  - exact Hlower.
  - rewrite <- (countChar_toLowerCase "?" a), <- (countChar_toLowerCase "?" b), Hlower;
      [reflexivity|intros d; apply toLowerChar_facts..].
  - rewrite <- (countChar_toLowerCase "!" a), <- (countChar_toLowerCase "!" b), Hlower;
      [reflexivity|intros d; apply toLowerChar_facts..].
  - by rewrite <- (sentences_toLowerCase a), <- (sentences_toLowerCase b), Hlower.
Qed.

Lemma scoring_ignores_letter_case_witness :
  calculateViralScore "This SECRET is Shocking! Why?" plainSegments
  = calculateViralScore "this secret is shocking! why?" plainSegments.
Proof.
  assert (H : Str.toLowerCase "This SECRET is Shocking! Why?"
              = Str.toLowerCase "this secret is shocking! why?")
    by (vm_compute; reflexivity).
  exact (proj2 (proj2 (scoring_ignores_letter_case _ _ plainSegments H))).
Defined.

(** ** The web client *)

Lemma includes_In (x : string) (l : list string) :
  existsb (String.eqb x) l = true <-> In x l.
Proof.
  rewrite existsb_exists. split.
  - intros (y & Hy & Heq). apply String.eqb_eq in Heq. by subst.
  - intros H. exists x. split; [exact H|apply String.eqb_refl].
Qed.

Lemma filter_keeps_all (momentId : string) (l : list string) :
  ~ In momentId l ->
  List.filter (fun id => negb (String.eqb id momentId)) l = l.
Proof.
  induction l as [|x l IH]; intros Hnot; [reflexivity|]. simpl.
  destruct (String.eqb_spec x momentId) as [->|_]; simpl.
  - exfalso. apply Hnot. by left.
  - f_equal. apply IH. intros H. apply Hnot. by right.
Qed.

(** X29.  A click on a moment flips its membership in the selection and
    leaves every other moment as it was; a selection without duplicates
    stays without duplicates; and selecting then deselecting a moment
    restores the selection. *)
Theorem click_toggles_selection (momentId : string) (prev : list string) :
  List.NoDup prev ->
  List.NoDup (handleMomentSelect momentId prev)
  /\ (In momentId (handleMomentSelect momentId prev) <-> ~ In momentId prev)
  /\ (forall other, other <> momentId ->
        (In other (handleMomentSelect momentId prev) <-> In other prev))
  /\ (~ In momentId prev ->
      handleMomentSelect momentId (handleMomentSelect momentId prev) = prev).
Proof.
  intros Hnodup. unfold handleMomentSelect at 1 2 3.
  destruct (existsb (String.eqb momentId) prev) eqn:E.
  - apply includes_In in E. split; [|split; [|split]].
    + by apply List.NoDup_filter.
    + rewrite filter_In. split; [|done].
      intros [_ H]. by rewrite String.eqb_refl in H.
    + intros other Hother. rewrite filter_In. split; [by intros [H _]|].
      intros H. split; [exact H|]. by apply negb_true_iff, String.eqb_neq.
    + done.
  - assert (Hnot : ~ In momentId prev).
    { intros H. apply includes_In in H. congruence. }
    split; [|split; [|split]].
    + apply List.NoDup_app; [exact Hnodup|repeat constructor; by intros []|].
      intros x Hx [<-|[]]. done.
    + rewrite in_app_iff. split; [done|]. intros _. right. by left.
    + intros other Hother. rewrite in_app_iff. split; [|by left].
      intros [H|[H|[]]]; [exact H|]. by destruct Hother.
    + intros _. unfold handleMomentSelect. rewrite E.
      assert (existsb (String.eqb momentId) (prev ++ [momentId]) = true) as ->.
      { apply includes_In, in_app_iff. right. by left. }
      rewrite List.filter_app, (filter_keeps_all _ _ Hnot). simpl.
      rewrite String.eqb_refl. simpl. apply app_nil_r.
Qed.

Lemma click_toggles_selection_witness :
  List.NoDup ["m0"; "m1"]
  /\ handleMomentSelect "m0" ["m0"; "m1"] = ["m1"]
  /\ List.NoDup (handleMomentSelect "m0" ["m0"; "m1"]).
Proof.
  assert (H : List.NoDup ["m0"; "m1"]).
  { repeat constructor; simpl; intuition discriminate. }
  split; [exact H|]. split; [reflexivity|].
  exact (proj1 (click_toggles_selection "m0" ["m0"; "m1"] H)).
Defined.

(** X30.  The web client always asks for captions with emojis in 9:16 and
    without pan/zoom.  A clip rendered for such a request goes through the
    crop, the caption and the thumbnail stage only; its final video is the
    captioned video, and the base clip does not remain on disk. *)
Theorem client_requests_skip_pan_zoom
        (T : Tools) (clipJobId videoPath : string) (segments : list TranscriptSegment)
        (total : nat) (i : nat) (moment : ViralMoment) (w : World)
        (jobId : option string) (selectedMoments : list string)
        (src base captioned th : string) :
  let clipId := uuidv4 T (uuids w) in
  let srt := fst (generateSRT (random T) segments moment true (randoms w)) in
  fs w !! videoPath = Some src ->
  crop T src (m_start moment) (m_end moment - m_start moment)%Q
       (cropFilterOf (JStr "9:16")) = Ok base ->
  burnSubtitles T base srt = Ok captioned ->
  thumbnail T captioned 1%Q = Ok th ->
  getProp (processRequest jobId selectedMoments) "config" = Ok clientConfig
  /\ exists c w',
       processOne T clipJobId videoPath segments total clientConfig i moment w
       = (Ok c, w')
       /\ c_ready c = true
       /\ fs w' !! clipFile T clipId ".mp4" = Some captioned
       /\ fs w' !! clipFile T clipId "_base.mp4" = None
       /\ calls w'
          = calls w
            ++ [ CreateClip videoPath (clipFile T clipId "_base.mp4")
                            (m_start moment) (m_end moment) (JStr "9:16");
                 AddCaptionsToVideo (clipFile T clipId "_base.mp4")
                                    (clipFile T clipId "_captioned.mp4") true;
                 GenerateThumbnail (clipFile T clipId ".mp4")
                                   (clipFile T clipId "_thumb.jpg") ].
Proof.
  intros clipId srt Hsrc Hcrop Hburn Hth. split; [reflexivity|].
  destruct (processOne_run T clipJobId videoPath segments total clientConfig i moment w
              (JStr "9:16") true true false src base captioned th
              eq_refl Hsrc Hcrop Hburn Hth)
    as (w' & Hrun & Hfinal & _ & Hbase & Hcalls).
  eexists _, w'. split; [exact Hrun|]. split; [reflexivity|].
  split; [exact Hfinal|]. split; [exact Hbase|exact Hcalls].
Qed.

Lemma client_requests_skip_pan_zoom_witness :
  let T := sampleTools zoomOk cropOk in
  exists c w',
    processOne T "job" "/app/uploads/job.mp4" sampleSegments 1 clientConfig 0
               sampleMoment sourceWorld = (Ok c, w')
    /\ c_ready c = true
    /\ fs w' !! clipFile T "id0" ".mp4" = Some "captioned(crop(VIDEO))"
    /\ fs w' !! clipFile T "id0" "_base.mp4" = None.
Proof.
  intros T.
  assert (Hsrc : fs sourceWorld !! "/app/uploads/job.mp4" = Some "VIDEO")
    by (vm_compute; reflexivity).
  destruct (client_requests_skip_pan_zoom
              T "job" "/app/uploads/job.mp4" sampleSegments 1 0
              sampleMoment sourceWorld (Some "job") ["m1"]
              "VIDEO" "crop(VIDEO)" "captioned(crop(VIDEO))"
              "thumb(captioned(crop(VIDEO)))"
              Hsrc eq_refl eq_refl eq_refl)
    as (_ & c & w' & Hrun & Hready & Hfinal & Hbase & _).
  exists c, w'. split; [exact Hrun|]. split; [exact Hready|].
  split; [exact Hfinal|exact Hbase].
Defined.
